(** * Modbus master over a serial line: frame codec, transaction engine and
      buffered ASCII port

    A shallow embedding of the ModbusRTU engine ([_CRC16], [_LRC], the
    [_readFC*] parsers, the [writeFC*] request builders and the port
    ['data'] handler) and of the buffered ASCII port ([calculateLrc],
    [asciiEncodeRequestBuffer], [asciiDecodeResponseBuffer], [checkData],
    the serial ['data'] handler and [write]).

    JavaScript numbers that the program handles are integers and are
    modelled in [Z]; a Node [Buffer] is a list of bytes held in [Z];
    an exception is an explicit result. *)

From Stdlib Require Import ZArith QArith Qround Lia String Ascii.
From stdpp Require Import base tactics option list.

Local Open Scope Z_scope.

(** ** Exceptions *)

Inductive exn : Type :=
| RangeError   (* an access outside a buffer *)
| TypeError.   (* a value outside the range of the integer written *)

Inductive res (A : Type) : Type :=
| Ok (a : A)
| Throw (e : exn).
Arguments Ok {A} a.
Arguments Throw {A} e.

#[global] Instance res_ret : MRet res := fun _ a => Ok a.
#[global] Instance res_bind : MBind res := fun _ _ f m =>
  match m with
  | Ok a => f a
  | Throw e => Throw e
  end.

(** ** The part of the JavaScript runtime the program relies on *)

Module Js.

(** ToInt32: the operand conversion of [&], [^] and [>>]. *)
Definition ToInt32 (x : Z) : Z := (x + 2 ^ 31) mod 2 ^ 32 - 2 ^ 31.

(** A value read by index may be [undefined] ([None]); ToInt32 sends
    [undefined] to 0. *)
Definition ToInt32v (v : option Z) : Z :=
  match v with
  | Some x => ToInt32 x
  | None => 0
  end.

(** [a & b], [a ^ b] and [a >> n] *)
Definition band (a b : Z) : Z := Z.land (ToInt32 a) (ToInt32 b).
Definition bxor (a b : Z) : Z := Z.lxor (ToInt32 a) (ToInt32 b).
Definition shr (a n : Z) : Z := Z.shiftr (ToInt32 a) (n mod 32).

(** [buf[i] & b] and [a ^ buf[i]], with an operand that was read by index. *)
Definition bandv (a : option Z) (b : Z) : Z := Z.land (ToInt32v a) (ToInt32 b).
Definition bxorv (a : Z) (b : option Z) : Z := Z.lxor (ToInt32 a) (ToInt32v b).

(** [parseInt(x)] of a number [x]: the number is printed and its integer
    part is read back, which truncates toward zero whenever the number
    prints in decimal notation (x = 0 or 1e-6 <= |x| < 1e21).  Every
    quotient [(length - 1) / 8 + 1] of an integer [length] is in that
    range or is a multiple of 1/8 of magnitude at least 1/8. *)
Definition parseInt (x : Q) : Z :=
  if Qle_bool 0 x then Qfloor x else Qceiling x.

(** [!v] for a number or [undefined]. *)
Definition falsy (v : option Z) : bool :=
  match v with
  | None => true
  | Some x => x =? 0
  end.

(** [String.prototype.toUpperCase], on the letters a..z. *)
Definition upper (c : ascii) : ascii :=
  let n := Z.of_N (N_of_ascii c) in
  if (97 <=? n) && (n <=? 122)
  then ascii_of_N (Z.to_N (n - 32)) else c.

Fixpoint toUpperCase (s : string) : string :=
  match s with
  | EmptyString => EmptyString
  | String c s' => String (upper c) (toUpperCase s')
  end.

(** [String.fromCharCode(a, b)] for two byte values. *)
Definition fromCharCode2 (a b : Z) : string :=
  String (ascii_of_N (Z.to_N a)) (String (ascii_of_N (Z.to_N b)) EmptyString).

End Js.

(** ** Node's Buffer *)

Abbreviation Buffer := (list Z).

Module Buffer.

Definition byte (b : Z) : Prop := 0 <= b < 256.

(** Every element of a buffer is a byte. *)
Definition wf (buf : Buffer) : Prop := Forall byte buf.

Definition len (buf : Buffer) : Z := Z.of_nat (length buf).

(** [new Buffer(n)]: [n] bytes of whatever the allocator's memory [mem]
    holds; the content is not initialised. *)
Definition alloc (mem : nat -> Z) (n : Z) : Buffer :=
  map (fun i => mem i mod 256) (seq 0 (Z.to_nat n)).

(** [buf[i]]: [undefined] outside the buffer. *)
Definition index (buf : Buffer) (i : Z) : option Z :=
  if i <? 0 then None else buf !! Z.to_nat i.

(** The checks of the read and write methods.  The methods first take
    [offset >>> 0], which makes a negative offset one of at least 2^31,
    more than a buffer can hold: a negative offset is out of range. *)
Definition checkOffset (offset ext : Z) (buf : Buffer) : res unit :=
  if (offset <? 0) || (offset + ext >? len buf) then Throw RangeError
  else Ok tt.

Definition checkInt (buf : Buffer) (value offset ext max min : Z) : res unit :=
  if (value >? max) || (value <? min) then Throw TypeError
  else if (offset <? 0) || (offset + ext >? len buf) then Throw RangeError
  else Ok tt.

Definition readUInt8 (buf : Buffer) (offset : Z) : res Z :=
  _ ← checkOffset offset 1 buf;
  Ok (default 0 (index buf offset)).

Definition readUInt16BE (buf : Buffer) (offset : Z) : res Z :=
  _ ← checkOffset offset 2 buf;
  Ok (default 0 (index buf offset) * 256 + default 0 (index buf (offset + 1))).

Definition readUInt16LE (buf : Buffer) (offset : Z) : res Z :=
  _ ← checkOffset offset 2 buf;
  Ok (default 0 (index buf offset) + default 0 (index buf (offset + 1)) * 256).

Definition writeUInt8 (buf : Buffer) (value offset : Z) : res Buffer :=
  _ ← checkInt buf value offset 1 255 0;
  Ok (<[Z.to_nat offset := value]> buf).

Definition writeUInt16BE (buf : Buffer) (value offset : Z) : res Buffer :=
  _ ← checkInt buf value offset 2 65535 0;
  Ok (<[Z.to_nat (offset + 1) := value mod 256]>
       (<[Z.to_nat offset := value / 256]> buf)).

Definition writeUInt16LE (buf : Buffer) (value offset : Z) : res Buffer :=
  _ ← checkInt buf value offset 2 65535 0;
  Ok (<[Z.to_nat (offset + 1) := value / 256]>
       (<[Z.to_nat offset := value mod 256]> buf)).

(** [buf.slice(start, end)]: a negative index counts from the end, both
    are clamped to the buffer, and an end before the start is empty. *)
Definition clamp (i : Z) (buf : Buffer) : Z :=
  if i <? 0 then Z.max 0 (i + len buf) else Z.min i (len buf).

Definition slice (buf : Buffer) (start end_ : Z) : Buffer :=
  let s := clamp start buf in
  let e := Z.max s (clamp end_ buf) in
  take (Z.to_nat (e - s)) (drop (Z.to_nat s) buf).

(** [buf.slice(start)] *)
Definition slice_from (buf : Buffer) (start : Z) : Buffer :=
  slice buf start (len buf).

(** [Buffer.concat([a, b])] *)
Definition concat (a b : Buffer) : Buffer := a ++ b.

(** [buf.toString('hex', 0, buf.length)]: two lower-case digits a byte. *)
Definition hexdigit (n : Z) : ascii :=
  ascii_of_N (Z.to_N (if n <? 10 then 48 + n else 87 + n)).

Fixpoint toHex (buf : Buffer) : string :=
  match buf with
  | [] => EmptyString
  | b :: buf' => String (hexdigit (b / 16)) (String (hexdigit (b mod 16)) (toHex buf'))
  end.

(** UTF-8 of one character of a string whose characters are below 256. *)
Definition utf8 (c : ascii) : list Z :=
  let n := Z.of_N (N_of_ascii c) in
  if n <? 128 then [n] else [192 + n / 64; 128 + n mod 64].

(** [buf.write(string, offset)]: the UTF-8 bytes of the string, from
    [offset] on, as many whole characters as fit. *)
Fixpoint write (buf : Buffer) (s : string) (offset : nat) : Buffer :=
  match s with
  | EmptyString => buf
  | String c s' =>
      let bs := utf8 c in
      if (offset + length bs <=? length buf)%nat
      then write (take offset buf ++ bs ++ drop (offset + length bs)%nat buf)
                 s' (offset + length bs)%nat
      else buf
  end.

(** The value of a hexadecimal digit, in either case. *)
Definition unhex (c : ascii) : option Z :=
  let n := Z.of_N (N_of_ascii c) in
  if (48 <=? n) && (n <=? 57) then Some (n - 48)
  else if (65 <=? n) && (n <=? 70) then Some (n - 55)
  else if (97 <=? n) && (n <=? 102) then Some (n - 87)
  else None.

(** [buf.write(string, offset, 1, 'hex')] with a string of two
    characters: one byte is stored when both are hexadecimal digits and
    the offset is inside the buffer, and nothing is stored otherwise. *)
Definition writeHex1 (buf : Buffer) (s : string) (offset : nat) : Buffer :=
  match s with
  | String a (String b EmptyString) =>
      match unhex a, unhex b with
      | Some x, Some y => <[offset := x * 16 + y]> buf
      | _, _ => buf
      end
  | _ => buf
  end.

End Buffer.

(** ** A state and exception monad

    A computation runs on a mutable state [S]; when it throws, the state
    reached so far stays. *)

Definition M (S A : Type) : Type := S -> res A * S.

#[global] Instance M_ret {S} : MRet (M S) := fun _ a s => (Ok a, s).
#[global] Instance M_bind {S} : MBind (M S) := fun _ _ f m s =>
  match m s with
  | (Ok a, s') => f a s'
  | (Throw e, s') => (Throw e, s')
  end.

Definition lift {S A} (r : res A) : M S A := fun s => (r, s).
Definition get {S} : M S S := fun s => (Ok s, s).
Definition modify {S} (f : S -> S) : M S unit := fun s => (Ok tt, f s).
Definition skip {S} : M S unit := mret tt.

(** [if (c) stmt] *)
Definition when {S} (c : bool) (stmt : M S unit) : M S unit :=
  if c then stmt else skip.

(** ** The engine *)

Module Engine.

(** *** Checksums *)

(** One turn of the inner loop of [_CRC16]. *)
Definition crc_shift (crc : Z) : Z :=
  let tmp := Js.band crc 0x0001 in
  let crc := Js.shr crc 1 in
  if tmp =? 0 then crc else Js.bxor crc 0xA001.

(** One turn of the outer loop of [_CRC16]. *)
Definition crc_step (buf : Buffer) (crc : Z) (i : nat) : Z :=
  Nat.iter 8 crc_shift (Js.bxorv crc (buf !! i)).

Definition crc16_loop (buf : Buffer) (length : Z) : Z :=
  fold_left (crc_step buf) (seq 0 (Z.to_nat length)) 0xFFFF.

Definition _CRC16 (buf : Buffer) (length : Z) : res (Buffer * Z) :=
  let crc := crc16_loop buf length in
  buf ← Buffer.writeUInt16LE buf crc length;
  Ok (buf, crc).

Definition lrc_loop (buf : Buffer) (length : Z) : Z :=
  fold_left (fun lrc i => lrc + Js.bandv (buf !! i) 0xFF)
            (seq 0 (Z.to_nat length)) 0.

Definition _LRC (buf : Buffer) (length : Z) : res (Buffer * Z) :=
  let lrc := lrc_loop buf length in
  let lrc := Js.band (Js.bxor lrc 0xFF + 1) 0xFF in
  buf ← Buffer.writeUInt8 buf lrc length;
  Ok (buf, lrc).

(** *** Continuations and what they receive *)

(** A continuation [next] is known by a name. *)
Abbreviation callback := nat.

Inductive error : Type :=
| DataLengthError (expected got : Z)
    (* "Data length error, expected " + length + " got " + data.length *)
| UnexpectedDataError (expected : option Z) (got : Z)
    (* "Unexpected data error, expected " + _nextAddress + " got " + address *)
| CRCError   (* "CRC error" *)
| LRCError.  (* "LRC error" *)

Inductive result : Type :=
| Contents (data : list bool) (buffer : Buffer)     (* FC 1, 2 *)
| Registers (data : list Z) (buffer : Buffer)       (* FC 3, 4 *)
| CoilState (address : Z) (state : bool)            (* FC 5 *)
| RegisterValue (address value : Z)                 (* FC 6 *)
| RegistersWritten (address length : Z).            (* FC 16 *)

Inductive call : Type :=
| CallError (next : callback) (e : error)       (* next(error) *)
| CallResult (next : callback) (r : result).    (* next(null, {...}) *)

(** [if (next) next(error)] *)
Definition next_error (next : option callback) (e : error) : list call :=
  match next with
  | Some k => [CallError k e]
  | None => []
  end.

(** [if (next) next(null, r)] *)
Definition next_result (next : option callback) (r : result) : list call :=
  match next with
  | Some k => [CallResult k r]
  | None => []
  end.

(** *** Parsers of the responses *)

(** The inner loop of [_readFC2]: eight booleans of one byte. *)
Fixpoint bits_of (j : nat) (reg : Z) : list bool :=
  match j with
  | O => []
  | S j' => (Js.band reg 1 =? 1) :: bits_of j' (Js.shr reg 1)
  end.

Definition _readFC2 (data : Buffer) (next : option callback) : res (list call) :=
  length ← Buffer.readUInt8 data 2;
  let contents :=
    fold_left (fun contents i =>
                 let reg := Js.ToInt32v (data !! (i + 3)%nat) in
                 contents ++ bits_of 8 reg)
              (seq 0 (Z.to_nat length)) [] in
  Ok (next_result next (Contents contents (Buffer.slice data 3 (3 + length)))).

(** The loop of [_readFC4] visits i = 0, 2, 4, ... below [length]:
    turn [k] reads at [i = 2 * k]. *)
Definition read_register (data : Buffer) (contents : res (list Z)) (k : nat)
  : res (list Z) :=
  contents ← contents;
  reg ← Buffer.readUInt16BE data (2 * Z.of_nat k + 3);
  Ok (contents ++ [reg]).

Definition _readFC4 (data : Buffer) (next : option callback) : res (list call) :=
  length ← Buffer.readUInt8 data 2;
  contents ← fold_left (read_register data)
                       (seq 0 (Z.to_nat ((length + 1) / 2))) (Ok []);
  Ok (next_result next (Registers contents (Buffer.slice data 3 (3 + length)))).

Definition _readFC5 (data : Buffer) (next : option callback) : res (list call) :=
  dataAddress ← Buffer.readUInt16BE data 2;
  state ← Buffer.readUInt16BE data 4;
  Ok (next_result next (CoilState dataAddress (state =? 0xff00))).

Definition _readFC6 (data : Buffer) (next : option callback) : res (list call) :=
  dataAddress ← Buffer.readUInt16BE data 2;
  value ← Buffer.readUInt16BE data 4;
  Ok (next_result next (RegisterValue dataAddress value)).

Definition _readFC16 (data : Buffer) (next : option callback) : res (list call) :=
  dataAddress ← Buffer.readUInt16BE data 2;
  length ← Buffer.readUInt16BE data 4;
  Ok (next_result next (RegistersWritten dataAddress length)).

(** *** The engine's state

    The fields the constructor sets, and [_ascii], which the constructor
    does not set: it reads as [undefined] ([None]) until something
    assigns it.  The port is outside: what the engine hands to
    [_port.write] is the result of a [writeFC*]. *)
Record ModbusRTU : Type := {
  _nextAddress : option Z;      (* null, or the unit address awaited *)
  _nextCode : option Z;         (* null, or the function code awaited *)
  _nextLength : Z;              (* number of bytes in the answer *)
  _next : option callback;      (* null, or the continuation *)
  _unitID : Z;
  _ascii : option bool
}.

Definition new_ModbusRTU : ModbusRTU :=
  {| _nextAddress := None; _nextCode := None; _nextLength := 0;
     _next := None; _unitID := 1; _ascii := None |}.

Definition set_nextAddress (v : option Z) (m : ModbusRTU) : ModbusRTU :=
  {| _nextAddress := v; _nextCode := _nextCode m; _nextLength := _nextLength m;
     _next := _next m; _unitID := _unitID m; _ascii := _ascii m |}.
Definition set_nextCode (v : option Z) (m : ModbusRTU) : ModbusRTU :=
  {| _nextAddress := _nextAddress m; _nextCode := v; _nextLength := _nextLength m;
     _next := _next m; _unitID := _unitID m; _ascii := _ascii m |}.
Definition set_nextLength (v : Z) (m : ModbusRTU) : ModbusRTU :=
  {| _nextAddress := _nextAddress m; _nextCode := _nextCode m; _nextLength := v;
     _next := _next m; _unitID := _unitID m; _ascii := _ascii m |}.
Definition set_next (v : option callback) (m : ModbusRTU) : ModbusRTU :=
  {| _nextAddress := _nextAddress m; _nextCode := _nextCode m;
     _nextLength := _nextLength m;
     _next := v; _unitID := _unitID m; _ascii := _ascii m |}.

(** [this._ascii === b] *)
Definition ascii_is (b : bool) (m : ModbusRTU) : bool :=
  match _ascii m with
  | Some b' => eqb b b'
  | None => false
  end.

(** [x != y] of a number and a field that holds null or a number. *)
Definition differs (x : Z) (y : option Z) : bool :=
  match y with
  | Some y' => negb (x =? y')
  | None => true
  end.

(** *** The handler of the port's 'data' event

    It runs on the engine, the buffer [data] it was handed (the checksum
    functions write into it) and the calls made so far. *)
Record World : Type := {
  modbus : ModbusRTU;
  data : Buffer;
  calls : list call
}.

Definition on_modbus (f : ModbusRTU -> ModbusRTU) : M World unit :=
  modify (fun w => {| modbus := f (modbus w); data := data w; calls := calls w |}).
Definition set_data (d : Buffer) : M World unit :=
  modify (fun w => {| modbus := modbus w; data := d; calls := calls w |}).
Definition emit (cs : list call) : M World unit :=
  modify (fun w => {| modbus := modbus w; data := data w; calls := calls w ++ cs |}).

(** The branch [modbus._ascii === false] of the handler: check the CRC.
    It answers whether the handler goes on to parse. *)
Definition check_crc (length : Z) (next : option callback) : M World bool :=
  w ← get;
  crcIn ← lift (Buffer.readUInt16LE (data w) (length - 2));
  '(d, crc) ← lift (_CRC16 (data w) (length - 2));
  _ ← set_data d;
  if negb (crcIn =? crc) then
    _ ← emit (next_error next CRCError); mret false
  else mret true.

(** The other branch: check the LRC. *)
Definition check_lrc (next : option callback) : M World bool :=
  w ← get;
  lrcIn ← lift (Buffer.readUInt8 (data w) (Buffer.len (data w) - 1));
  '(d, lrc) ← lift (_LRC (data w) (Buffer.len (data w) - 1));
  _ ← set_data d;
  if negb (lrcIn =? lrc) then
    _ ← emit (next_error next LRCError); mret false
  else mret true.

(** [if (modbus._ascii === false) { check the CRC } else { check the LRC }] *)
Definition check_checksum (length : Z) (next : option callback) : M World bool :=
  w ← get;
  if ascii_is false (modbus w)
  then check_crc length next
  else check_lrc next.

(** [_readFC*(data, next)] on the current buffer. *)
Definition parse (f : Buffer -> option callback -> res (list call))
  (next : option callback) : M World unit :=
  w ← get;
  cs ← lift (f (data w) next);
  emit cs.

Definition on_data : M World unit :=
  w ← get;
  let length := _nextLength (modbus w) in
  let next := _next (modbus w) in
  if negb (Buffer.len (data w) =? length) then
    emit (next_error next (DataLengthError length (Buffer.len (data w))))
  else
    address ← lift (Buffer.readUInt8 (data w) 0);
    code ← lift (Buffer.readUInt8 (data w) 1);
    if differs address (_nextAddress (modbus w))
       || differs code (_nextCode (modbus w)) then
      emit (next_error next
              (UnexpectedDataError (_nextAddress (modbus w)) address))
    else
      (* data is OK - clear state variables *)
      _ ← on_modbus (set_nextAddress None);
      _ ← on_modbus (set_nextCode None);
      _ ← on_modbus (set_next None);
      ok ← check_checksum length next;
      if negb ok then skip
      else
        _ ← when ((code =? 2) || (code =? 1)) (parse _readFC2 next);
        _ ← when ((code =? 4) || (code =? 3)) (parse _readFC4 next);
        _ ← when (code =? 5) (parse _readFC5 next);
        _ ← when (code =? 6) (parse _readFC6 next);
        when (code =? 16) (parse _readFC16 next).

(** The handler run on an engine and a chunk. *)
Definition handle (m : ModbusRTU) (chunk : Buffer) : res unit * World :=
  on_data {| modbus := m; data := chunk; calls := [] |}.

(** *** The requests

    A [writeFC*] runs on the engine and ends with the buffer it hands to
    [this._port.write].  In the source each [if (this._ascii === false)
    { ... } else {}] has an empty else-block, so the statement after it
    runs whatever the test said (the closing brace after that statement
    closes nothing). *)
Section Requests.

(** What the memory of a new buffer holds. *)
Variable mem : nat -> Z.

(** The statement every [writeFC*] ends with:
    [if (this._ascii === true) _CRC16(buf, codeLength)
     else _LRC(buf, codeLength)]. *)
Definition add_checksum (this : ModbusRTU) (buf : Buffer) (codeLength : Z)
  : res Buffer :=
  '(buf, _) ← (if ascii_is true this
               then _CRC16 buf codeLength
               else _LRC buf codeLength);
  Ok buf.

(** [var buf] of every [writeFC*]. *)
Definition new_request_buffer (this : ModbusRTU) (codeLength : Z) : Buffer :=
  let buf := if ascii_is false this
             then Buffer.alloc mem (codeLength + 2)  (* add 2 crc bytes *)
             else [] in
  let buf := Buffer.alloc mem (codeLength + 1) in    (* add 1 lrc bytes *)
  buf.

Definition writeFC2 (address dataAddress length : Z) (next : option callback)
  (code : option Z) : M ModbusRTU Buffer :=
  (* function code defaults to 2 *)
  let code := if Js.falsy code then 2 else default 0 code in
  _ ← modify (set_nextAddress (Some address));
  _ ← modify (set_nextCode (Some code));
  this ← get;
  _ ← when (ascii_is false this)
        (modify (set_nextLength
           (3 + Js.parseInt (inject_Z (length - 1) / 8 + 1)%Q + 2)));
  _ ← modify (set_nextLength
           (3 + Js.parseInt (inject_Z (length - 1) / 8 + 1)%Q + 1));
  _ ← modify (set_next next);
  let codeLength := 6 in
  let buf := new_request_buffer this codeLength in
  buf ← lift (Buffer.writeUInt8 buf address 0);
  buf ← lift (Buffer.writeUInt8 buf code 1);
  buf ← lift (Buffer.writeUInt16BE buf dataAddress 2);
  buf ← lift (Buffer.writeUInt16BE buf length 4);
  buf ← lift (add_checksum this buf codeLength);
  mret buf.

Definition writeFC1 (address dataAddress length : Z) (next : option callback)
  : M ModbusRTU Buffer :=
  writeFC2 address dataAddress length next (Some 1).

Definition writeFC4 (address dataAddress length : Z) (next : option callback)
  (code : option Z) : M ModbusRTU Buffer :=
  (* function code defaults to 4 *)
  let code := if Js.falsy code then 4 else default 0 code in
  _ ← modify (set_nextAddress (Some address));
  _ ← modify (set_nextCode (Some code));
  this ← get;
  _ ← when (ascii_is false this) (modify (set_nextLength (3 + 2 * length + 2)));
  _ ← modify (set_nextLength (3 + 2 * length + 1));
  _ ← modify (set_next next);
  let codeLength := 6 in
  let buf := new_request_buffer this codeLength in
  buf ← lift (Buffer.writeUInt8 buf address 0);
  buf ← lift (Buffer.writeUInt8 buf code 1);
  buf ← lift (Buffer.writeUInt16BE buf dataAddress 2);
  buf ← lift (Buffer.writeUInt16BE buf length 4);
  buf ← lift (add_checksum this buf codeLength);
  mret buf.

Definition writeFC3 (address dataAddress length : Z) (next : option callback)
  : M ModbusRTU Buffer :=
  writeFC4 address dataAddress length next (Some 3).

Definition writeFC5 (address dataAddress : Z) (state : bool)
  (next : option callback) : M ModbusRTU Buffer :=
  let code := 5 in
  _ ← modify (set_nextAddress (Some address));
  _ ← modify (set_nextCode (Some code));
  _ ← modify (set_nextLength 8);
  this ← get;
  _ ← when (ascii_is false this) (modify (set_nextLength 8));
  _ ← modify (set_nextLength 7);
  _ ← modify (set_next next);
  let codeLength := 6 in
  let buf := new_request_buffer this codeLength in
  buf ← lift (Buffer.writeUInt8 buf address 0);
  buf ← lift (Buffer.writeUInt8 buf code 1);
  buf ← lift (Buffer.writeUInt16BE buf dataAddress 2);
  buf ← lift (if state
              then Buffer.writeUInt16BE buf 0xff00 4
              else Buffer.writeUInt16BE buf 0x0000 4);
  buf ← lift (add_checksum this buf codeLength);
  mret buf.

Definition writeFC6 (address dataAddress value : Z) (next : option callback)
  : M ModbusRTU Buffer :=
  let code := 6 in
  _ ← modify (set_nextAddress (Some address));
  _ ← modify (set_nextCode (Some code));
  this ← get;
  _ ← when (ascii_is false this) (modify (set_nextLength 8));
  _ ← modify (set_nextLength 7);
  _ ← modify (set_next next);
  let codeLength := 6 in
  let buf := new_request_buffer this codeLength in
  buf ← lift (Buffer.writeUInt8 buf address 0);
  buf ← lift (Buffer.writeUInt8 buf code 1);
  buf ← lift (Buffer.writeUInt16BE buf dataAddress 2);
  buf ← lift (Buffer.writeUInt16BE buf value 4);
  buf ← lift (add_checksum this buf codeLength);
  mret buf.

(** One turn of the loop of [writeFC16]. *)
Definition write_register (array : list Z) (buf : res Buffer) (i : nat)
  : res Buffer :=
  buf ← buf;
  Buffer.writeUInt16BE buf (default 0 (array !! i)) (7 + 2 * Z.of_nat i).

Definition writeFC16 (address dataAddress : Z) (array : list Z)
  (next : option callback) : M ModbusRTU Buffer :=
  let code := 16 in
  _ ← modify (set_nextAddress (Some address));
  _ ← modify (set_nextCode (Some code));
  this ← get;
  _ ← when (ascii_is false this) (modify (set_nextLength 8));
  _ ← modify (set_nextLength 7);
  _ ← modify (set_next next);
  let codeLength := 7 + 2 * Buffer.len array in
  let buf := new_request_buffer this codeLength in
  buf ← lift (Buffer.writeUInt8 buf address 0);
  buf ← lift (Buffer.writeUInt8 buf code 1);
  buf ← lift (Buffer.writeUInt16BE buf dataAddress 2);
  buf ← lift (Buffer.writeUInt16BE buf (Buffer.len array) 4);
  buf ← lift (Buffer.writeUInt8 buf (Buffer.len array * 2) 6);
  buf ← lift (fold_left (write_register array) (seq 0 (length array)) (Ok buf));
  buf ← lift (add_checksum this buf codeLength);
  mret buf.

(** *** What can happen to an engine *)
Inductive req : Type :=
| WriteFC1 (address dataAddress length : Z) (next : option callback)
| WriteFC2 (address dataAddress length : Z) (next : option callback)
           (code : option Z)
| WriteFC3 (address dataAddress length : Z) (next : option callback)
| WriteFC4 (address dataAddress length : Z) (next : option callback)
           (code : option Z)
| WriteFC5 (address dataAddress : Z) (state : bool) (next : option callback)
| WriteFC6 (address dataAddress value : Z) (next : option callback)
| WriteFC16 (address dataAddress : Z) (array : list Z) (next : option callback).


(** A request: the buffer written to the port, or the exception, and
    the engine afterwards. *)
Definition request (r : req) : M ModbusRTU Buffer :=
  match r with
  | WriteFC1 a d l n => writeFC1 a d l n
  | WriteFC2 a d l n c => writeFC2 a d l n c
  | WriteFC3 a d l n => writeFC3 a d l n
  | WriteFC4 a d l n c => writeFC4 a d l n c
  | WriteFC5 a d s n => writeFC5 a d s n
  | WriteFC6 a d v n => writeFC6 a d v n
  | WriteFC16 a d arr n => writeFC16 a d arr n
  end.



End Requests.

End Engine.

(** ** The buffered ASCII port *)

Module AsciiPort.

Definition calculateLrc (buf : Buffer) : Z :=
  let length := Buffer.len buf - 1 in
  let lrc := fold_left (fun lrc i => lrc + Js.bandv (buf !! i) 0xFF)
                       (seq 0 (Z.to_nat length)) 0 in
  Js.band (Js.bxor lrc 0xFF + 1) 0xFF.

Definition colon : string := ":".
Definition cr : string := String "013" EmptyString.
Definition lf : string := String "010" EmptyString.

Section Transcoder.

(** What the memory of a new buffer holds. *)
Variable mem : nat -> Z.

Definition asciiEncodeRequestBuffer (buf : Buffer) : Buffer :=
  let bufAscii := Buffer.alloc mem (Buffer.len buf * 2 + 3) in
  let bufAscii := Buffer.write bufAscii colon 0 in
  let bufAscii := Buffer.write bufAscii (Js.toUpperCase (Buffer.toHex buf)) 1 in
  let bufAscii := Buffer.write bufAscii cr (length bufAscii - 2) in
  let bufAscii := Buffer.write bufAscii lf (length bufAscii - 1) in
  bufAscii.

(** One turn of the loop of [asciiDecodeResponseBuffer]. *)
Definition decode_pair (bufAscii : Buffer) (bufDecoded : res Buffer) (i : nat)
  : res Buffer :=
  bufDecoded ← bufDecoded;
  a ← Buffer.readUInt8 bufAscii (Z.of_nat i * 2 + 1);
  b ← Buffer.readUInt8 bufAscii (Z.of_nat i * 2 + 2);
  Ok (Buffer.writeHex1 bufDecoded (Js.fromCharCode2 a b) i).

(** [(bufAscii.length-3)/2] need not be an integer: the new buffer has
    its integer part for a size, and the loop runs for every [i]
    below it. *)
Definition asciiDecodeResponseBuffer (bufAscii : Buffer) : res Buffer :=
  let n := (inject_Z (Buffer.len bufAscii - 3) / 2)%Q in
  let bufDecoded := Buffer.alloc mem (Qfloor n) in
  fold_left (decode_pair bufAscii) (seq 0 (Z.to_nat (Qceiling n)))
            (Ok bufDecoded).

End Transcoder.

Record AsciiBufferedPort : Type := {
  _buffer : Buffer;
  _id : Z;
  _cmd : Z;
  _length : Z
}.

Definition new_AsciiBufferedPort : AsciiBufferedPort :=
  {| _buffer := []; _id := 0; _cmd := 0; _length := 0 |}.

Definition set_buffer (v : Buffer) (p : AsciiBufferedPort) : AsciiBufferedPort :=
  {| _buffer := v; _id := _id p; _cmd := _cmd p; _length := _length p |}.
Definition set_id (v : Z) (p : AsciiBufferedPort) : AsciiBufferedPort :=
  {| _buffer := _buffer p; _id := v; _cmd := _cmd p; _length := _length p |}.
Definition set_cmd (v : Z) (p : AsciiBufferedPort) : AsciiBufferedPort :=
  {| _buffer := _buffer p; _id := _id p; _cmd := v; _length := _length p |}.
Definition set_length (v : Z) (p : AsciiBufferedPort) : AsciiBufferedPort :=
  {| _buffer := _buffer p; _id := _id p; _cmd := _cmd p; _length := v |}.

(** [x == y] of a value read by index and a number. *)
Definition same (x : option Z) (y : Z) : bool :=
  match x with
  | Some x' => x' =? y
  | None => false
  end.

Definition checkData (modbus : AsciiBufferedPort) (buf : Buffer) : res bool :=
  lrcIn ← Buffer.readUInt8 buf (Buffer.len buf - 1);
  Ok (same (buf !! 0%nat) (_id modbus)
      && same (buf !! 1%nat) (_cmd modbus)
      && (lrcIn =? calculateLrc buf)).

(** The port and the frames it has emitted as 'data' events. *)
Record World : Type := {
  port : AsciiBufferedPort;
  emitted : list Buffer
}.

Definition on_port (f : AsciiBufferedPort -> AsciiBufferedPort) : M World unit :=
  modify (fun w => {| port := f (port w); emitted := emitted w |}).
Definition emit (d : Buffer) : M World unit :=
  modify (fun w => {| port := port w; emitted := emitted w ++ [d] |}).

Section Reassembler.

Variable mem : nat -> Z.

(** The body of the loop at [i]: it answers the [i] it leaves. *)
Definition check_chunk (length i : Z) : M World Z :=
  w ← get;
  (* cut a length of bytes from buffer *)
  let _data := Buffer.slice (_buffer (port w)) i (i + length) in
  if Buffer.len _data =? _length (port w) then
    _decodedData ← lift (asciiDecodeResponseBuffer mem _data);
    ok ← lift (checkData (port w) _decodedData);
    if (ok : bool) then
      (* adjust i to end of data chunk *)
      let i := i + length in
      _ ← emit _decodedData;
      mret i
    else mret i
  else mret i.

(** [for (var i = 0; i < (bufferLength - length + 1); i++) { ... }]
    from [i] on; [None] when the turns allowed are used up before the
    loop ends. *)
Fixpoint scan (turns : nat) (bufferLength length i : Z) (w : World)
  : option (res Z * World) :=
  if i <? bufferLength - length + 1 then
    match turns with
    | O => None
    | S turns' =>
        match check_chunk length i w with
        | (Ok i', w') => scan turns' bufferLength length (i' + 1) w'
        | (Throw e, w') => Some (Throw e, w')
        end
    end
  else Some (Ok i, w).

(** The handler of the serial port's 'data' event. *)
Definition on_data (data : Buffer) (w : World) : option (res unit * World) :=
  (* add data to buffer *)
  let w := {| port := set_buffer (Buffer.concat (_buffer (port w)) data) (port w);
              emitted := emitted w |} in
  let length := _length (port w) in
  let bufferLength := Buffer.len (_buffer (port w)) in
  (* check data length *)
  if (bufferLength <? 6) || (length <? 6) then Some (Ok tt, w)
  else
    match scan (Z.to_nat bufferLength) bufferLength length 0 w with
    | None => None
    | Some (Throw e, w') => Some (Throw e, w')
    | Some (Ok i, w') =>
        (* cut checked data from buffer *)
        Some (when (negb (i =? 0))
                (on_port (set_buffer (Buffer.slice_from (_buffer (port w')) i)))
                w')
    end.

(** [write]: the buffer handed to the serial port, if any. *)
Definition write (data : Buffer) : M AsciiBufferedPort (option Buffer) :=
  (* check data length *)
  if Buffer.len data <? 5 then mret None
  else
    (* remember current unit and command *)
    _ ← modify (set_id (default 0 (data !! 0%nat)));
    _ ← modify (set_cmd (default 0 (data !! 1%nat)));
    this ← get;
    (* calculate expected answer length (based on ascii encoding) *)
    _ ← (if (_cmd this =? 1) || (_cmd this =? 2) then
           length ← lift (Buffer.readUInt16BE data 4);
           modify (set_length
             ((3 + Js.parseInt (inject_Z (length - 1) / 8 + 1)%Q + 2) * 2 + 1))
         else if (_cmd this =? 3) || (_cmd this =? 4) then
           length ← lift (Buffer.readUInt16BE data 4);
           modify (set_length ((3 + 2 * length + 2) * 2 + 1))
         else if (_cmd this =? 5) || (_cmd this =? 6) || (_cmd this =? 16) then
           modify (set_length ((6 + 2) * 2 + 1))
         else
           modify (set_length 0));
    (* ascii encode buffer *)
    let _encodedData := asciiEncodeRequestBuffer mem data in
    mret (Some _encodedData).

End Reassembler.

End AsciiPort.

(** * Specification

    What the specification states, in its own words, the inputs of the
    scenarios, and the notions the properties are stated with. *)

(** The sum of a run of bytes. *)
Definition sum_bytes (bytes : list Z) : Z := foldr Z.add 0 bytes.

(** The LRC in the words of the specification: sum the bytes of
    [bytes[0..length)] modulo 256, XOR with 0xFF, add 1, mask to 8 bits. *)
Definition spec_lrc (bytes : Buffer) (length : Z) : Z :=
  Z.land (Z.lxor (sum_bytes (take (Z.to_nat length) bytes) mod 256) 0xFF + 1) 0xFF.

(** A frame with its CRC16, as the handler holds it. *)
Definition crc_frame_world : Engine.World :=
  {| Engine.modbus := Engine.new_ModbusRTU;
     Engine.data := [1; 3; 0; 0; 0; 2; 196; 11];
     Engine.calls := [] |}.

(** The engine after [writeFC3(1, 0, 2, next)] on a new instance. *)
Definition awaiting_registers : Engine.ModbusRTU :=
  snd (Engine.writeFC3 (fun _ => 0) 1 0 2 (Some 0%nat) Engine.new_ModbusRTU).

(** [preserves p c]: whatever [c] does, and also when it throws, the part
    [p] of the state is afterwards what it was. *)
Definition preserves {S T A} (p : S -> T) (c : M S A) : Prop :=
  forall s, p (snd (c s)) = p s.

(** The engine with its transaction fields cleared. *)
Definition cleared (m : Engine.ModbusRTU) : Engine.ModbusRTU :=
  Engine.set_next None (Engine.set_nextCode None (Engine.set_nextAddress None m)).

(** The statements of the handler that follow "data is OK - clear state
    variables": what it does with a chunk that passed the two checks. *)
Definition validate_and_parse (code length : Z) (next : option Engine.callback)
  : M Engine.World unit :=
  ok ← Engine.check_checksum length next;
  if negb ok then skip
  else
    _ ← when ((code =? 2) || (code =? 1)) (Engine.parse Engine._readFC2 next);
    _ ← when ((code =? 4) || (code =? 3)) (Engine.parse Engine._readFC4 next);
    _ ← when (code =? 5) (Engine.parse Engine._readFC5 next);
    _ ← when (code =? 6) (Engine.parse Engine._readFC6 next);
    when (code =? 16) (Engine.parse Engine._readFC16 next).

(** The byte that [_readFC2] unpacks at turn [i], and its bits. *)
Definition payload_byte (data : Buffer) (i : nat) : Z :=
  default 0 (data !! (i + 3)%nat).

(** The contents after [n] turns of the outer loop. *)
Definition contents_after (data : Buffer) (n : nat) : list bool :=
  fold_left (fun contents i =>
               let reg := Js.ToInt32v (data !! (i + 3)%nat) in
               contents ++ Engine.bits_of 8 reg)
            (seq 0 n) [].

(** The engine after [writeFC1(1, 0, 1, next)] on a new instance: one coil
    is requested. *)
Definition awaiting_one_coil : Engine.ModbusRTU :=
  snd (Engine.writeFC1 (fun _ => 0) 1 0 1 (Some 0%nat) Engine.new_ModbusRTU).

(** The expected response lengths of FC 1 and 2 as the specification
    writes them. *)
Definition spec_binary_length (bitCount : Z) : Z :=
  3 + Qceiling (inject_Z bitCount / 8) + 2.
Definition spec_ascii_length (bitCount : Z) : Z :=
  2 * (3 + Qceiling (inject_Z (bitCount - 1) / 8 + 1)) + 3.

(** The six bytes every request starts with. *)
Definition core6 (address code param1 param2 : Z) : Buffer :=
  [address; code; param1 / 256; param1 mod 256; param2 / 256; param2 mod 256].

(** The function code that [writeFC2] uses. *)
Definition code_or (dflt : Z) (code : option Z) : Z :=
  if Js.falsy code then dflt else default 0 code.

(** An engine in binary mode: [_ascii] has been set to false. *)
Definition binary_engine : Engine.ModbusRTU :=
  {| Engine._nextAddress := None; Engine._nextCode := None;
     Engine._nextLength := 0; Engine._next := None; Engine._unitID := 1;
     Engine._ascii := Some false |}.

(** The bytes of a string of characters below 128. *)
Fixpoint string_bytes (s : string) : list Z :=
  match s with
  | EmptyString => []
  | String c s' => Z.of_N (N_of_ascii c) :: string_bytes s'
  end.

(** The wire form in the words of the specification:
    [':' + hex(rawFrame, uppercase) + "\r\n"]. *)
Definition hex_digit_upper (n : Z) : ascii :=
  default "0"%char (String.get (Z.to_nat n) "0123456789ABCDEF").

Fixpoint hex_upper (frame : Buffer) : string :=
  match frame with
  | [] => EmptyString
  | b :: frame' =>
      String (hex_digit_upper (b / 16))
        (String (hex_digit_upper (b mod 16)) (hex_upper frame'))
  end.

Definition spec_encodeAscii (rawFrame : Buffer) : Buffer :=
  string_bytes (":" ++ hex_upper rawFrame ++ String "013" (String "010" EmptyString)).

(** The codes of the two digits of a byte. *)
Definition hi_code (b : Z) : Z := Z.of_N (N_of_ascii (hex_digit_upper (b / 16))).
Definition lo_code (b : Z) : Z := Z.of_N (N_of_ascii (hex_digit_upper (b mod 16))).

(** The wire form of a frame, byte by byte. *)
Definition wire_of (frame : Buffer) : Buffer :=
  [58] ++ string_bytes (hex_upper frame) ++ [13; 10].

(** An engine in ASCII mode: [_ascii] has been set to true. *)
Definition ascii_engine : Engine.ModbusRTU :=
  {| Engine._nextAddress := None; Engine._nextCode := None;
     Engine._nextLength := 0; Engine._next := None; Engine._unitID := 1;
     Engine._ascii := Some true |}.

(** The register that turn [k] of the loop of [_readFC4] reads. *)
Definition register_at (data : Buffer) (k : nat) : Z :=
  default 0 (data !! (2 * k + 3)%nat) * 256 + default 0 (data !! (2 * k + 4)%nat).

(** The engine after [writeFC3(1, 0, 2, next)] in binary mode. *)
Definition binary_awaiting_registers : Engine.ModbusRTU :=
  snd (Engine.writeFC3 (fun _ => 0) 1 0 2 (Some 0%nat) binary_engine).

(** The response 01 05 00 01 FF 00 FA and its form on the wire,
    ":01050001FF00FA" CR LF. *)
Definition coil_echo : Buffer := [1; 5; 0; 1; 255; 0; 250].
Definition coil_echo_wire : Buffer :=
  [58; 48; 49; 48; 53; 48; 48; 48; 49; 70; 70; 48; 48; 70; 65; 13; 10].

(** The port after the request 01 05 00 01 FF 00 FA was written to it:
    it awaits 17 bytes from unit 1 for function 5. *)
Definition port_awaiting_echo : AsciiPort.AsciiBufferedPort :=
  snd (AsciiPort.write (fun _ => 0) coil_echo AsciiPort.new_AsciiBufferedPort).

(** ** Bit operations added to Buffer *)

Module BufferBit.

(** The integer part of a number, toward zero. *)
Definition truncate (x : Q) : Z := if Qle_bool 0 x then Qfloor x else Qceiling x.

(** [x >>> 0]: what [readUInt8] and [writeUInt8] make of their offset,
    which here need not be an integer. *)
Definition ToUint32 (x : Q) : Z := truncate x mod 2 ^ 32.

(** [a << n], [a | b] and [~a] *)
Definition shl (a n : Z) : Z := Js.ToInt32 (Z.shiftl (Js.ToInt32 a) (n mod 32)).
Definition bor (a b : Z) : Z := Z.lor (Js.ToInt32 a) (Js.ToInt32 b).
Definition bnot (a : Z) : Z := Z.lnot (Js.ToInt32 a).

Definition writeBit (this : Buffer) (value : bool) (bit offset : Z) : res Buffer :=
  let byteOffset := (inject_Z bit / 8 + inject_Z offset)%Q in
  let bitOffset := Z.rem bit 8 in
  let bitMask := shl 0x1 bitOffset in
  (* get byte from buffer *)
  byte ← Buffer.readUInt8 this (ToUint32 byteOffset);
  (* set bit on / off *)
  let byte := if value then bor byte bitMask
              else Js.band byte (bnot bitMask) in
  (* set byte to buffer *)
  Buffer.writeUInt8 this byte (ToUint32 byteOffset).

Definition readBit (this : Buffer) (bit offset : Z) : res bool :=
  let byteOffset := (inject_Z bit / 8 + inject_Z offset)%Q in
  let bitOffset := Z.rem bit 8 in
  let bitMask := shl 0x1 bitOffset in
  (* get byte from buffer *)
  byte ← Buffer.readUInt8 this (ToUint32 byteOffset);
  (* check bit state *)
  Ok (Js.band byte bitMask =? bitMask).

End BufferBit.

(** The byte and the bit in it that a bit index addresses, from 0 on. *)
Definition byte_position (bit offset : Z) : Z := bit / 8 + offset.

(** A frame with the LRC of its body for a last byte. *)
Definition sealed (body : Buffer) : Buffer :=
  body ++ [spec_lrc body (Buffer.len body)].

(** The statements of the handler that follow a checksum that passed:
    the parser of the function code, if it has one. *)
Definition parse_by_code (code : Z) (next : option Engine.callback)
  : M Engine.World unit :=
  _ ← when ((code =? 2) || (code =? 1)) (Engine.parse Engine._readFC2 next);
  _ ← when ((code =? 4) || (code =? 3)) (Engine.parse Engine._readFC4 next);
  _ ← when (code =? 5) (Engine.parse Engine._readFC5 next);
  _ ← when (code =? 6) (Engine.parse Engine._readFC6 next);
  when (code =? 16) (Engine.parse Engine._readFC16 next).

(** The function codes that the handler parses. *)
Definition parsed_code (code : Z) : bool :=
  (code =? 1) || (code =? 2) || (code =? 3) || (code =? 4)
  || (code =? 5) || (code =? 6) || (code =? 16).

(** Registers as a response carries them: two bytes each, high byte
    first. *)
Definition register_bytes (regs : list Z) : Buffer :=
  flat_map (fun r => [r / 256; r mod 256]) regs.

(** An engine that awaits [length] bytes from [address] for [code], to
    hand to [next]. *)
Definition awaits (m : Engine.ModbusRTU) (address code length : Z)
  (next : option Engine.callback) : Prop :=
  Engine._nextAddress m = Some address /\ Engine._nextCode m = Some code
  /\ Engine._nextLength m = length /\ Engine._next m = next.

(** The calls that one 'data' event may make: none, or one call of the
    continuation [next]. *)
Definition answers_to (next : option Engine.callback) (cs : list Engine.call)
  : Prop :=
  cs = []
  \/ exists k, next = Some k
       /\ ((exists e, cs = [Engine.CallError k e])
           \/ (exists r, cs = [Engine.CallResult k r])).

(** The port handed the chunks of the serial driver, one 'data' event
    after the other. *)
Fixpoint feed (mem : nat -> Z) (chunks : list Buffer) (w : AsciiPort.World)
  : option (res unit * AsciiPort.World) :=
  match chunks with
  | [] => Some (Ok tt, w)
  | chunk :: chunks' =>
      match AsciiPort.on_data mem chunk w with
      | Some (Ok _, w') => feed mem chunks' w'
      | r => r
      end
  end.

(** A port that awaits [frame]: the unit, the command and the length on
    the wire that [write] has recorded are those of [frame]. *)
Definition port_expects (p : AsciiPort.AsciiBufferedPort) (frame : Buffer)
  : Prop :=
  frame !! 0%nat = Some (AsciiPort._id p)
  /\ frame !! 1%nat = Some (AsciiPort._cmd p)
  /\ AsciiPort._length p = 2 * Buffer.len frame + 3.

(** * Properties *)

(** ** Facts on the runtime's arithmetic *)

Lemma ToInt32_small x : - 2 ^ 31 <= x < 2 ^ 31 -> Js.ToInt32 x = x.
Proof. intros H. unfold Js.ToInt32. rewrite Z.mod_small; lia. Qed.

Lemma ToInt32_mod256 x : Js.ToInt32 x mod 256 = x mod 256.
Proof.
  unfold Js.ToInt32.
  rewrite Zminus_mod, Z.mod_mod_divide by (exists (2 ^ 24); reflexivity).
  rewrite <- Zminus_mod. f_equal. lia.
Qed.

Lemma land_255 x : Z.land x 255 = x mod 256.
Proof. change 255 with (Z.ones 8). rewrite Z.land_ones by lia. reflexivity. Qed.

(** A property of every byte value holds when it is checked on each. *)
Lemma for_all_bytes (P : Z -> Prop) `{!forall b, Decision (P b)} :
  bool_decide (Forall P (seqZ 0 256)) = true -> forall b, 0 <= b < 256 -> P b.
Proof.
  intros Hall b Hb. apply bool_decide_eq_true_1 in Hall.
  rewrite Forall_seqZ in Hall. apply Hall. lia.
Qed.

Ltac check_all_bytes :=
  lazymatch goal with
  | |- forall b, 0 <= b < 256 -> @?P b =>
      apply (for_all_bytes P); vm_compute; reflexivity
  end.

Lemma lxor_255_byte y : 0 <= y < 256 -> Z.lxor y 255 = 255 - y.
Proof. revert y. check_all_bytes. Qed.

Lemma lxor_mod_pow2 a b n :
  0 <= n -> Z.lxor a b mod 2 ^ n = Z.lxor (a mod 2 ^ n) (b mod 2 ^ n).
Proof.
  intros Hn. apply Z.bits_inj'. intros i Hi.
  rewrite Z.lxor_spec, !Z.testbit_mod_pow2, Z.lxor_spec by lia.
  destruct (i <? n); reflexivity.
Qed.

Lemma lxor_255_mod x : Z.lxor x 255 mod 256 = 255 - x mod 256.
Proof.
  change 256 with (2 ^ 8). rewrite lxor_mod_pow2 by lia.
  change (255 mod 2 ^ 8) with 255. apply lxor_255_byte, Z.mod_pos_bound. lia.
Qed.

(** The last statement of both LRC functions, on any sum. *)
Lemma lrc_fold_value s :
  Js.band (Js.bxor s 0xFF + 1) 0xFF = (256 - s mod 256) mod 256.
Proof.
  unfold Js.band, Js.bxor.
  rewrite (ToInt32_small 255) by lia. rewrite land_255, ToInt32_mod256.
  rewrite Zplus_mod, lxor_255_mod, ToInt32_mod256.
  change (1 mod 256) with 1. f_equal. lia.
Qed.

Lemma bandv_255 (v : option Z) : Js.bandv v 0xFF = default 0 v mod 256.
Proof.
  unfold Js.bandv. rewrite (ToInt32_small 255), land_255 by lia.
  destruct v; simpl; [apply ToInt32_mod256 | reflexivity].
Qed.

(** ** The monads, step by step *)

Lemma res_bind_ok {A B} (f : A -> res B) (m : res A) (b : B) :
  m ≫= f = Ok b -> exists a, m = Ok a /\ f a = Ok b.
Proof. destruct m as [a|e]; [eauto | discriminate]. Qed.

Ltac res_inv H :=
  let a := fresh "a" in
  let Ha := fresh "H" a in
  apply res_bind_ok in H; destruct H as (a & Ha & H).

(** ** Facts on buffers *)

Lemma len_nonneg (buf : Buffer) : 0 <= Buffer.len buf.
Proof. unfold Buffer.len. lia. Qed.

Lemma get_lookup (buf : Buffer) (i : Z) :
  0 <= i -> Buffer.index buf i = buf !! Z.to_nat i.
Proof. intros Hi. unfold Buffer.index. destruct (Z.ltb_spec i 0); [lia | reflexivity]. Qed.

Lemma checkInt_ok buf value offset ext max min :
  Buffer.checkInt buf value offset ext max min = Ok tt <->
  min <= value <= max /\ 0 <= offset /\ offset + ext <= Buffer.len buf.
Proof.
  unfold Buffer.checkInt.
  destruct (Z.gtb_spec value max), (Z.ltb_spec value min),
    (Z.ltb_spec offset 0), (Z.gtb_spec (offset + ext) (Buffer.len buf));
    simpl; split; (discriminate || lia || reflexivity).
Qed.

Lemma checkInt_cases buf value offset ext max min :
  Buffer.checkInt buf value offset ext max min = Ok tt \/
  exists e, Buffer.checkInt buf value offset ext max min = Throw e.
Proof. unfold Buffer.checkInt. repeat case_match; eauto. Qed.

Lemma checkOffset_ok offset ext buf :
  Buffer.checkOffset offset ext buf = Ok tt <->
  0 <= offset /\ offset + ext <= Buffer.len buf.
Proof.
  unfold Buffer.checkOffset.
  destruct (Z.ltb_spec offset 0), (Z.gtb_spec (offset + ext) (Buffer.len buf));
    simpl; split; (discriminate || lia || reflexivity).
Qed.

Lemma writeUInt8_ok buf value offset buf' :
  Buffer.writeUInt8 buf value offset = Ok buf' <->
  0 <= value <= 255 /\ 0 <= offset < Buffer.len buf /\
  buf' = <[Z.to_nat offset := value]> buf.
Proof.
  unfold Buffer.writeUInt8.
  destruct (checkInt_cases buf value offset 1 255 0) as [Hc | [e Hc]];
    rewrite Hc; simpl.
  - apply checkInt_ok in Hc. split.
    + intros [= <-]. repeat split; lia.
    + intros (_ & _ & ->). reflexivity.
  - split; [discriminate |]. intros (? & ? & _).
    assert (Buffer.checkInt buf value offset 1 255 0 = Ok tt)
      by (apply checkInt_ok; lia). congruence.
Qed.

Lemma writeUInt16BE_ok buf value offset buf' :
  Buffer.writeUInt16BE buf value offset = Ok buf' <->
  0 <= value <= 65535 /\ 0 <= offset /\ offset + 2 <= Buffer.len buf /\
  buf' = <[Z.to_nat (offset + 1) := value mod 256]>
           (<[Z.to_nat offset := value / 256]> buf).
Proof.
  unfold Buffer.writeUInt16BE.
  destruct (checkInt_cases buf value offset 2 65535 0) as [Hc | [e Hc]];
    rewrite Hc; simpl.
  - apply checkInt_ok in Hc. split.
    + intros [= <-]. repeat split; lia.
    + intros (_ & _ & _ & ->). reflexivity.
  - split; [discriminate |]. intros (? & ? & ? & _).
    assert (Buffer.checkInt buf value offset 2 65535 0 = Ok tt)
      by (apply checkInt_ok; lia). congruence.
Qed.

Lemma writeUInt16LE_ok buf value offset buf' :
  Buffer.writeUInt16LE buf value offset = Ok buf' <->
  0 <= value <= 65535 /\ 0 <= offset /\ offset + 2 <= Buffer.len buf /\
  buf' = <[Z.to_nat (offset + 1) := value / 256]>
           (<[Z.to_nat offset := value mod 256]> buf).
Proof.
  unfold Buffer.writeUInt16LE.
  destruct (checkInt_cases buf value offset 2 65535 0) as [Hc | [e Hc]];
    rewrite Hc; simpl.
  - apply checkInt_ok in Hc. split.
    + intros [= <-]. repeat split; lia.
    + intros (_ & _ & _ & ->). reflexivity.
  - split; [discriminate |]. intros (? & ? & ? & _).
    assert (Buffer.checkInt buf value offset 2 65535 0 = Ok tt)
      by (apply checkInt_ok; lia). congruence.
Qed.

Lemma readUInt8_ok buf offset :
  0 <= offset < Buffer.len buf ->
  Buffer.readUInt8 buf offset = Ok (default 0 (buf !! Z.to_nat offset)).
Proof.
  intros Ho. unfold Buffer.readUInt8.
  assert (Hc : Buffer.checkOffset offset 1 buf = Ok tt) by (apply checkOffset_ok; lia).
  rewrite Hc. simpl. rewrite get_lookup by lia. reflexivity.
Qed.

Lemma readUInt8_inv buf offset v :
  Buffer.readUInt8 buf offset = Ok v ->
  0 <= offset < Buffer.len buf /\ v = default 0 (buf !! Z.to_nat offset).
Proof.
  unfold Buffer.readUInt8. intros Hr. res_inv Hr. destruct a.
  apply checkOffset_ok in Ha. injection Hr as <-.
  rewrite get_lookup by lia. split; [lia | reflexivity].
Qed.

(** ** The LRC *)

Lemma sum_bytes_app l1 l2 : sum_bytes (l1 ++ l2) = sum_bytes l1 + sum_bytes l2.
Proof. induction l1 as [|x l1 IH]; simpl; [reflexivity | rewrite IH; lia]. Qed.

Lemma spec_lrc_value bytes length :
  spec_lrc bytes length =
  (256 - sum_bytes (take (Z.to_nat length) bytes) mod 256) mod 256.
Proof.
  unfold spec_lrc. rewrite land_255, lxor_255_byte by (apply Z.mod_pos_bound; lia).
  f_equal. lia.
Qed.

(** The loop shared by [_LRC] and [calculateLrc], after [n] turns. *)
Lemma lrc_turns (buf : Buffer) (n : nat) :
  fold_left (fun lrc i => lrc + Js.bandv (buf !! i) 0xFF) (seq 0 n) 0 mod 256 =
  sum_bytes (take n buf) mod 256.
Proof.
  induction n as [|n IH]; [reflexivity |].
  rewrite seq_S, fold_left_app. simpl. rewrite bandv_255.
  rewrite Zplus_mod, IH, Zmod_mod, <- Zplus_mod.
  destruct (buf !! n) as [b|] eqn:Hb.
  - rewrite (take_S_r _ _ _ Hb), sum_bytes_app. simpl. f_equal. lia.
  - apply lookup_ge_None in Hb. rewrite !take_ge by lia. simpl. f_equal. lia.
Qed.

Lemma lrc_loop_mod buf length :
  Engine.lrc_loop buf length mod 256 =
  sum_bytes (take (Z.to_nat length) buf) mod 256.
Proof. apply lrc_turns. Qed.

(** What [_LRC] does: it throws unless the position [length] is in the
    buffer, and then stores and answers the LRC. *)
Lemma _LRC_ok buf length :
  0 <= length < Buffer.len buf ->
  Engine._LRC buf length =
  Ok (<[Z.to_nat length := spec_lrc buf length]> buf, spec_lrc buf length).
Proof.
  intros Hl. unfold Engine._LRC. rewrite lrc_fold_value, lrc_loop_mod.
  rewrite <- spec_lrc_value.
  assert (Hw : Buffer.writeUInt8 buf (spec_lrc buf length) length =
               Ok (<[Z.to_nat length := spec_lrc buf length]> buf)).
  { apply writeUInt8_ok.
    pose proof (Z.mod_pos_bound
      (256 - sum_bytes (take (Z.to_nat length) buf) mod 256) 256) as Hb.
    rewrite <- spec_lrc_value in Hb. repeat split; (lia || reflexivity). }
  rewrite Hw. reflexivity.
Qed.

Lemma _LRC_inv buf length buf' lrc :
  Engine._LRC buf length = Ok (buf', lrc) ->
  0 <= length < Buffer.len buf /\ lrc = spec_lrc buf length /\
  buf' = <[Z.to_nat length := lrc]> buf.
Proof.
  unfold Engine._LRC. intros H. res_inv H. injection H as <- <-.
  apply writeUInt8_ok in Ha as (_ & Hl & ->).
  rewrite lrc_fold_value, lrc_loop_mod, <- spec_lrc_value. auto.
Qed.

Lemma calculateLrc_frame (bytes : Buffer) (x : Z) :
  AsciiPort.calculateLrc (bytes ++ [x]) = spec_lrc bytes (Buffer.len bytes).
Proof.
  unfold AsciiPort.calculateLrc, Buffer.len.
  rewrite lrc_fold_value, length_app. simpl.
  replace (Z.to_nat (Z.of_nat (length bytes + 1) - 1)) with (length bytes) by lia.
  rewrite lrc_turns, take_app_length, spec_lrc_value, Nat2Z.id, firstn_all.
  reflexivity.
Qed.

(** C7.  For every byte sequence and length, the LRC that [_LRC] answers
    and that [calculateLrc] computes over a frame is the two's complement
    of the 8-bit sum of [bytes[0..length)] as the specification words it;
    where the position [length] is in the buffer, [_LRC] returns and stores
    that byte there, the sum of [bytes[0..length)] and the stored byte is 0
    modulo 256, and computing the LRC again over the same range gives the
    stored byte back. *)
Theorem lrc_twos_complement_roundtrip (buf : Buffer) (length : Z) :
  (forall buf' lrc, Engine._LRC buf length = Ok (buf', lrc) ->
                    lrc = spec_lrc buf length)
  /\ (forall x, AsciiPort.calculateLrc (buf ++ [x]) = spec_lrc buf (Buffer.len buf))
  /\ (0 <= length < Buffer.len buf ->
      exists buf' stored,
        Engine._LRC buf length = Ok (buf', stored)
        /\ stored = spec_lrc buf length
        /\ buf' !! Z.to_nat length = Some stored
        /\ take (Z.to_nat length) buf' = take (Z.to_nat length) buf
        /\ (sum_bytes (take (Z.to_nat length) buf') + stored) mod 256 = 0
        /\ Engine._LRC buf' length = Ok (buf', stored)
        /\ AsciiPort.calculateLrc (take (S (Z.to_nat length)) buf') = stored).
Proof.
  split; [| split].
  - intros buf' lrc H. apply _LRC_inv in H. tauto.
  - intros x. apply calculateLrc_frame.
  - intros Hl.
    set (n := Z.to_nat length). set (stored := spec_lrc buf length).
    assert (Hn : (n < Datatypes.length buf)%nat) by (unfold Buffer.len in Hl; lia).
    assert (Htake : take n (<[n := stored]> buf) = take n buf)
      by (apply take_insert_ge; lia).
    assert (Hstored : spec_lrc (<[n := stored]> buf) length = stored).
    { rewrite spec_lrc_value. fold n. rewrite Htake.
      unfold stored. rewrite spec_lrc_value. reflexivity. }
    exists (<[n := stored]> buf), stored. repeat split.
    + apply _LRC_ok, Hl.
    + apply list_lookup_insert_eq, Hn.
    + exact Htake.
    + rewrite Htake. unfold stored. rewrite spec_lrc_value. fold n.
      rewrite Zplus_mod_idemp_r.
      replace (_ + _) with
        (256 + (sum_bytes (take n buf) - sum_bytes (take n buf) mod 256)) by lia.
      rewrite (Z.div_mod (sum_bytes (take n buf)) 256) at 1 by lia.
      replace (256 + _) with ((1 + sum_bytes (take n buf) / 256) * 256) by lia.
      apply Z_mod_mult.
    + rewrite _LRC_ok by (unfold Buffer.len; rewrite length_insert; exact Hl).
      rewrite Hstored. fold n. rewrite list_insert_insert_eq. reflexivity.
    + rewrite (take_S_r _ _ stored) by (apply list_lookup_insert_eq, Hn).
      rewrite calculateLrc_frame, Htake.
      unfold stored. rewrite !spec_lrc_value.
      unfold Buffer.len. rewrite length_take, Nat2Z.id, take_take.
      replace ((n `min` Datatypes.length buf) `min` n)%nat with n by lia.
      reflexivity.
Qed.

Lemma lrc_twos_complement_roundtrip_witness :
  0 <= 6 < Buffer.len [1; 5; 0; 1; 255; 0; 0]
  /\ exists buf' stored,
      Engine._LRC [1; 5; 0; 1; 255; 0; 0] 6 = Ok (buf', stored)
      /\ stored = spec_lrc [1; 5; 0; 1; 255; 0; 0] 6
      /\ buf' !! Z.to_nat 6 = Some stored
      /\ take (Z.to_nat 6) buf' = take (Z.to_nat 6) [1; 5; 0; 1; 255; 0; 0]
      /\ (sum_bytes (take (Z.to_nat 6) buf') + stored) mod 256 = 0
      /\ Engine._LRC buf' 6 = Ok (buf', stored)
      /\ AsciiPort.calculateLrc (take (S (Z.to_nat 6)) buf') = stored.
Proof.
  assert (H : 0 <= 6 < Buffer.len [1; 5; 0; 1; 255; 0; 0])
    by (unfold Buffer.len; simpl; lia).
  split; [exact H |].
  exact (proj2 (proj2 (lrc_twos_complement_roundtrip [1; 5; 0; 1; 255; 0; 0] 6)) H).
Defined.

(** ** The CRC16 *)

Lemma lxor_bound a b n :
  0 <= n -> 0 <= a < 2 ^ n -> 0 <= b < 2 ^ n -> 0 <= Z.lxor a b < 2 ^ n.
Proof.
  intros Hn Ha Hb.
  rewrite <- (Z.mod_small a (2 ^ n)), <- (Z.mod_small b (2 ^ n)) by lia.
  rewrite <- lxor_mod_pow2 by lia. apply Z.mod_pos_bound. lia.
Qed.

Lemma crc_shift_bound crc : 0 <= crc < 2 ^ 16 -> 0 <= Engine.crc_shift crc < 2 ^ 16.
Proof.
  intros Hc. unfold Engine.crc_shift, Js.band, Js.shr, Js.bxor.
  rewrite (ToInt32_small crc) by lia. change (1 mod 32) with 1.
  rewrite Z.shiftr_div_pow2 by lia. change (2 ^ 1) with 2.
  assert (0 <= crc / 2 < 2 ^ 15).
  { split; [apply Z.div_pos; lia | apply Z.div_lt_upper_bound; lia]. }
  case_match; [lia |].
  rewrite (ToInt32_small (crc / 2)), (ToInt32_small 40961) by lia.
  apply lxor_bound; lia.
Qed.

Lemma crc_step_bound buf crc i :
  Buffer.wf buf -> 0 <= crc < 2 ^ 16 -> 0 <= Engine.crc_step buf crc i < 2 ^ 16.
Proof.
  intros Hwf Hc. unfold Engine.crc_step.
  assert (Hx : 0 <= Js.bxorv crc (buf !! i) < 2 ^ 16).
  { unfold Js.bxorv. rewrite (ToInt32_small crc) by lia.
    destruct (buf !! i) as [b|] eqn:Hb; simpl.
    - assert (Buffer.byte b) as Hbyte
        by (eapply Forall_lookup_1; [exact Hwf | exact Hb]).
      unfold Buffer.byte in Hbyte.
      rewrite (ToInt32_small b) by lia. apply lxor_bound; lia.
    - rewrite Z.lxor_0_r. lia. }
  revert Hx. generalize (Js.bxorv crc (buf !! i)). intros x Hx.
  do 8 (apply crc_shift_bound in Hx). exact Hx.
Qed.

Lemma fold_left_invariant {A B} (P : A -> Prop) (f : A -> B -> A) (l : list B) :
  (forall a b, P a -> P (f a b)) -> forall a, P a -> P (fold_left f l a).
Proof.
  intros Hf. induction l as [|b l IH]; intros a Ha; [exact Ha |].
  apply IH, Hf, Ha.
Qed.

Lemma crc_steps_bound buf (l : list nat) crc :
  Buffer.wf buf -> 0 <= crc < 2 ^ 16 ->
  0 <= fold_left (Engine.crc_step buf) l crc < 2 ^ 16.
Proof.
  intros Hwf. apply (fold_left_invariant (fun c => 0 <= c < 2 ^ 16)).
  intros a i. apply crc_step_bound, Hwf.
Qed.

Lemma crc16_loop_bound buf length :
  Buffer.wf buf -> 0 <= Engine.crc16_loop buf length < 2 ^ 16.
Proof.
  intros Hwf. unfold Engine.crc16_loop. apply crc_steps_bound; [exact Hwf | lia].
Qed.

(** [_CRC16] returns whenever the two positions from [length] on are in
    the buffer. *)
Lemma _CRC16_ok buf length :
  Buffer.wf buf -> 0 <= length -> length + 2 <= Buffer.len buf ->
  Engine._CRC16 buf length =
  Ok (<[Z.to_nat (length + 1) := Engine.crc16_loop buf length / 256]>
        (<[Z.to_nat length := Engine.crc16_loop buf length mod 256]> buf),
      Engine.crc16_loop buf length).
Proof.
  intros Hwf H0 Hl. unfold Engine._CRC16.
  pose proof (crc16_loop_bound buf length Hwf) as Hb.
  match goal with
  | |- context [Buffer.writeUInt16LE ?b ?v ?o] =>
      assert (Hw : Buffer.writeUInt16LE b v o =
                   Ok (<[Z.to_nat (o + 1) := v / 256]> (<[Z.to_nat o := v mod 256]> b)))
        by (apply writeUInt16LE_ok; repeat split; (lia || reflexivity))
  end.
  rewrite Hw. reflexivity.
Qed.

Lemma _CRC16_inv buf length buf' crc :
  Engine._CRC16 buf length = Ok (buf', crc) ->
  0 <= length /\ length + 2 <= Buffer.len buf /\ 0 <= crc <= 65535 /\
  crc = Engine.crc16_loop buf length /\
  buf' = <[Z.to_nat (length + 1) := crc / 256]>
           (<[Z.to_nat length := crc mod 256]> buf).
Proof.
  unfold Engine._CRC16. intros H. res_inv H. injection H as <- <-.
  apply writeUInt16LE_ok in Ha as (? & ? & ? & ->). auto.
Qed.

(** ** What the checksum functions write *)

Lemma insert_as_app {A} (l : list A) (i : nat) (x : A) :
  (i < length l)%nat -> <[i := x]> l = take i l ++ [x] ++ drop (S i) l.
Proof. apply insert_take_drop. Qed.

Lemma insert2_as_app {A} (l : list A) (i : nat) (x y : A) :
  (S i < length l)%nat ->
  <[S i := y]> (<[i := x]> l) = take i l ++ [x; y] ++ drop (S (S i)) l.
Proof.
  revert l. induction i as [|i IH]; intros l Hi.
  - destruct l as [|a [|b l]]; simpl in Hi; try lia. reflexivity.
  - destruct l as [|a l]; simpl in Hi; [lia |].
    simpl. f_equal. apply IH. lia.
Qed.

Lemma _LRC_frame buf length buf' lrc :
  Engine._LRC buf length = Ok (buf', lrc) ->
  buf' = take (Z.to_nat length) buf ++ [lrc] ++ drop (S (Z.to_nat length)) buf.
Proof.
  intros H. apply _LRC_inv in H as (Hl & _ & ->).
  apply insert_as_app. unfold Buffer.len in Hl. lia.
Qed.

Lemma _CRC16_frame buf length buf' crc :
  Engine._CRC16 buf length = Ok (buf', crc) ->
  buf' = take (Z.to_nat length) buf ++ [crc mod 256; crc / 256]
         ++ drop (S (S (Z.to_nat length))) buf.
Proof.
  intros H. apply _CRC16_inv in H as (H0 & Hl & _ & _ & ->).
  replace (Z.to_nat (length + 1)) with (S (Z.to_nat length)) by lia.
  apply insert2_as_app. unfold Buffer.len in Hl. lia.
Qed.

(** The two checks of the handler, spelled out. *)
Lemma check_lrc_unfold next w :
  Engine.check_lrc next w =
  match Buffer.readUInt8 (Engine.data w) (Buffer.len (Engine.data w) - 1) with
  | Throw e => (Throw e, w)
  | Ok lrcIn =>
      match Engine._LRC (Engine.data w) (Buffer.len (Engine.data w) - 1) with
      | Throw e => (Throw e, w)
      | Ok (d, lrc) =>
          if lrcIn =? lrc
          then (Ok true, {| Engine.modbus := Engine.modbus w; Engine.data := d;
                            Engine.calls := Engine.calls w |})
          else (Ok false,
                {| Engine.modbus := Engine.modbus w; Engine.data := d;
                   Engine.calls :=
                     Engine.calls w ++ Engine.next_error next Engine.LRCError |})
      end
  end.
Proof.
  unfold Engine.check_lrc, mbind, M_bind, get, lift, Engine.set_data,
    Engine.emit, modify.
  destruct (Buffer.readUInt8 _ _) as [lrcIn|e]; [| reflexivity].
  destruct (Engine._LRC _ _) as [[d lrc]|e]; [| reflexivity].
  simpl. destruct (lrcIn =? lrc); reflexivity.
Qed.

Lemma check_crc_unfold length next w :
  Engine.check_crc length next w =
  match Buffer.readUInt16LE (Engine.data w) (length - 2) with
  | Throw e => (Throw e, w)
  | Ok crcIn =>
      match Engine._CRC16 (Engine.data w) (length - 2) with
      | Throw e => (Throw e, w)
      | Ok (d, crc) =>
          if crcIn =? crc
          then (Ok true, {| Engine.modbus := Engine.modbus w; Engine.data := d;
                            Engine.calls := Engine.calls w |})
          else (Ok false,
                {| Engine.modbus := Engine.modbus w; Engine.data := d;
                   Engine.calls :=
                     Engine.calls w ++ Engine.next_error next Engine.CRCError |})
      end
  end.
Proof.
  unfold Engine.check_crc, mbind, M_bind, get, lift, Engine.set_data,
    Engine.emit, modify.
  destruct (Buffer.readUInt16LE _ _) as [crcIn|e]; [| reflexivity].
  destruct (Engine._CRC16 _ _) as [[d crc]|e]; [| reflexivity].
  simpl. destruct (crcIn =? crc); reflexivity.
Qed.

Lemma readUInt16LE_inv buf offset v :
  Buffer.readUInt16LE buf offset = Ok v ->
  0 <= offset /\ offset + 2 <= Buffer.len buf /\
  v = default 0 (buf !! Z.to_nat offset)
      + default 0 (buf !! S (Z.to_nat offset)) * 256.
Proof.
  unfold Buffer.readUInt16LE. intros Hr. res_inv Hr. destruct a.
  apply checkOffset_ok in Ha. injection Hr as <-.
  rewrite !get_lookup by lia.
  replace (Z.to_nat (offset + 1)) with (S (Z.to_nat offset)) by lia.
  repeat split; (lia || reflexivity).
Qed.

Lemma check_lrc_effect next w ok w' :
  Engine.check_lrc next w = (Ok ok, w') ->
  exists lrc,
    Engine.modbus w' = Engine.modbus w
    /\ Engine.data w' =
       take (Z.to_nat (Buffer.len (Engine.data w) - 1)) (Engine.data w) ++ [lrc]
    /\ (ok = true <-> Engine.data w' = Engine.data w).
Proof.
  rewrite check_lrc_unfold.
  destruct (Buffer.readUInt8 _ _) as [lrcIn|e] eqn:Hr; [| discriminate].
  destruct (Engine._LRC _ _) as [[d lrc]|e] eqn:Hl; [| discriminate].
  apply readUInt8_inv in Hr as [Hlen ->].
  pose proof (_LRC_frame _ _ _ _ Hl) as Hd.
  apply _LRC_inv in Hl as (_ & _ & Hi).
  set (n := Z.to_nat (Buffer.len (Engine.data w) - 1)) in *.
  assert (Hn : S n = length (Engine.data w)) by (unfold Buffer.len in *; lia).
  rewrite Hn, drop_all in Hd.
  destruct (Engine.data w !! n) as [x|] eqn:Hx;
    [| apply lookup_ge_None in Hx; lia].
  simpl. intros Hok. exists lrc.
  assert (Hiff : (x =? lrc) = true <-> d = Engine.data w).
  { rewrite Z.eqb_eq. split.
    - intros ->. rewrite Hi. apply list_insert_id, Hx.
    - intros Heq. rewrite Hi in Heq. apply (f_equal (fun l => l !! n)) in Heq.
      rewrite list_lookup_insert_eq, Hx in Heq by lia. congruence. }
  destruct (x =? lrc); injection Hok as <- <-; simpl; auto.
Qed.

Lemma check_crc_effect length next w ok w' :
  Engine.check_crc length next w = (Ok ok, w') ->
  exists crc,
    Engine.modbus w' = Engine.modbus w
    /\ Engine.data w' =
       take (Z.to_nat (length - 2)) (Engine.data w) ++ [crc mod 256; crc / 256]
       ++ drop (S (S (Z.to_nat (length - 2)))) (Engine.data w)
    /\ (Engine.data w' = Engine.data w -> ok = true)
    /\ (Buffer.wf (Engine.data w) -> ok = true -> Engine.data w' = Engine.data w).
Proof.
  rewrite check_crc_unfold.
  destruct (Buffer.readUInt16LE _ _) as [crcIn|e] eqn:Hr; [| discriminate].
  destruct (Engine._CRC16 _ _) as [[d crc]|e] eqn:Hc; [| discriminate].
  apply readUInt16LE_inv in Hr as (Ho & Hlen & ->).
  pose proof (_CRC16_frame _ _ _ _ Hc) as Hd.
  apply _CRC16_inv in Hc as (_ & _ & Hcrc & _ & Hi).
  replace (Z.to_nat (length - 2 + 1)) with (S (Z.to_nat (length - 2))) in Hi by lia.
  set (n := Z.to_nat (length - 2)) in *.
  assert (Hn : (S n < Datatypes.length (Engine.data w))%nat)
    by (unfold Buffer.len in *; lia).
  destruct (Engine.data w !! n) as [b0|] eqn:H0;
    [| apply lookup_ge_None in H0; lia].
  destruct (Engine.data w !! S n) as [b1|] eqn:H1;
    [| apply lookup_ge_None in H1; lia].
  simpl. intros Hok. exists crc.
  assert (Hback : d = Engine.data w -> (b0 + b1 * 256 =? crc) = true).
  { intros Heq. rewrite Hi in Heq.
    pose proof (f_equal (fun l => l !! n) Heq) as E0.
    pose proof (f_equal (fun l => l !! S n) Heq) as E1. simpl in E0, E1.
    rewrite list_lookup_insert_ne, list_lookup_insert_eq, H0 in E0 by lia.
    rewrite list_lookup_insert_eq, H1 in E1 by (rewrite length_insert; lia).
    injection E0 as <-. injection E1 as <-. apply Z.eqb_eq.
    pose proof (Z.div_mod crc 256). lia. }
  assert (Hforth : Buffer.wf (Engine.data w) ->
                   (b0 + b1 * 256 =? crc) = true -> d = Engine.data w).
  { intros Hwf Heq. apply Z.eqb_eq in Heq.
    assert (Buffer.byte b0) as Hb0 by (eapply Forall_lookup_1; eauto).
    assert (Buffer.byte b1) as Hb1 by (eapply Forall_lookup_1; eauto).
    unfold Buffer.byte in *.
    assert (crc mod 256 = b0 /\ crc / 256 = b1) as [E0 E1].
    { split; symmetry.
      - apply (Z.mod_unique_pos _ _ b1); lia.
      - apply (Z.div_unique_pos _ _ _ b0); lia. }
    rewrite Hi, E0, E1.
    rewrite (list_insert_id _ n b0 H0). apply list_insert_id, H1. }
  destruct (b0 + b1 * 256 =? crc); injection Hok as <- <-; simpl;
    repeat split; auto.
Qed.

(** C5, as amended.  [_CRC16(buf, length)] and [_LRC(buf, length)] leave
    [buf[0..length)] and everything after the checksum unchanged and write
    the checksum bytes at position [length] (two bytes, low byte first, for
    the CRC16; one byte for the LRC).  When the handler validates a
    received frame with them, the bytes before the checksum position are
    unchanged and the trailing checksum bytes are overwritten with the
    computed checksum: the frame is left as received exactly when the
    checksum matches. *)
Theorem checksum_writes_checksum_position :
  (forall buf length buf' crc,
      Engine._CRC16 buf length = Ok (buf', crc) ->
      buf' = take (Z.to_nat length) buf ++ [crc mod 256; crc / 256]
             ++ drop (S (S (Z.to_nat length))) buf)
  /\ (forall buf length buf' lrc,
      Engine._LRC buf length = Ok (buf', lrc) ->
      buf' = take (Z.to_nat length) buf ++ [lrc]
             ++ drop (S (Z.to_nat length)) buf)
  /\ (forall length next w ok w',
      Buffer.wf (Engine.data w) ->
      Engine.check_crc length next w = (Ok ok, w') ->
      exists crc,
        Engine.data w' =
          take (Z.to_nat (length - 2)) (Engine.data w) ++ [crc mod 256; crc / 256]
          ++ drop (S (S (Z.to_nat (length - 2)))) (Engine.data w)
        /\ (ok = true <-> Engine.data w' = Engine.data w))
  /\ (forall next w ok w',
      Engine.check_lrc next w = (Ok ok, w') ->
      exists lrc,
        Engine.data w' =
          take (Z.to_nat (Buffer.len (Engine.data w) - 1)) (Engine.data w) ++ [lrc]
        /\ (ok = true <-> Engine.data w' = Engine.data w)).
Proof.
  split; [| split; [| split]].
  - apply _CRC16_frame.
  - apply _LRC_frame.
  - intros length next w ok w' Hwf H.
    apply check_crc_effect in H as (crc & _ & Hd & Hback & Hforth).
    exists crc. split; [exact Hd |]. split; auto.
  - intros next w ok w' H.
    apply check_lrc_effect in H as (lrc & _ & Hd & Hiff). eauto.
Qed.

Lemma checksum_writes_checksum_position_witness :
  Buffer.wf (Engine.data crc_frame_world)
  /\ Engine.check_crc 8 None crc_frame_world = (Ok true, crc_frame_world)
  /\ exists crc,
      Engine.data crc_frame_world =
        take (Z.to_nat (8 - 2)) (Engine.data crc_frame_world)
        ++ [crc mod 256; crc / 256]
        ++ drop (S (S (Z.to_nat (8 - 2)))) (Engine.data crc_frame_world)
      /\ (true = true <-> Engine.data crc_frame_world = Engine.data crc_frame_world).
Proof.
  assert (Hwf : Buffer.wf (Engine.data crc_frame_world))
    by (repeat constructor; unfold Buffer.byte; lia).
  assert (Hc : Engine.check_crc 8 None crc_frame_world = (Ok true, crc_frame_world))
    by (vm_compute; reflexivity).
  split; [exact Hwf |]. split; [exact Hc |].
  exact (proj1 (proj2 (proj2 checksum_writes_checksum_position))
           8 None crc_frame_world true crc_frame_world Hwf Hc).
Defined.

(** C5, as stated, fails: the handler validates the frame
    01 03 04 00 0A 00 0B 00, whose LRC byte is wrong, and leaves the
    computed LRC, E3, in its last byte. *)
Lemma validation_rewrites_checksum_byte :
  Engine.data (snd (Engine.handle awaiting_registers [1; 3; 4; 0; 10; 0; 11; 0]))
  = [1; 3; 4; 0; 10; 0; 11; 227]
  /\ Engine.data (snd (Engine.handle awaiting_registers [1; 3; 4; 0; 10; 0; 11; 0]))
     <> [1; 3; 4; 0; 10; 0; 11; 0].
Proof. split; [vm_compute; reflexivity | vm_compute; discriminate]. Qed.

(** ** What a computation leaves alone *)

Section Preserves.

Context {S T : Type} (p : S -> T).

Lemma preserves_ret {A} (a : A) : preserves p (mret a).
Proof. intros s. reflexivity. Qed.

Lemma preserves_lift {A} (r : res A) : preserves p (lift r).
Proof. intros s. reflexivity. Qed.

Lemma preserves_get : preserves p get.
Proof. intros s. reflexivity. Qed.

Lemma preserves_modify (f : S -> S) :
  (forall s, p (f s) = p s) -> preserves p (modify f).
Proof. intros Hf s. apply Hf. Qed.

Lemma preserves_bind {A B} (c : M S A) (k : A -> M S B) :
  preserves p c -> (forall a, preserves p (k a)) -> preserves p (c ≫= k).
Proof.
  intros Hc Hk s. unfold mbind, M_bind. specialize (Hc s).
  destruct (c s) as [[a|e] s']; simpl in *; [| exact Hc].
  rewrite Hk. exact Hc.
Qed.

Lemma preserves_when (b : bool) (c : M S unit) :
  preserves p c -> preserves p (when b c).
Proof. intros Hc. destruct b; [exact Hc | apply preserves_ret]. Qed.

End Preserves.

Ltac preserves_step :=
  first
    [ apply preserves_bind; [| intros ?]
    | apply preserves_when
    | apply preserves_ret
    | apply preserves_lift
    | apply preserves_get
    | apply preserves_modify; intros ?; reflexivity
    | progress unfold skip
    | case_match ].

Ltac preserves := repeat preserves_step.

(** The handler's checks and parsers touch no field of the engine. *)
Lemma check_checksum_keeps_engine length next :
  preserves Engine.modbus (Engine.check_checksum length next).
Proof.
  unfold Engine.check_checksum, Engine.check_crc, Engine.check_lrc,
    Engine.set_data, Engine.emit.
  preserves.
Qed.

Lemma parse_keeps_engine f next : preserves Engine.modbus (Engine.parse f next).
Proof. unfold Engine.parse, Engine.emit. preserves. Qed.

(** ** The handler's two checks *)

Lemma len_cons (x : Z) (l : Buffer) : Buffer.len (x :: l) = Buffer.len l + 1.
Proof. unfold Buffer.len. simpl. lia. Qed.

(** The handler, check by check. *)
Lemma on_data_unfold w :
  Engine.on_data w =
  let m := Engine.modbus w in
  if negb (Buffer.len (Engine.data w) =? Engine._nextLength m) then
    (Ok tt, {| Engine.modbus := m; Engine.data := Engine.data w;
               Engine.calls :=
                 Engine.calls w ++
                 Engine.next_error (Engine._next m)
                   (Engine.DataLengthError (Engine._nextLength m)
                      (Buffer.len (Engine.data w))) |})
  else
    match Buffer.readUInt8 (Engine.data w) 0 with
    | Throw e => (Throw e, w)
    | Ok address =>
        match Buffer.readUInt8 (Engine.data w) 1 with
        | Throw e => (Throw e, w)
        | Ok code =>
            if Engine.differs address (Engine._nextAddress m)
               || Engine.differs code (Engine._nextCode m)
            then
              (Ok tt, {| Engine.modbus := m; Engine.data := Engine.data w;
                         Engine.calls :=
                           Engine.calls w ++
                           Engine.next_error (Engine._next m)
                             (Engine.UnexpectedDataError (Engine._nextAddress m)
                                address) |})
            else
              validate_and_parse code (Engine._nextLength m) (Engine._next m)
                {| Engine.modbus := cleared m; Engine.data := Engine.data w;
                   Engine.calls := Engine.calls w |}
        end
    end.
Proof.
  unfold Engine.on_data, validate_and_parse.
  unfold mbind at 1, M_bind at 1, get at 1. cbv zeta.
  destruct (negb _); [reflexivity |].
  unfold mbind at 1, M_bind at 1, lift at 1.
  destruct (Buffer.readUInt8 _ 0) as [address|e]; [| reflexivity].
  unfold mbind at 1, M_bind at 1, lift at 1.
  destruct (Buffer.readUInt8 _ 1) as [code|e]; [| reflexivity].
  destruct (_ || _); [reflexivity |].
  reflexivity.
Qed.

Lemma validate_and_parse_keeps_engine code length next :
  preserves Engine.modbus (validate_and_parse code length next).
Proof.
  apply preserves_bind; [apply check_checksum_keeps_engine |].
  intros ok. destruct ok; cbn [negb]; [| apply preserves_ret].
  repeat (apply preserves_bind; [| intros ?]);
    repeat apply preserves_when; apply parse_keeps_engine.
Qed.

Lemma handle_length_mismatch m chunk :
  Buffer.len chunk <> Engine._nextLength m ->
  Engine.handle m chunk =
  (Ok tt, {| Engine.modbus := m; Engine.data := chunk;
             Engine.calls :=
               Engine.next_error (Engine._next m)
                 (Engine.DataLengthError (Engine._nextLength m) (Buffer.len chunk)) |}).
Proof.
  intros Hne. unfold Engine.handle. rewrite on_data_unfold.
  cbn [Engine.modbus Engine.data Engine.calls app]. cbv zeta.
  destruct (Z.eqb_spec (Buffer.len chunk) (Engine._nextLength m)); [contradiction |].
  reflexivity.
Qed.

Lemma handle_right_length m address code rest :
  Buffer.len (address :: code :: rest) = Engine._nextLength m ->
  Engine.handle m (address :: code :: rest) =
  if Engine.differs address (Engine._nextAddress m)
     || Engine.differs code (Engine._nextCode m)
  then
    (Ok tt, {| Engine.modbus := m; Engine.data := address :: code :: rest;
               Engine.calls :=
                 Engine.next_error (Engine._next m)
                   (Engine.UnexpectedDataError (Engine._nextAddress m) address) |})
  else
    validate_and_parse code (Engine._nextLength m) (Engine._next m)
      {| Engine.modbus := cleared m; Engine.data := address :: code :: rest;
         Engine.calls := [] |}.
Proof.
  intros Hlen. unfold Engine.handle. rewrite on_data_unfold.
  cbn [Engine.modbus Engine.data Engine.calls app]. cbv zeta.
  rewrite Hlen, Z.eqb_refl. cbn [negb].
  pose proof (len_nonneg rest).
  rewrite (readUInt8_ok _ 0), (readUInt8_ok _ 1) by (rewrite !len_cons; lia).
  reflexivity.
Qed.

Lemma handle_identity_mismatch m address code rest :
  Buffer.len (address :: code :: rest) = Engine._nextLength m ->
  Engine.differs address (Engine._nextAddress m)
  || Engine.differs code (Engine._nextCode m) = true ->
  Engine.handle m (address :: code :: rest) =
  (Ok tt, {| Engine.modbus := m; Engine.data := address :: code :: rest;
             Engine.calls :=
               Engine.next_error (Engine._next m)
                 (Engine.UnexpectedDataError (Engine._nextAddress m) address) |}).
Proof. intros Hlen Hdiff. rewrite handle_right_length, Hdiff by exact Hlen. reflexivity. Qed.

Lemma handle_passed m address code rest :
  Buffer.len (address :: code :: rest) = Engine._nextLength m ->
  Engine._nextAddress m = Some address ->
  Engine._nextCode m = Some code ->
  Engine.modbus (snd (Engine.handle m (address :: code :: rest))) = cleared m.
Proof.
  intros Hlen Ha Hc. rewrite handle_right_length by exact Hlen.
  rewrite Ha, Hc. unfold Engine.differs. rewrite !Z.eqb_refl. cbn [negb orb].
  apply validate_and_parse_keeps_engine.
Qed.

(** C2, as amended.  When the byte count of a candidate differs from the
    recorded expected length, or its unit address or function code differs
    from the recorded identity, the handler signals the corresponding error
    to the pending continuation, if there is one, and leaves the engine as
    it was: expected address, function code, length and continuation stay
    recorded.  The transaction fields are cleared only when a candidate has
    passed both checks, before its checksum is verified and whatever the
    verification says. *)
Theorem mismatch_keeps_transaction (m : Engine.ModbusRTU) (chunk : Buffer) :
  (Buffer.len chunk <> Engine._nextLength m ->
   Engine.handle m chunk =
   (Ok tt, {| Engine.modbus := m; Engine.data := chunk;
              Engine.calls :=
                Engine.next_error (Engine._next m)
                  (Engine.DataLengthError (Engine._nextLength m)
                     (Buffer.len chunk)) |}))
  /\ (forall address code rest,
         chunk = address :: code :: rest ->
         Buffer.len chunk = Engine._nextLength m ->
         Engine.differs address (Engine._nextAddress m)
         || Engine.differs code (Engine._nextCode m) = true ->
         Engine.handle m chunk =
         (Ok tt, {| Engine.modbus := m; Engine.data := chunk;
                    Engine.calls :=
                      Engine.next_error (Engine._next m)
                        (Engine.UnexpectedDataError (Engine._nextAddress m)
                           address) |}))
  /\ (forall address code rest,
         chunk = address :: code :: rest ->
         Buffer.len chunk = Engine._nextLength m ->
         Engine._nextAddress m = Some address ->
         Engine._nextCode m = Some code ->
         let m' := Engine.modbus (snd (Engine.handle m chunk)) in
         Engine._nextAddress m' = None /\ Engine._nextCode m' = None
         /\ Engine._next m' = None
         /\ Engine._nextLength m' = Engine._nextLength m).
Proof.
  split; [| split].
  - apply handle_length_mismatch.
  - intros address code rest -> Hlen Hdiff.
    apply handle_identity_mismatch; assumption.
  - intros address code rest -> Hlen Ha Hc. cbv zeta.
    rewrite handle_passed by assumption. repeat split.
Qed.

Lemma mismatch_keeps_transaction_witness :
  Buffer.len [1; 3; 0] <> Engine._nextLength awaiting_registers
  /\ Engine.handle awaiting_registers [1; 3; 0] =
     (Ok tt, {| Engine.modbus := awaiting_registers; Engine.data := [1; 3; 0];
                Engine.calls :=
                  Engine.next_error (Engine._next awaiting_registers)
                    (Engine.DataLengthError (Engine._nextLength awaiting_registers)
                       (Buffer.len [1; 3; 0])) |}).
Proof.
  assert (H : Buffer.len [1; 3; 0] <> Engine._nextLength awaiting_registers)
    by (vm_compute; discriminate).
  split; [exact H |].
  exact (proj1 (mismatch_keeps_transaction awaiting_registers [1; 3; 0]) H).
Defined.

(** C2, as stated, fails: after [writeFC3(1, 0, 2, next)] a chunk of three
    bytes, and a chunk of the awaited length from unit 2, are each answered
    with an error to [next], and the engine still awaits the response:
    address, code and continuation stay recorded. *)
Lemma mismatch_does_not_clear :
  Engine.handle awaiting_registers [1; 3; 0] =
    (Ok tt, {| Engine.modbus := awaiting_registers; Engine.data := [1; 3; 0];
               Engine.calls := [Engine.CallError 0 (Engine.DataLengthError 8 3)] |})
  /\ Engine.handle awaiting_registers [2; 3; 4; 0; 10; 0; 11; 226] =
    (Ok tt, {| Engine.modbus := awaiting_registers;
               Engine.data := [2; 3; 4; 0; 10; 0; 11; 226];
               Engine.calls :=
                 [Engine.CallError 0 (Engine.UnexpectedDataError (Some 1) 2)] |})
  /\ Engine._nextAddress awaiting_registers = Some 1
  /\ Engine._nextCode awaiting_registers = Some 3
  /\ Engine._next awaiting_registers = Some 0%nat.
Proof. repeat split; vm_compute; reflexivity. Qed.

(** ** The parser of read coils and read discrete inputs *)

(** The eight booleans of one payload byte are its bits, least
    significant first. *)
Lemma bits_of_byte b :
  0 <= b < 256 -> Engine.bits_of 8 b = map (Z.testbit b) (seqZ 0 8).
Proof. revert b. check_all_bytes. Qed.

Lemma wf_lookup (data : Buffer) (k : nat) :
  Buffer.wf data -> 0 <= default 0 (data !! k) < 256.
Proof.
  intros Hwf. destruct (data !! k) as [b|] eqn:Hb; simpl; [| lia].
  apply (Forall_lookup_1 _ _ _ _ Hwf Hb).
Qed.

Lemma payload_bits (data : Buffer) (i : nat) :
  Buffer.wf data ->
  Engine.bits_of 8 (Js.ToInt32v (data !! (i + 3)%nat)) =
  map (Z.testbit (payload_byte data i)) (seqZ 0 8).
Proof.
  intros Hwf. pose proof (wf_lookup data (i + 3) Hwf) as Hb.
  unfold payload_byte.
  destruct (data !! (i + 3)%nat) as [b|]; simpl in Hb; unfold Js.ToInt32v.
  - rewrite ToInt32_small by lia. apply bits_of_byte, Hb.
  - vm_compute. reflexivity.
Qed.

Lemma bits_of_length j reg : length (Engine.bits_of j reg) = j.
Proof. revert reg. induction j as [|j IH]; intros reg; simpl; [| rewrite IH]; reflexivity. Qed.

Lemma contents_after_S data n :
  contents_after data (S n) =
  contents_after data n ++ Engine.bits_of 8 (Js.ToInt32v (data !! (n + 3)%nat)).
Proof. unfold contents_after. rewrite seq_S, fold_left_app. reflexivity. Qed.

Lemma contents_after_length data n :
  length (contents_after data n) = (8 * n)%nat.
Proof.
  induction n as [|n IH]; [reflexivity |].
  rewrite contents_after_S, length_app, IH, bits_of_length. lia.
Qed.

Lemma contents_after_lookup data n i j :
  Buffer.wf data -> (i < n)%nat -> (j < 8)%nat ->
  contents_after data n !! (8 * i + j)%nat =
  Some (Z.testbit (payload_byte data i) (Z.of_nat j)).
Proof.
  intros Hwf Hi Hj. induction n as [|n IH]; [lia |].
  rewrite contents_after_S.
  destruct (decide (i = n)) as [-> | Hne].
  - rewrite lookup_app_r by (rewrite contents_after_length; lia).
    rewrite contents_after_length.
    replace (8 * n + j - 8 * n)%nat with j by lia.
    rewrite payload_bits by exact Hwf.
    rewrite list_lookup_fmap, lookup_seqZ_lt by lia. reflexivity.
  - rewrite lookup_app_l by (rewrite contents_after_length; lia).
    apply IH. lia.
Qed.

Lemma _readFC2_unfold data next :
  3 <= Buffer.len data ->
  Engine._readFC2 data next =
  Ok (Engine.next_result next
        (Engine.Contents
           (contents_after data (Z.to_nat (default 0 (data !! 2%nat))))
           (Buffer.slice data 3 (3 + default 0 (data !! 2%nat))))).
Proof.
  intros Hlen. unfold Engine._readFC2.
  rewrite (readUInt8_ok _ 2) by lia. reflexivity.
Qed.

(** C3, as amended.  The parser of a FC 1 or FC 2 response does not know
    how many bits were requested: it delivers eight booleans for each
    payload byte that byte 2 of the response announces, the bits of each
    byte in ascending order, least significant first, together with the
    slice [data[3 .. 3 + count)].  For a response to a request of [n] bits
    that announces ceil(n/8) bytes that is 8 * ceil(n/8) booleans: the [n]
    requested ones first, then the padding bits of the last byte, and
    exactly [n] only when [n] is a multiple of 8. *)
Theorem read_coils_unpacks_whole_bytes (data : Buffer) (next : option Engine.callback) :
  3 <= Buffer.len data ->
  exists (count : Z) (contents : list bool),
    data !! 2%nat = Some count
    /\ Engine._readFC2 data next =
       Ok (Engine.next_result next
             (Engine.Contents contents (Buffer.slice data 3 (3 + count))))
    /\ length contents = (8 * Z.to_nat count)%nat
    /\ (Buffer.wf data ->
        forall i j, (i < Z.to_nat count)%nat -> (j < 8)%nat ->
          contents !! (8 * i + j)%nat =
          Some (Z.testbit (payload_byte data i) (Z.of_nat j)))
    /\ (forall n, 1 <= n -> count = (n + 7) / 8 ->
          Z.of_nat (length contents) = 8 * ((n + 7) / 8)
          /\ n <= Z.of_nat (length contents)
          /\ (Z.of_nat (length contents) = n <-> n mod 8 = 0)).
Proof.
  intros Hlen.
  destruct (data !! 2%nat) as [count|] eqn:Hc;
    [| apply lookup_ge_None in Hc; unfold Buffer.len in Hlen; lia].
  exists count, (contents_after data (Z.to_nat count)).
  split; [reflexivity |]. split.
  { rewrite _readFC2_unfold, Hc by exact Hlen. reflexivity. }
  split; [apply contents_after_length |]. split.
  { intros Hwf i j Hi Hj. apply contents_after_lookup; assumption. }
  intros n Hn ->. rewrite contents_after_length.
  pose proof (Z.div_mod (n + 7) 8). pose proof (Z.mod_pos_bound (n + 7) 8).
  pose proof (Z.div_mod n 8). pose proof (Z.mod_pos_bound n 8).
  assert (0 <= (n + 7) / 8) by (apply Z.div_pos; lia).
  repeat split; try lia.
Qed.

Lemma read_coils_unpacks_whole_bytes_witness :
  3 <= Buffer.len [1; 1; 1; 1; 252]
  /\ exists (count : Z) (contents : list bool),
      [1; 1; 1; 1; 252] !! 2%nat = Some count
      /\ Engine._readFC2 [1; 1; 1; 1; 252] (Some 0%nat) =
         Ok (Engine.next_result (Some 0%nat)
               (Engine.Contents contents
                  (Buffer.slice [1; 1; 1; 1; 252] 3 (3 + count))))
      /\ length contents = (8 * Z.to_nat count)%nat
      /\ (Buffer.wf [1; 1; 1; 1; 252] ->
          forall i j, (i < Z.to_nat count)%nat -> (j < 8)%nat ->
            contents !! (8 * i + j)%nat =
            Some (Z.testbit (payload_byte [1; 1; 1; 1; 252] i) (Z.of_nat j)))
      /\ (forall n, 1 <= n -> count = (n + 7) / 8 ->
            Z.of_nat (length contents) = 8 * ((n + 7) / 8)
            /\ n <= Z.of_nat (length contents)
            /\ (Z.of_nat (length contents) = n <-> n mod 8 = 0)).
Proof.
  assert (H : 3 <= Buffer.len [1; 1; 1; 1; 252]) by (unfold Buffer.len; simpl; lia).
  split; [exact H |].
  exact (read_coils_unpacks_whole_bytes [1; 1; 1; 1; 252] (Some 0%nat) H).
Defined.

(** C3, as stated, fails: the validated response 01 01 01 01 FC to a
    request for one coil is delivered as eight booleans. *)
Lemma one_coil_gives_eight_booleans :
  Engine.calls (snd (Engine.handle awaiting_one_coil [1; 1; 1; 1; 252])) =
  [Engine.CallResult 0
     (Engine.Contents [true; false; false; false; false; false; false; false] [1])]
  /\ length [true; false; false; false; false; false; false; false] <> 1%nat.
Proof. split; [vm_compute; reflexivity | discriminate]. Qed.

(** ** The expected lengths of a read of coils *)

Lemma eighths_plus_one (a : Z) : (inject_Z a / 8 + 1 == inject_Z (a + 8) / inject_Z 8)%Q.
Proof. rewrite inject_Z_plus. change (inject_Z 8) with 8%Q. field. Qed.

Lemma parseInt_eighths (n : Z) :
  -7 <= n -> Js.parseInt (inject_Z (n - 1) / 8 + 1) = (n + 7) / 8.
Proof.
  intros Hn. unfold Js.parseInt.
  assert (Hpos : Qle_bool 0 (inject_Z (n - 1) / 8 + 1) = true).
  { apply Qle_bool_iff. rewrite eighths_plus_one.
    apply Qle_shift_div_l; [reflexivity |].
    rewrite Qmult_0_l. change 0%Q with (inject_Z 0). rewrite <- Zle_Qle. lia. }
  rewrite Hpos, (Qfloor_comp _ _ (eighths_plus_one (n - 1))), <- Zdiv_Qdiv.
  f_equal. lia.
Qed.

(** ceil(n/8), and ceil((n-1)/8 + 1), as the specification writes them. *)
Lemma ceiling_eighths (n : Z) : Qceiling (inject_Z n / 8) = (n + 7) / 8.
Proof.
  unfold Qceiling. change 8%Q with (inject_Z 8).
  assert (E : (- (inject_Z n / inject_Z 8) == inject_Z (- n) / inject_Z 8)%Q)
    by (rewrite inject_Z_opp; field).
  rewrite (Qfloor_comp _ _ E), <- Zdiv_Qdiv.
  pose proof (Z.div_mod (- n) 8). pose proof (Z.mod_pos_bound (- n) 8).
  pose proof (Z.div_mod (n + 7) 8). pose proof (Z.mod_pos_bound (n + 7) 8).
  lia.
Qed.

Lemma ceiling_eighths_plus_one (n : Z) :
  Qceiling (inject_Z (n - 1) / 8 + 1) = (n + 14) / 8.
Proof.
  assert (E : (inject_Z (n - 1) / 8 + 1 == inject_Z (n + 7) / 8)%Q).
  { rewrite eighths_plus_one. replace (n - 1 + 8) with (n + 7) by lia.
    reflexivity. }
  rewrite (Qceiling_comp _ _ E), ceiling_eighths. f_equal. lia.
Qed.

(** ** The request frames *)

Lemma writeUInt8_eq buf value offset :
  0 <= value <= 255 -> 0 <= offset < Buffer.len buf ->
  Buffer.writeUInt8 buf value offset = Ok (<[Z.to_nat offset := value]> buf).
Proof. intros. apply writeUInt8_ok. auto. Qed.

Lemma writeUInt16BE_eq buf value offset :
  0 <= value <= 65535 -> 0 <= offset -> offset + 2 <= Buffer.len buf ->
  Buffer.writeUInt16BE buf value offset =
  Ok (<[Z.to_nat (offset + 1) := value mod 256]>
        (<[Z.to_nat offset := value / 256]> buf)).
Proof. intros. apply writeUInt16BE_ok. auto. Qed.

(** [writeFC2], when the test [this._ascii === true] fails and the
    arguments fit their fields. *)
Lemma writeFC2_run mem m address dataAddress n next code :
  Engine.ascii_is true m = false ->
  0 <= address <= 255 -> 0 <= code_or 2 code <= 255 ->
  0 <= dataAddress <= 65535 -> 0 <= n <= 65535 ->
  Engine.writeFC2 mem address dataAddress n next code m =
  (Ok (core6 address (code_or 2 code) dataAddress n
       ++ [spec_lrc (core6 address (code_or 2 code) dataAddress n) 6]),
   Engine.set_next next
     (Engine.set_nextLength (3 + Js.parseInt (inject_Z (n - 1) / 8 + 1) + 1)
        (Engine.set_nextCode (Some (code_or 2 code))
           (Engine.set_nextAddress (Some address) m)))).
Proof.
  intros Hasc Ha Hc Hd Hn.
  unfold Engine.writeFC2. fold (code_or 2 code).
  generalize dependent (code_or 2 code). clear code. intros code Hc.
  cbv beta iota zeta delta [mbind M_bind modify get lift when skip mret M_ret].
  assert (Hasc' : Engine.ascii_is true
            (Engine.set_nextCode (Some code)
               (Engine.set_nextAddress (Some address) m)) = false) by exact Hasc.
  unfold Engine.add_checksum. rewrite Hasc'.
  unfold Engine.new_request_buffer, Buffer.alloc. cbv zeta.
  change (seq 0 (Z.to_nat (6 + 1))) with [0; 1; 2; 3; 4; 5; 6]%nat.
  cbn [map].
  rewrite writeUInt8_eq by (unfold Buffer.len; simpl; lia).
  change (Z.to_nat 0) with 0%nat. cbn [insert list_insert].
  rewrite writeUInt8_eq by (unfold Buffer.len; simpl; lia).
  change (Z.to_nat 1) with 1%nat. cbn [insert list_insert].
  rewrite writeUInt16BE_eq by (unfold Buffer.len; simpl; lia).
  change (Z.to_nat 2) with 2%nat. change (Z.to_nat (2 + 1)) with 3%nat.
  cbn [insert list_insert].
  rewrite writeUInt16BE_eq by (unfold Buffer.len; simpl; lia).
  change (Z.to_nat 4) with 4%nat. change (Z.to_nat (4 + 1)) with 5%nat.
  cbn [insert list_insert].
  rewrite _LRC_ok by (unfold Buffer.len; simpl; lia).
  cbn [mbind res_bind].
  change (Z.to_nat 6) with 6%nat. cbn [insert list_insert].
  destruct (Engine.ascii_is false _); reflexivity.
Qed.

Lemma readUInt16BE_ok buf offset :
  0 <= offset -> offset + 2 <= Buffer.len buf ->
  Buffer.readUInt16BE buf offset =
  Ok (default 0 (buf !! Z.to_nat offset) * 256
      + default 0 (buf !! S (Z.to_nat offset))).
Proof.
  intros Ho Hl. unfold Buffer.readUInt16BE.
  assert (Hc : Buffer.checkOffset offset 2 buf = Ok tt) by (apply checkOffset_ok; lia).
  rewrite Hc. cbn [mbind res_bind]. rewrite !get_lookup by lia.
  replace (Z.to_nat (offset + 1)) with (S (Z.to_nat offset)) by lia. reflexivity.
Qed.

(** The port's [write] on a request for coils or discrete inputs. *)
Lemma port_write_coils mem port address code dataAddress n lrc :
  code = 1 \/ code = 2 ->
  AsciiPort.write mem (core6 address code dataAddress n ++ [lrc]) port =
  (Ok (Some (AsciiPort.asciiEncodeRequestBuffer mem
               (core6 address code dataAddress n ++ [lrc]))),
   AsciiPort.set_length
     ((3 + Js.parseInt (inject_Z (n - 1) / 8 + 1) + 2) * 2 + 1)
     (AsciiPort.set_cmd code (AsciiPort.set_id address port))).
Proof.
  intros Hcode. unfold AsciiPort.write.
  change (Buffer.len (core6 address code dataAddress n ++ [lrc]) <? 5) with false.
  cbv beta iota zeta delta [mbind M_bind modify get lift mret M_ret].
  cbn [AsciiPort._cmd AsciiPort.set_cmd AsciiPort.set_id core6 app lookup
       list_lookup default from_option id].
  assert (Hc : (code =? 1) || (code =? 2) = true)
    by (destruct Hcode as [-> | ->]; reflexivity).
  rewrite Hc.
  rewrite readUInt16BE_ok by (unfold Buffer.len; simpl; lia).
  change (Z.to_nat 4) with 4%nat.
  cbn [lookup list_lookup default from_option id].
  replace (n / 256 * 256 + n mod 256) with n
    by (pose proof (Z.div_mod n 256); lia).
  reflexivity.
Qed.

(** C4, as amended.  For a read of [n] coils or discrete inputs,
    1 <= n <= 65535, issued by an engine whose [_ascii] is not false, the
    engine records 3 + ceil(n/8) + 1 for the decoded response (unit, code,
    byte count, payload, LRC), and the ASCII port, handed the request,
    records (3 + ceil(n/8) + 2) * 2 + 1 for the response on the wire, which
    is 2 * (3 + ceil(n/8) + 1) + 3: twice the decoded response and the
    three delimiter bytes. *)
Theorem coil_request_expected_lengths
  (mem : nat -> Z) (m : Engine.ModbusRTU) (port : AsciiPort.AsciiBufferedPort)
  (address dataAddress n : Z) (next : option Engine.callback) (code : option Z) :
  1 <= n <= 65535 ->
  0 <= address <= 255 -> 0 <= dataAddress <= 65535 ->
  code = Some 1 \/ code = Some 2 \/ code = None ->
  Engine._ascii m = Some true \/ Engine._ascii m = None ->
  Engine._nextLength (snd (Engine.writeFC2 mem address dataAddress n next code m))
  = 3 + Qceiling (inject_Z n / 8) + 1
  /\ (Engine._ascii m = None ->
      exists frame wire port',
        fst (Engine.writeFC2 mem address dataAddress n next code m) = Ok frame
        /\ AsciiPort.write mem frame port = (Ok (Some wire), port')
        /\ AsciiPort._length port' = (3 + Qceiling (inject_Z n / 8) + 2) * 2 + 1
        /\ AsciiPort._length port' = 2 * (3 + Qceiling (inject_Z n / 8) + 1) + 3).
Proof.
  intros Hn Ha Hd Hcode Hm.
  rewrite ceiling_eighths, <- (parseInt_eighths n) by lia.
  split.
  - unfold Engine.writeFC2.
    cbv beta iota zeta delta [mbind M_bind modify get lift when skip mret M_ret].
    repeat case_match; simplify_eq; reflexivity.
  - intros Hnone.
    assert (Hc : code_or 2 code = 1 \/ code_or 2 code = 2)
      by (destruct Hcode as [-> | [-> | ->]]; auto).
    rewrite writeFC2_run; try lia.
    + eexists _, _, _. split; [reflexivity |].
      split; [apply port_write_coils, Hc |]. cbn [AsciiPort._length AsciiPort.set_length].
      split; [reflexivity | lia].
    + unfold Engine.ascii_is. rewrite Hnone. reflexivity.
Qed.

(** C4, as stated, fails at n = 1: the port records 13 where the
    specification's ASCII formula gives 11, and an engine in binary mode
    records 5 where the binary formula gives 6. *)
Lemma one_coil_expected_lengths :
  AsciiPort._length
    (snd (AsciiPort.write (fun _ => 0) [1; 1; 0; 0; 0; 1; 253]
            AsciiPort.new_AsciiBufferedPort)) = 13
  /\ spec_ascii_length 1 = 11
  /\ Engine._nextLength
       (snd (Engine.writeFC1 (fun _ => 0) 1 0 1 (Some 0%nat) binary_engine)) = 5
  /\ spec_binary_length 1 = 6.
Proof. repeat split; vm_compute; reflexivity. Qed.

Lemma coil_request_expected_lengths_witness :
  (1 <= 1 <= 65535 /\ 0 <= 1 <= 255 /\ 0 <= 0 <= 65535)
  /\ Engine._ascii Engine.new_ModbusRTU = None
  /\ Engine._nextLength
       (snd (Engine.writeFC2 (fun _ => 0) 1 0 1 (Some 0%nat) (Some 1)
               Engine.new_ModbusRTU))
     = 3 + Qceiling (inject_Z 1 / 8) + 1
  /\ exists frame wire port',
      fst (Engine.writeFC2 (fun _ => 0) 1 0 1 (Some 0%nat) (Some 1)
             Engine.new_ModbusRTU) = Ok frame
      /\ AsciiPort.write (fun _ => 0) frame AsciiPort.new_AsciiBufferedPort
         = (Ok (Some wire), port')
      /\ AsciiPort._length port' = (3 + Qceiling (inject_Z 1 / 8) + 2) * 2 + 1
      /\ AsciiPort._length port' = 2 * (3 + Qceiling (inject_Z 1 / 8) + 1) + 3.
Proof.
  assert (H1 : 1 <= 1 <= 65535) by lia.
  assert (H2 : 0 <= 1 <= 255) by lia.
  assert (H3 : 0 <= 0 <= 65535) by lia.
  assert (H4 : Engine._ascii Engine.new_ModbusRTU = None) by reflexivity.
  pose proof (coil_request_expected_lengths (fun _ => 0) Engine.new_ModbusRTU
                AsciiPort.new_AsciiBufferedPort 1 0 1 (Some 0%nat) (Some 1)
                H1 H2 H3 (or_introl eq_refl) (or_intror H4)) as [Hlen Hport].
  split; [repeat split; lia |]. split; [exact H4 |].
  split; [exact Hlen | exact (Hport H4)].
Defined.

(** ** The ASCII transcoder *)

Lemma string_bytes_app s1 s2 :
  string_bytes (s1 ++ s2) = string_bytes s1 ++ string_bytes s2.
Proof. induction s1 as [|c s1 IH]; simpl; [| rewrite IH]; reflexivity. Qed.

Lemma string_bytes_length s : length (string_bytes s) = String.length s.
Proof. induction s as [|c s IH]; simpl; [| rewrite IH]; reflexivity. Qed.

(** [buf.write(s, offset)] replaces as many bytes as [s] has characters,
    when these are below 128 and fit. *)
Lemma write_at (s : string) (pre old post : Buffer) :
  Forall (fun x => x < 128) (string_bytes s) ->
  length old = String.length s ->
  Buffer.write (pre ++ old ++ post) s (length pre) = pre ++ string_bytes s ++ post.
Proof.
  revert pre old. induction s as [|c s IH]; intros pre old Hs Hlen.
  - destruct old; [reflexivity | discriminate].
  - destruct old as [|o old]; [discriminate |].
    simpl in Hs. apply Forall_cons in Hs as [Hc Hs]. injection Hlen as Hlen.
    cbn [Buffer.write string_bytes]. unfold Buffer.utf8.
    destruct (Z.ltb_spec (Z.of_N (N_of_ascii c)) 128) as [_ | ?]; [| lia].
    cbn [length]. 
    assert (Hfit : (length pre + 1 <=? length (pre ++ (o :: old) ++ post))%nat = true).
    { apply Nat.leb_le. rewrite length_app. simpl. lia. }
    rewrite Hfit, take_app_length.
    replace (drop (length pre + 1) (pre ++ (o :: old) ++ post)) with (old ++ post).
    2:{ rewrite drop_app_add'. reflexivity. reflexivity. }
    replace (length pre + 1)%nat with (length (pre ++ [Z.of_N (N_of_ascii c)]))
      by (rewrite length_app; reflexivity).
    replace (pre ++ [Z.of_N (N_of_ascii c)] ++ old ++ post)
      with ((pre ++ [Z.of_N (N_of_ascii c)]) ++ old ++ post)
      by (rewrite <- app_assoc; reflexivity).
    rewrite IH by assumption. rewrite <- app_assoc. reflexivity.
Qed.

(** Every byte: its digits are below 128, they are the upper-case form of
    what [toString('hex')] prints, and they parse back into the byte. *)
Lemma hex_byte b :
  0 <= b < 256 ->
  hi_code b < 128 /\ lo_code b < 128
  /\ Z.of_N (N_of_ascii (Js.upper (Buffer.hexdigit (b / 16)))) = hi_code b
  /\ Z.of_N (N_of_ascii (Js.upper (Buffer.hexdigit (b mod 16)))) = lo_code b
  /\ Buffer.unhex (ascii_of_N (Z.to_N (hi_code b))) = Some (b / 16)
  /\ Buffer.unhex (ascii_of_N (Z.to_N (lo_code b))) = Some (b mod 16).
Proof. revert b. check_all_bytes. Qed.

Lemma hex_upper_bytes (frame : Buffer) :
  string_bytes (hex_upper frame) = flat_map (fun b => [hi_code b; lo_code b]) frame.
Proof. induction frame as [|b frame IH]; simpl; [| rewrite IH]; reflexivity. Qed.

Lemma toHex_upper_bytes (frame : Buffer) :
  Buffer.wf frame ->
  string_bytes (Js.toUpperCase (Buffer.toHex frame)) = string_bytes (hex_upper frame).
Proof.
  induction 1 as [|b frame Hb _ IH]; [reflexivity |].
  destruct (hex_byte b Hb) as (_ & _ & Hhi & Hlo & _).
  cbn [Buffer.toHex Js.toUpperCase hex_upper string_bytes].
  rewrite Hhi, Hlo, IH. reflexivity.
Qed.

Lemma hex_upper_ascii (frame : Buffer) :
  Buffer.wf frame -> Forall (fun x => x < 128) (string_bytes (hex_upper frame)).
Proof.
  induction 1 as [|b frame Hb _ IH]; [constructor |].
  destruct (hex_byte b Hb) as (Hhi & Hlo & _).
  cbn [hex_upper string_bytes]. repeat constructor; assumption.
Qed.

Lemma hex_upper_length (frame : Buffer) :
  length (string_bytes (hex_upper frame)) = (2 * length frame)%nat.
Proof. induction frame as [|b frame IH]; simpl; [| rewrite IH]; lia. Qed.

Lemma toHex_length (frame : Buffer) :
  String.length (Js.toUpperCase (Buffer.toHex frame)) = (2 * length frame)%nat.
Proof. induction frame as [|b frame IH]; simpl; [| rewrite IH]; lia. Qed.

Lemma spec_encodeAscii_wire frame : spec_encodeAscii frame = wire_of frame.
Proof.
  unfold spec_encodeAscii, wire_of. rewrite !string_bytes_app. reflexivity.
Qed.

(** The four writes of [asciiEncodeRequestBuffer], on whatever the new
    buffer holds. *)
Lemma encode_writes (frame fresh : Buffer) :
  Buffer.wf frame ->
  length fresh = (2 * length frame + 3)%nat ->
  (let bufAscii := Buffer.write fresh AsciiPort.colon 0 in
   let bufAscii := Buffer.write bufAscii (Js.toUpperCase (Buffer.toHex frame)) 1 in
   let bufAscii := Buffer.write bufAscii AsciiPort.cr (length bufAscii - 2) in
   let bufAscii := Buffer.write bufAscii AsciiPort.lf (length bufAscii - 1) in
   bufAscii) = wire_of frame.
Proof.
  intros Hwf Hlen.
  destruct fresh as [|j0 rest]; [simpl in Hlen; lia |].
  assert (Hrest : rest = take (2 * length frame) rest
                         ++ drop (2 * length frame) rest)
    by (symmetry; apply take_drop).
  destruct (drop (2 * length frame) rest) as [|p0 [|p1 [|p2 tl]]] eqn:Hdrop;
    apply (f_equal length) in Hdrop; rewrite length_drop in Hdrop;
    simpl in Hlen, Hdrop; try lia.
  set (mid := take (2 * length frame) rest) in *.
  assert (Hmid : length mid = (2 * length frame)%nat)
    by (unfold mid; rewrite length_take; simpl in Hlen; lia).
  rewrite Hrest. clear Hrest Hdrop.
  set (hex := string_bytes (hex_upper frame)).
  assert (Hhex : length hex = (2 * length frame)%nat) by apply hex_upper_length.
  cbv zeta.
  (* ':' *)
  assert (E1 : Buffer.write (j0 :: mid ++ [p0; p1]) AsciiPort.colon 0
               = [58] ++ mid ++ [p0; p1]).
  { apply (write_at AsciiPort.colon [] [j0] (mid ++ [p0; p1]));
      [repeat constructor | reflexivity]. }
  rewrite E1.
  (* the digits *)
  assert (E2 : Buffer.write ([58] ++ mid ++ [p0; p1])
                 (Js.toUpperCase (Buffer.toHex frame)) 1
               = [58] ++ hex ++ [p0; p1]).
  { rewrite (write_at _ [58] mid [p0; p1]).
    - rewrite toHex_upper_bytes by exact Hwf. reflexivity.
    - rewrite toHex_upper_bytes by exact Hwf. apply hex_upper_ascii, Hwf.
    - rewrite toHex_length. exact Hmid. }
  rewrite E2.
  (* '\r' *)
  assert (L3 : Nat.sub (length ([58] ++ hex ++ [p0; p1])) 2 = length ([58] ++ hex))
    by (rewrite !length_app; simpl; lia).
  rewrite L3.
  assert (E3 : Buffer.write ([58] ++ hex ++ [p0; p1]) AsciiPort.cr
                 (length ([58] ++ hex))
               = ([58] ++ hex) ++ [13] ++ [p1]).
  { replace ([58] ++ hex ++ [p0; p1]) with (([58] ++ hex) ++ [p0] ++ [p1])
      by (rewrite <- !app_assoc; reflexivity).
    apply write_at; [repeat constructor | reflexivity]. }
  rewrite E3.
  (* '\n' *)
  assert (L4 : Nat.sub (length (([58] ++ hex) ++ [13] ++ [p1])) 1
               = length (([58] ++ hex) ++ [13]))
    by (rewrite !length_app; simpl; lia).
  rewrite L4.
  replace (([58] ++ hex) ++ [13] ++ [p1]) with ((([58] ++ hex) ++ [13]) ++ [p1] ++ [])
    by (rewrite <- !app_assoc; reflexivity).
  rewrite write_at by (repeat constructor || reflexivity).
  unfold wire_of. fold hex. rewrite <- !app_assoc. reflexivity.
Qed.

Lemma alloc_length mem n : length (Buffer.alloc mem n) = Z.to_nat n.
Proof. unfold Buffer.alloc. rewrite length_map, length_seq. reflexivity. Qed.

Lemma asciiEncodeRequestBuffer_wire mem frame :
  Buffer.wf frame -> AsciiPort.asciiEncodeRequestBuffer mem frame = wire_of frame.
Proof.
  intros Hwf. unfold AsciiPort.asciiEncodeRequestBuffer.
  apply encode_writes; [exact Hwf |].
  rewrite alloc_length. unfold Buffer.len. lia.
Qed.

Lemma halves_floor (a : Z) : Qfloor (inject_Z a / 2) = a / 2.
Proof. change 2%Q with (inject_Z 2). symmetry. apply Zdiv_Qdiv. Qed.

Lemma halves_ceiling (a : Z) : Qceiling (inject_Z a / 2) = (a + 1) / 2.
Proof.
  unfold Qceiling. change 2%Q with (inject_Z 2).
  assert (E : (- (inject_Z a / inject_Z 2) == inject_Z (- a) / inject_Z 2)%Q)
    by (rewrite inject_Z_opp; field).
  rewrite (Qfloor_comp _ _ E), <- Zdiv_Qdiv.
  pose proof (Z.div_mod (- a) 2). pose proof (Z.mod_pos_bound (- a) 2).
  pose proof (Z.div_mod (a + 1) 2). pose proof (Z.mod_pos_bound (a + 1) 2).
  lia.
Qed.

Lemma hex_pairs_lookup (frame : Buffer) (k : nat) (b : Z) :
  frame !! k = Some b ->
  flat_map (fun b => [hi_code b; lo_code b]) frame !! (2 * k)%nat = Some (hi_code b)
  /\ flat_map (fun b => [hi_code b; lo_code b]) frame !! S (2 * k) = Some (lo_code b).
Proof.
  revert k. induction frame as [|x frame IH]; intros k Hk; [discriminate |].
  destruct k as [|k]; simpl in Hk.
  - injection Hk as ->. split; reflexivity.
  - replace (2 * S k)%nat with (S (S (2 * k))) by lia. simpl. apply IH, Hk.
Qed.

Lemma wire_lookup (frame : Buffer) (k : nat) (b : Z) :
  frame !! k = Some b ->
  wire_of frame !! S (2 * k) = Some (hi_code b)
  /\ wire_of frame !! S (S (2 * k)) = Some (lo_code b).
Proof.
  intros Hk. unfold wire_of. rewrite hex_upper_bytes.
  destruct (hex_pairs_lookup frame k b Hk) as [Hhi Hlo].
  split; simpl; apply lookup_app_l_Some; assumption.
Qed.

Lemma wire_length (frame : Buffer) :
  Buffer.len (wire_of frame) = 2 * Buffer.len frame + 3.
Proof.
  unfold wire_of, Buffer.len. rewrite !length_app, hex_upper_length. simpl. lia.
Qed.

(** One turn of the decoding loop on the wire form of a frame. *)
Lemma decode_pair_wire (frame decoded : Buffer) (k : nat) (b : Z) :
  Buffer.wf frame -> frame !! k = Some b ->
  AsciiPort.decode_pair (wire_of frame) (Ok decoded) k = Ok (<[k := b]> decoded).
Proof.
  intros Hwf Hk. unfold AsciiPort.decode_pair. cbn [mbind res_bind].
  destruct (wire_lookup frame k b Hk) as [Hhi Hlo].
  assert (Hb : 0 <= b < 256) by (apply (Forall_lookup_1 _ _ _ _ Hwf Hk)).
  assert (Hlt : (k < length frame)%nat) by (apply lookup_lt_Some in Hk; exact Hk).
  pose proof (wire_length frame) as Hlen. unfold Buffer.len in Hlen.
  rewrite (readUInt8_ok _ (Z.of_nat k * 2 + 1)) by (unfold Buffer.len; lia).
  cbn [mbind res_bind].
  rewrite (readUInt8_ok _ (Z.of_nat k * 2 + 2)) by (unfold Buffer.len; lia).
  cbn [mbind res_bind].
  replace (Z.to_nat (Z.of_nat k * 2 + 1)) with (S (2 * k)) by lia.
  replace (Z.to_nat (Z.of_nat k * 2 + 2)) with (S (S (2 * k))) by lia.
  rewrite Hhi, Hlo. cbn [default from_option id].
  unfold Js.fromCharCode2, Buffer.writeHex1.
  destruct (hex_byte b Hb) as (_ & _ & _ & _ & -> & ->).
  do 2 f_equal. pose proof (Z.div_mod b 16). lia.
Qed.

Lemma decode_turns (frame fresh : Buffer) (k : nat) :
  Buffer.wf frame -> length fresh = length frame -> (k <= length frame)%nat ->
  fold_left (AsciiPort.decode_pair (wire_of frame)) (seq 0 k) (Ok fresh)
  = Ok (take k frame ++ drop k fresh).
Proof.
  intros Hwf Hlen. induction k as [|k IH]; intros Hk.
  - rewrite drop_0. reflexivity.
  - rewrite seq_S, fold_left_app, IH by lia. cbn [fold_left Nat.add].
    destruct (frame !! k) as [b|] eqn:Hb; [| apply lookup_ge_None in Hb; lia].
    rewrite (decode_pair_wire frame _ k b Hwf Hb). f_equal.
    rewrite insert_app_r_alt by (rewrite length_take; lia).
    rewrite length_take. replace (k - k `min` length frame)%nat with 0%nat by lia.
    rewrite (take_S_r _ _ _ Hb), <- app_assoc. f_equal.
    destruct (drop k fresh) as [|x tl] eqn:Hd.
    + apply (f_equal length) in Hd. rewrite length_drop in Hd. simpl in Hd. lia.
    + simpl. f_equal.
      replace (S k) with (k + 1)%nat by lia. rewrite <- drop_drop, Hd. reflexivity.
Qed.

Lemma asciiDecodeResponseBuffer_wire mem frame :
  Buffer.wf frame ->
  AsciiPort.asciiDecodeResponseBuffer mem (wire_of frame) = Ok frame.
Proof.
  intros Hwf. unfold AsciiPort.asciiDecodeResponseBuffer. cbv zeta.
  rewrite halves_floor, halves_ceiling, wire_length.
  replace ((2 * Buffer.len frame + 3 - 3) / 2) with (Buffer.len frame)
    by (apply Z.div_unique_exact; lia).
  replace ((2 * Buffer.len frame + 3 - 3 + 1) / 2) with (Buffer.len frame)
    by (apply (Z.div_unique_pos _ _ _ 1); lia).
  unfold Buffer.len at 1. rewrite Nat2Z.id.
  rewrite decode_turns; [| exact Hwf | | lia].
  - rewrite firstn_all, drop_ge by (rewrite alloc_length; unfold Buffer.len; lia).
    rewrite app_nil_r. reflexivity.
  - rewrite alloc_length. unfold Buffer.len. lia.
Qed.

(** C8.  For every raw frame, decoding the encoded frame gives the frame
    back; the encoded frame is ':' followed by the upper-case hex of the
    frame followed by CR LF, and is exactly 2 * len(frame) + 3 bytes long.
    This holds whatever the memory of the two new buffers held. *)
Theorem ascii_roundtrip (mem mem' : nat -> Z) (frame : Buffer) :
  Buffer.wf frame ->
  AsciiPort.asciiDecodeResponseBuffer mem' (AsciiPort.asciiEncodeRequestBuffer mem frame)
  = Ok frame
  /\ AsciiPort.asciiEncodeRequestBuffer mem frame = spec_encodeAscii frame
  /\ Buffer.len (AsciiPort.asciiEncodeRequestBuffer mem frame)
     = 2 * Buffer.len frame + 3.
Proof.
  intros Hwf. rewrite asciiEncodeRequestBuffer_wire by exact Hwf.
  split; [apply asciiDecodeResponseBuffer_wire, Hwf |].
  split; [symmetry; apply spec_encodeAscii_wire | apply wire_length].
Qed.

Lemma ascii_roundtrip_witness :
  Buffer.wf [1; 5; 0; 1; 255; 0; 250]
  /\ AsciiPort.asciiDecodeResponseBuffer (fun _ => 0)
       (AsciiPort.asciiEncodeRequestBuffer (fun _ => 0) [1; 5; 0; 1; 255; 0; 250])
     = Ok [1; 5; 0; 1; 255; 0; 250]
  /\ AsciiPort.asciiEncodeRequestBuffer (fun _ => 0) [1; 5; 0; 1; 255; 0; 250]
     = spec_encodeAscii [1; 5; 0; 1; 255; 0; 250]
  /\ Buffer.len (AsciiPort.asciiEncodeRequestBuffer (fun _ => 0)
                   [1; 5; 0; 1; 255; 0; 250])
     = 2 * Buffer.len [1; 5; 0; 1; 255; 0; 250] + 3.
Proof.
  assert (Hwf : Buffer.wf [1; 5; 0; 1; 255; 0; 250])
    by (repeat constructor; unfold Buffer.byte; lia).
  split; [exact Hwf |].
  exact (ascii_roundtrip (fun _ => 0) (fun _ => 0) [1; 5; 0; 1; 255; 0; 250] Hwf).
Defined.

(** ** The field [_ascii] *)






(** ** Every request ends with an LRC *)














(** ** The requests in binary mode *)

(** C1 on the code.  With [_ascii] false, and on a new instance, every
    request is written with one LRC byte after its core, where the CRC16 of
    01 03 00 00 00 02 would be the two bytes C4 0B; with [_ascii] true,
    [_CRC16] is called on a buffer that has one byte after the core, and
    throws. *)
Lemma binary_requests_carry_lrc (mem : nat -> Z) :
  fst (Engine.writeFC3 mem 1 0 2 (Some 0%nat) binary_engine)
    = Ok [1; 3; 0; 0; 0; 2; 250]
  /\ fst (Engine.writeFC3 mem 1 0 2 (Some 0%nat) Engine.new_ModbusRTU)
    = Ok [1; 3; 0; 0; 0; 2; 250]
  /\ fst (Engine.writeFC1 mem 1 0 8 (Some 0%nat) binary_engine)
    = Ok [1; 1; 0; 0; 0; 8; 246]
  /\ fst (Engine.writeFC5 mem 17 1 true (Some 0%nat) binary_engine)
    = Ok [17; 5; 0; 1; 255; 0; 234]
  /\ fst (Engine.writeFC6 mem 1 2 3 (Some 0%nat) binary_engine)
    = Ok [1; 6; 0; 2; 0; 3; 244]
  /\ fst (Engine.writeFC16 mem 1 0 [10; 11] (Some 0%nat) binary_engine)
    = Ok [1; 16; 0; 0; 0; 2; 4; 0; 10; 0; 11; 212]
  /\ spec_lrc [1; 3; 0; 0; 0; 2] 6 = 250
  /\ Engine._CRC16 [1; 3; 0; 0; 0; 2; 0; 0] 6
     = Ok ([1; 3; 0; 0; 0; 2; 196; 11], 3012)
  /\ fst (Engine.writeFC3 mem 1 0 2 (Some 0%nat) ascii_engine) = Throw RangeError.
Proof. repeat split; vm_compute; reflexivity. Qed.

(** ** Reading registers *)

Lemma read_registers (data : Buffer) (n : nat) :
  2 * Z.of_nat n + 3 <= Buffer.len data ->
  fold_left (Engine.read_register data) (seq 0 n) (Ok [])
  = Ok (map (register_at data) (seq 0 n)).
Proof.
  induction n as [|n IH]; intros Hlen; [reflexivity |].
  rewrite seq_S, fold_left_app, IH, map_app by lia.
  cbn [fold_left map Nat.add]. unfold Engine.read_register. cbn [mbind res_bind].
  rewrite readUInt16BE_ok by lia. cbn [mbind res_bind].
  unfold register_at.
  replace (Z.to_nat (2 * Z.of_nat n + 3)) with (2 * n + 3)%nat by lia.
  replace (S (2 * n + 3)) with (2 * n + 4)%nat by lia. reflexivity.
Qed.

(** [_readFC4] takes byte 2 for the length of the payload in bytes and
    each pair of bytes after it, high byte first, for one register. *)
Lemma _readFC4_registers (data : Buffer) (next : option Engine.callback) (count : Z) :
  data !! 2%nat = Some count -> 0 <= count ->
  count + 1 + 3 <= Buffer.len data ->
  Engine._readFC4 data next =
  Ok (Engine.next_result next
        (Engine.Registers
           (map (register_at data) (seq 0 (Z.to_nat ((count + 1) / 2))))
           (Buffer.slice data 3 (3 + count)))).
Proof.
  intros Hc H0 Hlen. unfold Engine._readFC4.
  rewrite (readUInt8_ok _ 2) by lia. change (Z.to_nat 2) with 2%nat.
  rewrite Hc. cbn [default from_option id mbind res_bind].
  rewrite read_registers; [reflexivity |].
  pose proof (Z.div_mod (count + 1) 2). pose proof (Z.mod_pos_bound (count + 1) 2).
  lia.
Qed.

(** C9 on the code.  In binary mode the request of scenario 1 is written
    as 01 03 00 00 00 02 FA, with the LRC where the CRC16 C4 0B belongs,
    and the engine expects 8 bytes: the response with its CRC16, 9 bytes,
    is answered with a data length error and is not decoded.  The parser
    itself delivers [10, 11] for that response. *)
Lemma scenario_1_in_binary_mode (mem : nat -> Z) :
  Engine.writeFC3 mem 1 0 2 (Some 0%nat) binary_engine
    = (Ok [1; 3; 0; 0; 0; 2; 250], binary_awaiting_registers)
  /\ Engine._nextLength binary_awaiting_registers = 8
  /\ Engine._CRC16 [1; 3; 4; 0; 10; 0; 11; 0; 0] 7
     = Ok ([1; 3; 4; 0; 10; 0; 11; 155; 246], 63131)
  /\ Engine.handle binary_awaiting_registers [1; 3; 4; 0; 10; 0; 11; 155; 246]
     = (Ok tt,
        {| Engine.modbus := binary_awaiting_registers;
           Engine.data := [1; 3; 4; 0; 10; 0; 11; 155; 246];
           Engine.calls := [Engine.CallError 0 (Engine.DataLengthError 8 9)] |})
  /\ Engine._readFC4 [1; 3; 4; 0; 10; 0; 11; 155; 246] (Some 0%nat)
     = Ok [Engine.CallResult 0 (Engine.Registers [10; 11] [0; 10; 0; 11])].
Proof. repeat split; vm_compute; reflexivity. Qed.

(** ** The reassembler of the ASCII port *)

(** The loop body leaves [i] where it was, or moves it by [length]. *)
Lemma check_chunk_moves mem length i w i' w' :
  AsciiPort.check_chunk mem length i w = (Ok i', w') -> i' = i \/ i' = i + length.
Proof.
  unfold AsciiPort.check_chunk, mbind, M_bind, get, lift, AsciiPort.emit, modify,
    mret, M_ret.
  intros H. repeat case_match; simplify_eq; auto.
Qed.

(** The turns that the handler allows are enough for the loop to end. *)
Lemma scan_ends mem turns bufferLength length i w :
  0 <= length -> bufferLength - length + 1 - i <= Z.of_nat turns ->
  AsciiPort.scan mem turns bufferLength length i w <> None.
Proof.
  intros Hl. revert i w. induction turns as [|turns IH]; intros i w Hi.
  - cbn [AsciiPort.scan]. destruct (Z.ltb_spec i (bufferLength - length + 1));
      [lia | discriminate].
  - cbn [AsciiPort.scan]. destruct (Z.ltb_spec i (bufferLength - length + 1));
      [| discriminate].
    destruct (AsciiPort.check_chunk mem length i w) as [[i'|e] w'] eqn:Hc;
      [| discriminate].
    apply check_chunk_moves in Hc. apply IH. lia.
Qed.

Lemma on_data_returns mem data w : AsciiPort.on_data mem data w <> None.
Proof.
  unfold AsciiPort.on_data. cbv zeta. cbn [AsciiPort.port AsciiPort.emitted].
  destruct (_ || _) eqn:Hsmall; [discriminate |].
  apply orb_false_iff in Hsmall as [Hb Hl].
  apply Z.ltb_ge in Hb, Hl.
  match goal with
  | |- context [AsciiPort.scan mem ?t ?b ?l 0 ?w0] =>
      pose proof (scan_ends mem t b l 0 w0) as Hscan;
      destruct (AsciiPort.scan mem t b l 0 w0) as [[[i|e] w']|]
  end; try discriminate.
  exfalso. apply Hscan; [ | | reflexivity].
  - cbn [AsciiPort._length AsciiPort.set_buffer] in *. lia.
  - cbn [AsciiPort._length AsciiPort.set_buffer AsciiPort._buffer] in *.
    unfold Buffer.len in *. lia.
Qed.

(** The handler does not scan and does not trim while the buffer holds
    fewer than 6 bytes or the expected length is below 6. *)
Lemma on_data_waits mem data w :
  Buffer.len (AsciiPort._buffer (AsciiPort.port w) ++ data) < 6
  \/ AsciiPort._length (AsciiPort.port w) < 6 ->
  AsciiPort.on_data mem data w =
  Some (Ok tt,
        {| AsciiPort.port :=
             AsciiPort.set_buffer (AsciiPort._buffer (AsciiPort.port w) ++ data)
               (AsciiPort.port w);
           AsciiPort.emitted := AsciiPort.emitted w |}).
Proof.
  intros Hsmall. unfold AsciiPort.on_data, Buffer.concat. cbv zeta.
  cbn [AsciiPort.port AsciiPort.emitted AsciiPort._length AsciiPort._buffer
       AsciiPort.set_buffer].
  destruct (Z.ltb_spec (Buffer.len (AsciiPort._buffer (AsciiPort.port w) ++ data)) 6),
    (Z.ltb_spec (AsciiPort._length (AsciiPort.port w)) 6);
    try reflexivity.
  lia.
Qed.

(** C6 on the code.  Two valid frames arrive back to back in one chunk.
    The scan emits the first, steps over position 17 (after a match [i]
    is set to the end of the chunk and the loop then adds one), and the
    18 bytes up to there are discarded: position 17, the ':' of the second
    frame, is discarded although the 17 bytes from it validate against the
    same expectations.  The second frame is never emitted. *)
Lemma back_to_back_frames_lose_the_second (mem : nat -> Z) :
  AsciiPort._length port_awaiting_echo = 17
  /\ AsciiPort.on_data mem (coil_echo_wire ++ coil_echo_wire)
       {| AsciiPort.port := port_awaiting_echo; AsciiPort.emitted := [] |}
     = Some (Ok tt,
             {| AsciiPort.port :=
                  AsciiPort.set_buffer (drop 18 (coil_echo_wire ++ coil_echo_wire))
                    port_awaiting_echo;
                AsciiPort.emitted := [coil_echo] |})
  /\ Buffer.slice (coil_echo_wire ++ coil_echo_wire) 17 (17 + 17) = coil_echo_wire
  /\ AsciiPort.asciiDecodeResponseBuffer mem coil_echo_wire = Ok coil_echo
  /\ AsciiPort.checkData port_awaiting_echo coil_echo = Ok true
  /\ AsciiPort.on_data mem []
       {| AsciiPort.port :=
            AsciiPort.set_buffer (drop 18 (coil_echo_wire ++ coil_echo_wire))
              port_awaiting_echo;
          AsciiPort.emitted := [coil_echo] |}
     = Some (Ok tt,
             {| AsciiPort.port :=
                  AsciiPort.set_buffer (drop 18 (coil_echo_wire ++ coil_echo_wire))
                    port_awaiting_echo;
                AsciiPort.emitted := [coil_echo] |}).
Proof. repeat split; vm_compute; reflexivity. Qed.

(** ** Bit operations on a buffer *)

Lemma byte_offset_value (bit offset : Z) :
  0 <= bit -> 0 <= offset -> byte_position bit offset < 2 ^ 32 ->
  BufferBit.ToUint32 (inject_Z bit / 8 + inject_Z offset) = byte_position bit offset.
Proof.
  intros Hb Ho Hk. unfold BufferBit.ToUint32, BufferBit.truncate, byte_position in *.
  assert (E : (inject_Z bit / 8 + inject_Z offset
               == inject_Z (bit + 8 * offset) / inject_Z 8)%Q).
  { rewrite inject_Z_plus, inject_Z_mult. change (inject_Z 8) with 8%Q. field. }
  assert (Hpos : Qle_bool 0 (inject_Z bit / 8 + inject_Z offset) = true).
  { apply Qle_bool_iff. rewrite E. apply Qle_shift_div_l; [reflexivity |].
    rewrite Qmult_0_l. change 0%Q with (inject_Z 0). rewrite <- Zle_Qle. lia. }
  rewrite Hpos, (Qfloor_comp _ _ E), <- Zdiv_Qdiv.
  replace ((bit + 8 * offset) / 8) with (bit / 8 + offset).
  - apply Z.mod_small. split; [| lia].
    pose proof (Z.div_pos bit 8). lia.
  - rewrite (Z.add_comm bit), (Z.mul_comm 8), Z.div_add_l by lia. lia.
Qed.






Lemma wf_insert (buf : Buffer) (i : nat) (x : Z) :
  Buffer.wf buf -> 0 <= x < 256 -> Buffer.wf (<[i := x]> buf).
Proof. intros Hwf Hx. apply Forall_insert; assumption. Qed.





Lemma readUInt8_out buf offset :
  Buffer.len buf <= offset -> Buffer.readUInt8 buf offset = Throw RangeError.
Proof.
  intros H. unfold Buffer.readUInt8, Buffer.checkOffset.
  destruct (Z.ltb_spec offset 0); [reflexivity |].
  destruct (Z.gtb_spec (offset + 1) (Buffer.len buf)); [reflexivity | lia].
Qed.

(** X3.  A bit whose byte lies after the end of the buffer is neither read
    nor written: both operations throw a RangeError.  In particular every
    bit operation on an empty buffer throws. *)
Theorem bit_beyond_buffer (this : Buffer) (value : bool) (bit offset : Z) :
  0 <= bit -> 0 <= offset ->
  Buffer.len this <= byte_position bit offset < 2 ^ 32 ->
  BufferBit.readBit this bit offset = Throw RangeError
  /\ BufferBit.writeBit this value bit offset = Throw RangeError.
Proof.
  intros Hbit Hoff Hk. unfold BufferBit.readBit, BufferBit.writeBit. cbv zeta.
  rewrite byte_offset_value by (assumption || lia).
  rewrite readUInt8_out by lia. split; reflexivity.
Qed.

Lemma bit_beyond_buffer_witness :
  BufferBit.readBit [] 0 0 = Throw RangeError
  /\ BufferBit.writeBit [] true 0 0 = Throw RangeError.
Proof.
  apply (bit_beyond_buffer [] true 0 0); [lia | lia |].
  vm_compute. split; [discriminate | reflexivity].
Defined.



(** ** More on the CRC16 *)

Lemma fold_left_agree {A B} (f g : A -> B -> A) (l : list B) (a : A) :
  (forall a b, b ∈ l -> f a b = g a b) -> fold_left f l a = fold_left g l a.
Proof.
  revert a. induction l as [|b l IH]; intros a H; [reflexivity |].
  cbn [fold_left]. rewrite (H a b) by left. apply IH.
  intros a' b' Hb'. apply H. right. exact Hb'.
Qed.

Lemma crc_step_agree (buf buf' : Buffer) (crc : Z) (i : nat) :
  buf !! i = buf' !! i -> Engine.crc_step buf crc i = Engine.crc_step buf' crc i.
Proof. intros H. unfold Engine.crc_step. rewrite H. reflexivity. Qed.

(** The CRC16 of [buf[0..length)] looks at no byte from [length] on. *)
Lemma crc16_loop_prefix (buf buf' : Buffer) (length : Z) :
  take (Z.to_nat length) buf = take (Z.to_nat length) buf' ->
  Engine.crc16_loop buf length = Engine.crc16_loop buf' length.
Proof.
  intros Ht. unfold Engine.crc16_loop. apply fold_left_agree.
  intros a i Hi. apply crc_step_agree.
  apply elem_of_seq in Hi.
  rewrite <- (lookup_take_lt buf (Z.to_nat length) i) by lia.
  rewrite <- (lookup_take_lt buf' (Z.to_nat length) i) by lia.
  rewrite Ht. reflexivity.
Qed.

(** Eight shifts of a value whose low byte is zero bring its high byte
    down and apply the polynomial nowhere. *)
Lemma shifts_of_high_byte (h : Z) :
  0 <= h < 256 -> Nat.iter 8 Engine.crc_shift (256 * h) = h.
Proof. revert h. check_all_bytes. Qed.

Lemma lxor_low_byte (c : Z) : 0 <= c -> Z.lxor c (c mod 256) = 256 * (c / 256).
Proof.
  intros Hc. apply Z.bits_inj'. intros i Hi.
  change 256 with (2 ^ 8). rewrite Z.lxor_spec, Z.testbit_mod_pow2 by lia.
  rewrite Z.mul_comm, Z.mul_pow2_bits by lia.
  destruct (Z.ltb_spec i 8).
  - rewrite (Z.testbit_neg_r _ (i - 8)) by lia. cbn [andb]. apply xorb_nilpotent.
  - rewrite Z.div_pow2_bits by lia. cbn [andb]. rewrite xorb_false_r.
    f_equal. lia.
Qed.

Lemma bxorv_small (c b : Z) :
  0 <= c < 2 ^ 16 -> 0 <= b < 256 -> Js.bxorv c (Some b) = Z.lxor c b.
Proof.
  intros Hc Hb. unfold Js.bxorv, Js.ToInt32v.
  rewrite !ToInt32_small by lia. reflexivity.
Qed.

(** X5.  The CRC16 of a frame followed by its own CRC16, low byte first,
    is zero. *)
Theorem crc16_of_sealed_frame_is_zero (core : Buffer) :
  Buffer.wf core ->
  Engine.crc16_loop
    (core ++ [Engine.crc16_loop core (Buffer.len core) mod 256;
              Engine.crc16_loop core (Buffer.len core) / 256])
    (Buffer.len core + 2) = 0.
Proof.
  intros Hwf.
  pose proof (crc16_loop_bound core (Buffer.len core) Hwf) as Hc.
  set (c := Engine.crc16_loop core (Buffer.len core)) in *.
  assert (Hlo : 0 <= c mod 256 < 256) by (apply Z.mod_pos_bound; lia).
  assert (Hhi : 0 <= c / 256 < 256)
    by (split; [apply Z.div_pos; lia | apply Z.div_lt_upper_bound; lia]).
  assert (Hpre : Engine.crc16_loop (core ++ [c mod 256; c / 256]) (Buffer.len core) = c).
  { unfold c. apply crc16_loop_prefix. unfold Buffer.len. rewrite Nat2Z.id.
    rewrite take_app_length, firstn_all. reflexivity. }
  unfold Engine.crc16_loop in *.
  replace (Z.to_nat (Buffer.len core + 2)) with (S (S (length core)))
    by (unfold Buffer.len; lia).
  unfold Buffer.len in Hpre. rewrite Nat2Z.id in Hpre.
  rewrite !seq_S, !fold_left_app, Hpre. cbn [fold_left Nat.add].
  unfold Engine.crc_step at 2.
  rewrite (lookup_app_r core) by lia.
  replace (length core - length core)%nat with 0%nat by lia.
  cbn [lookup list_lookup].
  rewrite bxorv_small, lxor_low_byte, shifts_of_high_byte by lia.
  unfold Engine.crc_step.
  rewrite (lookup_app_r core) by lia.
  replace (S (length core) - length core)%nat with 1%nat by lia.
  cbn [lookup list_lookup].
  rewrite bxorv_small, Z.lxor_nilpotent by lia.
  vm_compute. reflexivity.
Qed.

Lemma crc16_of_sealed_frame_is_zero_witness :
  Engine.crc16_loop
    ([1; 3; 0; 0; 0; 2]
     ++ [Engine.crc16_loop [1; 3; 0; 0; 0; 2] (Buffer.len [1; 3; 0; 0; 0; 2]) mod 256;
         Engine.crc16_loop [1; 3; 0; 0; 0; 2] (Buffer.len [1; 3; 0; 0; 0; 2]) / 256])
    (Buffer.len [1; 3; 0; 0; 0; 2] + 2) = 0.
Proof.
  apply crc16_of_sealed_frame_is_zero.
  repeat constructor; unfold Buffer.byte; lia.
Defined.

(** X6.  A buffer that [_CRC16] has sealed passes the CRC check of the
    handler, which leaves it as it is and calls nothing. *)
Theorem sealed_frame_passes_crc_check
  (buf : Buffer) (length : Z) (next : option Engine.callback)
  (m : Engine.ModbusRTU) (calls : list Engine.call) :
  Buffer.wf buf -> 0 <= length -> Buffer.len buf = length + 2 ->
  exists sealed crc,
    Engine._CRC16 buf length = Ok (sealed, crc)
    /\ Engine.check_crc (Buffer.len sealed) next
         {| Engine.modbus := m; Engine.data := sealed; Engine.calls := calls |}
       = (Ok true,
          {| Engine.modbus := m; Engine.data := sealed; Engine.calls := calls |}).
Proof.
  intros Hwf H0 Hlen.
  pose proof (crc16_loop_bound buf length Hwf) as Hc.
  set (c := Engine.crc16_loop buf length) in *.
  set (sealed := <[Z.to_nat (length + 1) := c / 256]>
                   (<[Z.to_nat length := c mod 256]> buf)).
  assert (Hseal : Engine._CRC16 buf length = Ok (sealed, c))
    by (apply _CRC16_ok; (assumption || lia)).
  exists sealed, c. split; [exact Hseal |].
  assert (Hlo : 0 <= c mod 256 < 256) by (apply Z.mod_pos_bound; lia).
  assert (Hhi : 0 <= c / 256 < 256)
    by (split; [apply Z.div_pos; lia | apply Z.div_lt_upper_bound; lia]).
  assert (Hslen : Buffer.len sealed = length + 2)
    by (unfold sealed, Buffer.len; rewrite !length_insert; exact Hlen).
  assert (Hswf : Buffer.wf sealed)
    by (unfold sealed; apply wf_insert; [apply wf_insert |]; assumption).
  assert (Hl0 : sealed !! Z.to_nat length = Some (c mod 256)).
  { unfold sealed. rewrite list_lookup_insert_ne by lia.
    apply list_lookup_insert_eq. unfold Buffer.len in Hlen. lia. }
  assert (Hl1 : sealed !! S (Z.to_nat length) = Some (c / 256)).
  { unfold sealed. replace (Z.to_nat (length + 1)) with (S (Z.to_nat length)) by lia.
    apply list_lookup_insert_eq. rewrite length_insert.
    unfold Buffer.len in Hlen. lia. }
  assert (Hcrc : Engine.crc16_loop sealed length = c).
  { unfold c. apply crc16_loop_prefix. unfold sealed.
    rewrite !take_insert_ge by lia. reflexivity. }
  rewrite check_crc_unfold. cbn [Engine.data Engine.modbus Engine.calls].
  rewrite Hslen. replace (length + 2 - 2) with length by lia.
  unfold Buffer.readUInt16LE.
  assert (Hco : Buffer.checkOffset length 2 sealed = Ok tt)
    by (apply checkOffset_ok; lia).
  rewrite Hco. cbn [mbind res_bind].
  rewrite !get_lookup by lia.
  replace (Z.to_nat (length + 1)) with (S (Z.to_nat length)) by lia.
  rewrite Hl0, Hl1. cbn [default from_option id].
  rewrite _CRC16_ok, Hcrc by (assumption || lia).
  replace (c mod 256 + c / 256 * 256) with c by (pose proof (Z.div_mod c 256); lia).
  rewrite Z.eqb_refl.
  replace (Z.to_nat (length + 1)) with (S (Z.to_nat length)) by lia.
  rewrite (list_insert_id _ _ _ Hl0), (list_insert_id _ _ _ Hl1). reflexivity.
Qed.

Lemma sealed_frame_passes_crc_check_witness :
  exists sealed crc,
    Engine._CRC16 [1; 3; 0; 0; 0; 2; 0; 0] 6 = Ok (sealed, crc)
    /\ Engine.check_crc (Buffer.len sealed) None
         {| Engine.modbus := binary_engine; Engine.data := sealed;
            Engine.calls := [] |}
       = (Ok true,
          {| Engine.modbus := binary_engine; Engine.data := sealed;
             Engine.calls := [] |}).
Proof.
  apply (sealed_frame_passes_crc_check [1; 3; 0; 0; 0; 2; 0; 0] 6 None
           binary_engine []).
  - repeat constructor; unfold Buffer.byte; lia.
  - lia.
  - vm_compute. reflexivity.
Defined.

(** One shift loses nothing of a 16-bit value: the bit shifted out shows
    in bit 15 of the result. *)
Lemma crc_shift_cases (x : Z) :
  0 <= x < 2 ^ 16 ->
  (x mod 2 = 0 /\ Engine.crc_shift x = x / 2)
  \/ (x mod 2 = 1 /\ Engine.crc_shift x = Z.lxor (x / 2) 40961).
Proof.
  intros Hx. unfold Engine.crc_shift, Js.band, Js.shr, Js.bxor.
  rewrite (ToInt32_small x), (ToInt32_small 1) by lia.
  change (1 mod 32) with 1. rewrite Z.shiftr_div_pow2 by lia. change (2 ^ 1) with 2.
  replace (Z.land x 1) with (x mod 2)
    by (symmetry; apply (Z.land_ones x 1); lia).
  assert (0 <= x / 2 < 2 ^ 15)
    by (split; [apply Z.div_pos; lia | apply Z.div_lt_upper_bound; lia]).
  pose proof (Z.mod_pos_bound x 2).
  destruct (Z.eqb_spec (x mod 2) 0); [left; auto |].
  right. rewrite (ToInt32_small (x / 2)), (ToInt32_small 40961) by lia.
  split; [lia | reflexivity].
Qed.

Lemma top_bit_of_xor (a : Z) : 0 <= a < 2 ^ 15 -> Z.lxor a 40961 / 2 ^ 15 = 1.
Proof.
  intros Ha. rewrite <- Z.shiftr_div_pow2, Z.shiftr_lxor by lia.
  rewrite !Z.shiftr_div_pow2 by lia. rewrite (Z.div_small a) by lia.
  reflexivity.
Qed.

Lemma lxor_cancel_r (a b k : Z) : Z.lxor a k = Z.lxor b k -> a = b.
Proof.
  intros H. apply (f_equal (fun z => Z.lxor z k)) in H.
  rewrite !Z.lxor_assoc, Z.lxor_nilpotent, !Z.lxor_0_r in H. exact H.
Qed.

Lemma lxor_cancel_l (k a b : Z) : Z.lxor k a = Z.lxor k b -> a = b.
Proof. rewrite !(Z.lxor_comm k). apply lxor_cancel_r. Qed.

Lemma crc_shift_inj (x y : Z) :
  0 <= x < 2 ^ 16 -> 0 <= y < 2 ^ 16 ->
  Engine.crc_shift x = Engine.crc_shift y -> x = y.
Proof.
  intros Hx Hy H.
  assert (Hx2 : 0 <= x / 2 < 2 ^ 15)
    by (split; [apply Z.div_pos; lia | apply Z.div_lt_upper_bound; lia]).
  assert (Hy2 : 0 <= y / 2 < 2 ^ 15)
    by (split; [apply Z.div_pos; lia | apply Z.div_lt_upper_bound; lia]).
  pose proof (Z.div_mod x 2). pose proof (Z.div_mod y 2).
  destruct (crc_shift_cases x Hx) as [[Px Ex] | [Px Ex]],
    (crc_shift_cases y Hy) as [[Py Ey] | [Py Ey]];
    rewrite Ex, Ey in H.
  - lia.
  - apply (f_equal (fun z => z / 2 ^ 15)) in H.
    rewrite top_bit_of_xor, Z.div_small in H by lia. discriminate.
  - apply (f_equal (fun z => z / 2 ^ 15)) in H.
    rewrite top_bit_of_xor, Z.div_small in H by lia. discriminate.
  - apply lxor_cancel_r in H. lia.
Qed.

Lemma shifts_inj (n : nat) (x y : Z) :
  0 <= x < 2 ^ 16 -> 0 <= y < 2 ^ 16 ->
  Nat.iter n Engine.crc_shift x = Nat.iter n Engine.crc_shift y -> x = y.
Proof.
  intros Hx Hy. induction n as [|n IH]; [auto |].
  cbn [Nat.iter]. intros H. apply IH. apply crc_shift_inj; [| | exact H].
  - clear H IH. induction n as [|n IHn]; [exact Hx |].
    cbn [Nat.iter]. apply crc_shift_bound, IHn.
  - clear H IH. induction n as [|n IHn]; [exact Hy |].
    cbn [Nat.iter]. apply crc_shift_bound, IHn.
Qed.

Lemma crc_step_value (buf : Buffer) (c : Z) (i : nat) :
  Buffer.wf buf -> 0 <= c < 2 ^ 16 ->
  Engine.crc_step buf c i = Nat.iter 8 Engine.crc_shift (Z.lxor c (default 0 (buf !! i)))
  /\ 0 <= Z.lxor c (default 0 (buf !! i)) < 2 ^ 16.
Proof.
  intros Hwf Hc. pose proof (wf_lookup buf i Hwf) as Hb.
  unfold Engine.crc_step.
  destruct (buf !! i) as [b|]; cbn [default from_option id] in *.
  - rewrite bxorv_small by lia. split; [reflexivity | apply lxor_bound; lia].
  - unfold Js.bxorv, Js.ToInt32v. rewrite ToInt32_small by lia. 
    split; [reflexivity | rewrite Z.lxor_0_r; lia].
Qed.

Lemma fold_left_step {A B} (f : A -> B -> A) (b : B) (l : list B) (a : A) :
  fold_left f (b :: l) a = fold_left f l (f a b).
Proof. reflexivity. Qed.

(** One turn of the CRC16 loop loses nothing of the register. *)
Lemma crc_step_inj (buf : Buffer) (j : nat) (c c' : Z) :
  Buffer.wf buf -> 0 <= c < 2 ^ 16 -> 0 <= c' < 2 ^ 16 ->
  Engine.crc_step buf c j = Engine.crc_step buf c' j -> c = c'.
Proof.
  intros Hwf Hc Hc' H.
  destruct (crc_step_value buf c j Hwf Hc) as [E Hb].
  destruct (crc_step_value buf c' j Hwf Hc') as [E' Hb'].
  rewrite E, E' in H.
  apply (shifts_inj 8 _ _ Hb Hb') in H.
  exact (lxor_cancel_r _ _ _ H).
Qed.

(** Nor of the byte it takes in. *)
Lemma crc_step_byte_inj (buf buf' : Buffer) (j : nat) (c : Z) :
  Buffer.wf buf -> Buffer.wf buf' -> 0 <= c < 2 ^ 16 ->
  Engine.crc_step buf c j = Engine.crc_step buf' c j ->
  default 0 (buf !! j) = default 0 (buf' !! j).
Proof.
  intros Hwf Hwf' Hc H.
  destruct (crc_step_value buf c j Hwf Hc) as [E Hb].
  destruct (crc_step_value buf' c j Hwf' Hc) as [E' Hb'].
  rewrite E, E' in H.
  apply (shifts_inj 8 _ _ Hb Hb') in H.
  exact (lxor_cancel_l _ _ _ H).
Qed.

(** Two different CRC registers stay different over bytes that agree. *)
Lemma crc_steps_stay_apart (buf buf' : Buffer) (l : list nat) (c c' : Z) :
  Buffer.wf buf -> Buffer.wf buf' ->
  (forall j, j ∈ l -> buf !! j = buf' !! j) ->
  0 <= c < 2 ^ 16 -> 0 <= c' < 2 ^ 16 -> c <> c' ->
  fold_left (Engine.crc_step buf) l c <> fold_left (Engine.crc_step buf') l c'.
Proof.
  intros Hwf Hwf'. revert c c'.
  induction l as [|j l IH]; intros c c' Hl Hc Hc' Hne; [exact Hne |].
  rewrite !fold_left_step. apply IH.
  - intros k Hk. apply Hl. right. exact Hk.
  - apply crc_step_bound; assumption.
  - apply crc_step_bound; assumption.
  - intros H. apply Hne.
    rewrite (crc_step_agree buf buf' c j (Hl j ltac:(left))) in H.
    exact (crc_step_inj buf' j c c' Hwf' Hc Hc' H).
Qed.

(** The CRC16 changes when one byte of the range it covers changes. *)
Lemma crc16_loop_one_byte (buf : Buffer) (length : Z) (i : nat) (b b' : Z) :
  Buffer.wf buf -> 0 <= b' < 256 ->
  (i < Z.to_nat length)%nat -> buf !! i = Some b -> b' <> b ->
  Engine.crc16_loop (<[i := b']> buf) length <> Engine.crc16_loop buf length.
Proof.
  intros Hwf Hb' Hi Hb Hne.
  assert (Hwf' : Buffer.wf (<[i := b']> buf)) by (apply wf_insert; assumption).
  assert (Hlt : (i < Datatypes.length buf)%nat) by (apply lookup_lt_Some in Hb; exact Hb).
  unfold Engine.crc16_loop.
  replace (Z.to_nat length) with (i + S (Z.to_nat length - S i))%nat by lia.
  rewrite seq_app, <- cons_seq, Nat.add_0_l, !fold_left_app, !fold_left_step.
  assert (Hpre : fold_left (Engine.crc_step (<[i := b']> buf)) (seq 0 i) 65535
                 = fold_left (Engine.crc_step buf) (seq 0 i) 65535).
  { apply fold_left_agree. intros a j Hj. apply elem_of_seq in Hj.
    apply crc_step_agree. apply list_lookup_insert_ne. lia. }
  rewrite Hpre.
  assert (Hc0 : 0 <= fold_left (Engine.crc_step buf) (seq 0 i) 65535 < 2 ^ 16)
    by (apply crc_steps_bound; [exact Hwf | lia]).
  generalize dependent (fold_left (Engine.crc_step buf) (seq 0 i) 65535).
  intros c0 _ Hc0.
  apply crc_steps_stay_apart; try assumption.
  - intros j Hj. apply elem_of_seq in Hj. apply list_lookup_insert_ne. lia.
  - apply crc_step_bound; assumption.
  - apply crc_step_bound; assumption.
  - intros H. apply crc_step_byte_inj in H; [| assumption | assumption | assumption].
    rewrite list_lookup_insert_eq, Hb in H by exact Hlt.
    cbn [default from_option id] in H. contradiction.
Qed.

Lemma readUInt16LE_ok buf offset :
  0 <= offset -> offset + 2 <= Buffer.len buf ->
  Buffer.readUInt16LE buf offset =
  Ok (default 0 (buf !! Z.to_nat offset)
      + default 0 (buf !! S (Z.to_nat offset)) * 256).
Proof.
  intros Ho Hl. unfold Buffer.readUInt16LE.
  assert (Hc : Buffer.checkOffset offset 2 buf = Ok tt) by (apply checkOffset_ok; lia).
  rewrite Hc. cbn [mbind res_bind]. rewrite !get_lookup by lia.
  replace (Z.to_nat (offset + 1)) with (S (Z.to_nat offset)) by lia. reflexivity.
Qed.

(** X7. A frame that passes the CRC check of the handler no longer
    passes it after any one byte before its two CRC bytes is replaced by
    a different byte: the check answers false and reports one CRC error
    to the continuation. *)
Theorem crc_check_detects_changed_byte
  (frame : Buffer) (i : nat) (b' : Z) (next : option Engine.callback)
  (m : Engine.ModbusRTU) (calls : list Engine.call) (w1 : Engine.World) :
  Buffer.wf frame ->
  Engine.check_crc (Buffer.len frame) next
    {| Engine.modbus := m; Engine.data := frame; Engine.calls := calls |}
  = (Ok true, w1) ->
  (i + 2 < length frame)%nat -> 0 <= b' < 256 -> frame !! i <> Some b' ->
  exists d,
    Engine.check_crc (Buffer.len frame) next
      {| Engine.modbus := m; Engine.data := <[i := b']> frame;
         Engine.calls := calls |}
    = (Ok false,
       {| Engine.modbus := m; Engine.data := d;
          Engine.calls := calls ++ Engine.next_error next Engine.CRCError |}).
Proof.
  intros Hwf Hok Hi Hb' Hne.
  assert (Hwf' : Buffer.wf (<[i := b']> frame)) by (apply wf_insert; assumption).
  destruct (frame !! i) as [b|] eqn:Hb; [| apply lookup_ge_None in Hb; lia].
  assert (Hbb : b' <> b) by congruence.
  assert (Hl : Buffer.len (<[i := b']> frame) = Buffer.len frame)
    by (unfold Buffer.len; rewrite length_insert; reflexivity).
  assert (Hlen : 2 <= Buffer.len frame) by (unfold Buffer.len; lia).
  rewrite check_crc_unfold in Hok. rewrite check_crc_unfold.
  cbn [Engine.data Engine.modbus Engine.calls] in *.
  rewrite readUInt16LE_ok in Hok by lia.
  rewrite _CRC16_ok in Hok by (assumption || lia).
  rewrite readUInt16LE_ok by lia.
  rewrite _CRC16_ok by (assumption || lia).
  rewrite !list_lookup_insert_ne by (unfold Buffer.len; lia).
  pose proof (crc16_loop_one_byte frame (Buffer.len frame - 2) i b b'
                Hwf Hb' ltac:(unfold Buffer.len; lia) Hb Hbb) as Hcrc.
  match type of Hok with
  | (if ?x =? ?c then _ else _) = _ =>
      destruct (Z.eqb_spec x c) as [E|E]; [| discriminate Hok]
  end.
  rewrite E.
  match goal with
  | |- context [?x =? ?c] => destruct (Z.eqb_spec x c) as [E'|E']
  end.
  - exfalso. apply Hcrc. symmetry. exact E'.
  - eexists. reflexivity.
Qed.

Lemma crc_check_detects_changed_byte_witness :
  exists d,
    Engine.check_crc 8 (Some 0%nat)
      {| Engine.modbus := binary_engine;
         Engine.data := [1; 6; 0; 9; 0; 5; 248; 8];
         Engine.calls := [] |}
    = (Ok false,
       {| Engine.modbus := binary_engine; Engine.data := d;
          Engine.calls := [] ++ Engine.next_error (Some 0%nat) Engine.CRCError |}).
Proof.
  apply (crc_check_detects_changed_byte [1; 6; 0; 7; 0; 5; 248; 8] 3 9
           (Some 0%nat) binary_engine []
           {| Engine.modbus := binary_engine;
              Engine.data := [1; 6; 0; 7; 0; 5; 248; 8];
              Engine.calls := [] |}).
  - repeat constructor; unfold Buffer.byte; lia.
  - vm_compute. reflexivity.
  - simpl. lia.
  - lia.
  - simpl. discriminate.
Defined.

(** ** More on the LRC *)

Lemma spec_lrc_body (body : Buffer) (x : Z) :
  spec_lrc (body ++ [x]) (Buffer.len body) = spec_lrc body (Buffer.len body).
Proof.
  unfold spec_lrc, Buffer.len. rewrite Nat2Z.id, take_app_length, firstn_all.
  reflexivity.
Qed.

(** A frame that ends with the LRC of what precedes passes the LRC check
    of the handler, which leaves it as it is. *)
Lemma check_lrc_sealed (body : Buffer) (next : option Engine.callback)
  (m : Engine.ModbusRTU) (calls : list Engine.call) :
  Engine.check_lrc next
    {| Engine.modbus := m;
       Engine.data := body ++ [spec_lrc body (Buffer.len body)];
       Engine.calls := calls |}
  = (Ok true,
     {| Engine.modbus := m;
        Engine.data := body ++ [spec_lrc body (Buffer.len body)];
        Engine.calls := calls |}).
Proof.
  rewrite check_lrc_unfold. cbn [Engine.data Engine.modbus Engine.calls].
  assert (Hlen : Buffer.len (body ++ [spec_lrc body (Buffer.len body)])
                 = Buffer.len body + 1)
    by (unfold Buffer.len; rewrite length_app; simpl; lia).
  pose proof (len_nonneg body) as Hpos.
  rewrite Hlen. replace (Buffer.len body + 1 - 1) with (Buffer.len body) by lia.
  rewrite readUInt8_ok, _LRC_ok by lia.
  rewrite spec_lrc_body.
  assert (Hlast : (body ++ [spec_lrc body (Buffer.len body)])
                    !! Z.to_nat (Buffer.len body)
                  = Some (spec_lrc body (Buffer.len body))).
  { unfold Buffer.len at 1. rewrite Nat2Z.id. apply list_lookup_middle. reflexivity. }
  rewrite Hlast. cbn [default from_option id]. rewrite Z.eqb_refl.
  rewrite (list_insert_id _ _ _ Hlast). reflexivity.
Qed.

(** X8.  Sealing a buffer with [_LRC] and checking the result with the
    LRC branch of the handler agree: the sealed buffer passes the check,
    no error is reported and the buffer is left as it is. *)
Theorem sealed_frame_passes_lrc_check
  (buf : Buffer) (length : Z) (next : option Engine.callback)
  (m : Engine.ModbusRTU) (calls : list Engine.call) :
  0 <= length -> Buffer.len buf = length + 1 ->
  exists sealed lrc,
    Engine._LRC buf length = Ok (sealed, lrc)
    /\ Engine.check_lrc next
         {| Engine.modbus := m; Engine.data := sealed; Engine.calls := calls |}
       = (Ok true,
          {| Engine.modbus := m; Engine.data := sealed; Engine.calls := calls |}).
Proof.
  intros H0 Hlen.
  assert (Hl : Datatypes.length buf = S (Z.to_nat length))
    by (unfold Buffer.len in Hlen; lia).
  assert (Hbody : Buffer.len (take (Z.to_nat length) buf) = length)
    by (unfold Buffer.len; rewrite length_take; lia).
  assert (Hs : spec_lrc buf length = spec_lrc (take (Z.to_nat length) buf) length).
  { unfold spec_lrc. rewrite take_take. replace (_ `min` _)%nat with (Z.to_nat length) by lia.
    reflexivity. }
  exists (take (Z.to_nat length) buf ++ [spec_lrc (take (Z.to_nat length) buf) length]),
    (spec_lrc buf length).
  split.
  - rewrite _LRC_ok by lia. f_equal. f_equal.
    rewrite insert_as_app by lia. rewrite drop_ge by lia.
    rewrite Hs. reflexivity.
  - pose proof (check_lrc_sealed (take (Z.to_nat length) buf) next m calls) as H.
    rewrite Hbody in H. exact H.
Qed.

Lemma sealed_frame_passes_lrc_check_witness :
  exists sealed lrc,
    Engine._LRC [1; 6; 0; 7; 0; 5; 0] 6 = Ok (sealed, lrc)
    /\ Engine.check_lrc (Some 0%nat)
         {| Engine.modbus := Engine.new_ModbusRTU; Engine.data := sealed;
            Engine.calls := [] |}
       = (Ok true,
          {| Engine.modbus := Engine.new_ModbusRTU; Engine.data := sealed;
             Engine.calls := [] |}).
Proof.
  apply (sealed_frame_passes_lrc_check [1; 6; 0; 7; 0; 5; 0] 6 (Some 0%nat)
           Engine.new_ModbusRTU []).
  - lia.
  - reflexivity.
Defined.

Lemma sum_bytes_insert (l : list Z) (i : nat) (b x : Z) :
  l !! i = Some b -> sum_bytes (<[i := x]> l) = sum_bytes l - b + x.
Proof.
  revert i. induction l as [|a l IH]; intros [|i] H; try discriminate.
  - injection H as ->. simpl. lia.
  - simpl in *. rewrite (IH i H). lia.
Qed.

Lemma neg_mod_inj (u u' : Z) :
  0 <= u < 256 -> 0 <= u' < 256 ->
  (256 - u) mod 256 = (256 - u') mod 256 -> u = u'.
Proof.
  intros Hu Hu'.
  destruct (Z.eq_dec u 0) as [-> | ?], (Z.eq_dec u' 0) as [-> | ?];
    rewrite ?Z.sub_0_r, ?Z.mod_same, ?(Z.mod_small (256 - u)),
      ?(Z.mod_small (256 - u')) by lia; lia.
Qed.

(** The LRC changes when one byte of the range it covers changes. *)
Lemma spec_lrc_one_byte (buf : Buffer) (length : Z) (i : nat) (b b' : Z) :
  0 <= b < 256 -> 0 <= b' < 256 ->
  (i < Z.to_nat length)%nat -> buf !! i = Some b -> b' <> b ->
  spec_lrc (<[i := b']> buf) length <> spec_lrc buf length.
Proof.
  intros Hb Hb' Hi Hl Hne. rewrite !spec_lrc_value.
  rewrite take_insert_lt by exact Hi.
  rewrite (sum_bytes_insert _ i b b')
    by (rewrite lookup_take_lt by exact Hi; exact Hl).
  set (s := sum_bytes (take (Z.to_nat length) buf)).
  intros H. apply neg_mod_inj in H; try (apply Z.mod_pos_bound; lia).
  pose proof (Z.div_mod s 256). pose proof (Z.div_mod (s - b + b') 256).
  pose proof (Z.mod_pos_bound s 256).
  lia.
Qed.

(** X9.  A frame that passes the LRC check of the handler no longer
    passes it after any one byte before its LRC byte is replaced by a
    different byte: the check answers false and reports one LRC error to
    the continuation. *)
Theorem lrc_check_detects_changed_byte
  (frame : Buffer) (i : nat) (b' : Z) (next : option Engine.callback)
  (m : Engine.ModbusRTU) (calls : list Engine.call) (w1 : Engine.World) :
  Buffer.wf frame ->
  Engine.check_lrc next
    {| Engine.modbus := m; Engine.data := frame; Engine.calls := calls |}
  = (Ok true, w1) ->
  (i + 1 < length frame)%nat -> 0 <= b' < 256 -> frame !! i <> Some b' ->
  exists d,
    Engine.check_lrc next
      {| Engine.modbus := m; Engine.data := <[i := b']> frame;
         Engine.calls := calls |}
    = (Ok false,
       {| Engine.modbus := m; Engine.data := d;
          Engine.calls := calls ++ Engine.next_error next Engine.LRCError |}).
Proof.
  intros Hwf Hok Hi Hb' Hne.
  destruct (frame !! i) as [b|] eqn:Hb; [| apply lookup_ge_None in Hb; lia].
  assert (Hbb : b' <> b) by congruence.
  assert (Hbyte : 0 <= b < 256) by (apply (Forall_lookup_1 _ _ _ _ Hwf Hb)).
  assert (Hl : Buffer.len (<[i := b']> frame) = Buffer.len frame)
    by (unfold Buffer.len; rewrite length_insert; reflexivity).
  assert (Hlen : 2 <= Buffer.len frame) by (unfold Buffer.len; lia).
  rewrite check_lrc_unfold in Hok. rewrite check_lrc_unfold.
  cbn [Engine.data Engine.modbus Engine.calls] in *.
  rewrite Hl.
  rewrite readUInt8_ok, _LRC_ok in Hok by lia.
  rewrite readUInt8_ok, _LRC_ok by lia.
  rewrite list_lookup_insert_ne by (unfold Buffer.len; lia).
  pose proof (spec_lrc_one_byte frame (Buffer.len frame - 1) i b b'
                Hbyte Hb' ltac:(unfold Buffer.len; lia) Hb Hbb) as Hlrc.
  match type of Hok with
  | (if ?x =? ?c then _ else _) = _ =>
      destruct (Z.eqb_spec x c) as [E|E]; [| discriminate Hok]
  end.
  rewrite E.
  match goal with
  | |- context [?x =? ?c] => destruct (Z.eqb_spec x c) as [E'|E']
  end.
  - exfalso. apply Hlrc. symmetry. exact E'.
  - eexists. reflexivity.
Qed.

Lemma lrc_check_detects_changed_byte_witness :
  exists d,
    Engine.check_lrc (Some 0%nat)
      {| Engine.modbus := Engine.new_ModbusRTU;
         Engine.data := [1; 6; 0; 9; 0; 5; 237];
         Engine.calls := [] |}
    = (Ok false,
       {| Engine.modbus := Engine.new_ModbusRTU; Engine.data := d;
          Engine.calls := [] ++ Engine.next_error (Some 0%nat) Engine.LRCError |}).
Proof.
  apply (lrc_check_detects_changed_byte [1; 6; 0; 7; 0; 5; 237] 3 9
           (Some 0%nat) Engine.new_ModbusRTU []
           {| Engine.modbus := Engine.new_ModbusRTU;
              Engine.data := [1; 6; 0; 7; 0; 5; 237];
              Engine.calls := [] |}).
  - repeat constructor; unfold Buffer.byte; lia.
  - vm_compute. reflexivity.
  - simpl. lia.
  - lia.
  - simpl. discriminate.
Defined.

(** ** The requests in closed form *)

Ltac fold_ascii m :=
  repeat match goal with
  | |- context [Engine.ascii_is ?b ?x] =>
      lazymatch x with
      | m => fail
      | _ => change (Engine.ascii_is b x) with (Engine.ascii_is b m)
      end
  end.

(** The writes of a request of six bytes and its LRC into a new buffer. *)
Ltac write_six :=
  unfold Engine.new_request_buffer, Buffer.alloc; cbv zeta;
  change (seq 0 (Z.to_nat (6 + 1))) with [0; 1; 2; 3; 4; 5; 6]%nat;
  cbn [map];
  rewrite writeUInt8_eq by (unfold Buffer.len; simpl; lia);
  change (Z.to_nat 0) with 0%nat; cbn [insert list_insert];
  rewrite writeUInt8_eq by (unfold Buffer.len; simpl; lia);
  change (Z.to_nat 1) with 1%nat; cbn [insert list_insert];
  rewrite writeUInt16BE_eq by (unfold Buffer.len; simpl; lia);
  change (Z.to_nat 2) with 2%nat; change (Z.to_nat (2 + 1)) with 3%nat;
  cbn [insert list_insert];
  rewrite writeUInt16BE_eq by (unfold Buffer.len; simpl; lia);
  change (Z.to_nat 4) with 4%nat; change (Z.to_nat (4 + 1)) with 5%nat;
  cbn [insert list_insert];
  rewrite _LRC_ok by (unfold Buffer.len; simpl; lia);
  cbn [mbind res_bind];
  change (Z.to_nat 6) with 6%nat; cbn [insert list_insert].

Lemma writeFC4_run mem m address dataAddress n next code :
  Engine.ascii_is true m = false ->
  0 <= address <= 255 -> 0 <= code_or 4 code <= 255 ->
  0 <= dataAddress <= 65535 -> 0 <= n <= 65535 ->
  Engine.writeFC4 mem address dataAddress n next code m =
  (Ok (core6 address (code_or 4 code) dataAddress n
       ++ [spec_lrc (core6 address (code_or 4 code) dataAddress n) 6]),
   Engine.set_next next
     (Engine.set_nextLength (3 + 2 * n + 1)
        (Engine.set_nextCode (Some (code_or 4 code))
           (Engine.set_nextAddress (Some address) m)))).
Proof.
  intros Hasc Ha Hc Hd Hn.
  unfold Engine.writeFC4. fold (code_or 4 code).
  generalize dependent (code_or 4 code). clear code. intros code Hc.
  cbv beta iota zeta delta [mbind M_bind modify get lift when skip mret M_ret].
  unfold Engine.add_checksum. fold_ascii m. rewrite Hasc.
  write_six.
  destruct (Engine.ascii_is false m); reflexivity.
Qed.

Lemma writeFC6_run mem m address dataAddress value next :
  Engine.ascii_is true m = false ->
  0 <= address <= 255 -> 0 <= dataAddress <= 65535 -> 0 <= value <= 65535 ->
  Engine.writeFC6 mem address dataAddress value next m =
  (Ok (core6 address 6 dataAddress value
       ++ [spec_lrc (core6 address 6 dataAddress value) 6]),
   Engine.set_next next
     (Engine.set_nextLength 7
        (Engine.set_nextCode (Some 6)
           (Engine.set_nextAddress (Some address) m)))).
Proof.
  intros Hasc Ha Hd Hn.
  unfold Engine.writeFC6.
  cbv beta iota zeta delta [mbind M_bind modify get lift when skip mret M_ret].
  unfold Engine.add_checksum. fold_ascii m. rewrite Hasc.
  write_six.
  destruct (Engine.ascii_is false m); reflexivity.
Qed.

Lemma writeFC5_run mem m address dataAddress state next :
  Engine.ascii_is true m = false ->
  0 <= address <= 255 -> 0 <= dataAddress <= 65535 ->
  Engine.writeFC5 mem address dataAddress state next m =
  (Ok (core6 address 5 dataAddress (if state then 0xff00 else 0)
       ++ [spec_lrc (core6 address 5 dataAddress (if state then 0xff00 else 0)) 6]),
   Engine.set_next next
     (Engine.set_nextLength 7
        (Engine.set_nextCode (Some 5)
           (Engine.set_nextAddress (Some address) m)))).
Proof.
  intros Hasc Ha Hd.
  unfold Engine.writeFC5.
  destruct state;
    cbv beta iota zeta delta [mbind M_bind modify get lift when skip mret M_ret];
    unfold Engine.add_checksum; fold_ascii m; rewrite Hasc;
    write_six;
    destruct (Engine.ascii_is false m); reflexivity.
Qed.

(** ** Answers that pass the checks *)

Lemma parse_unfold f next w :
  Engine.parse f next w =
  match f (Engine.data w) next with
  | Ok cs => (Ok tt, {| Engine.modbus := Engine.modbus w; Engine.data := Engine.data w;
                        Engine.calls := Engine.calls w ++ cs |})
  | Throw e => (Throw e, w)
  end.
Proof.
  unfold Engine.parse, mbind, M_bind, get, lift, Engine.emit, modify.
  destruct (f _ _); reflexivity.
Qed.

Lemma validate_sealed code length next m body calls :
  Engine.ascii_is false m = false ->
  validate_and_parse code length next
    {| Engine.modbus := m; Engine.data := sealed body; Engine.calls := calls |}
  = parse_by_code code next
      {| Engine.modbus := m; Engine.data := sealed body; Engine.calls := calls |}.
Proof.
  intros Hasc. unfold validate_and_parse.
  unfold mbind at 1, M_bind at 1. unfold Engine.check_checksum.
  unfold mbind at 1, M_bind at 1, get at 1. cbn [Engine.modbus].
  rewrite Hasc. unfold sealed. rewrite check_lrc_sealed. reflexivity.
Qed.

(** The handler on the answer that the engine awaits, sealed with its
    LRC: the engine is cleared and the answer goes to the parser of its
    function code. *)
Lemma handle_sealed m address code rest next :
  Engine.ascii_is false m = false ->
  awaits m address code (Buffer.len (sealed (address :: code :: rest))) next ->
  Engine.handle m (sealed (address :: code :: rest)) =
  parse_by_code code next
    {| Engine.modbus := cleared m; Engine.data := sealed (address :: code :: rest);
       Engine.calls := [] |}.
Proof.
  intros Hasc (Ha & Hc & Hl & Hn).
  assert (Hclear : Engine.ascii_is false (cleared m) = false) by exact Hasc.
  rewrite <- (validate_sealed code (Engine._nextLength m) next) by exact Hclear.
  change (sealed (address :: code :: rest))
    with (address :: code ::
            (rest ++ [spec_lrc (address :: code :: rest)
                        (Buffer.len (address :: code :: rest))])) in *.
  rewrite handle_right_length by (symmetry; exact Hl).
  rewrite Ha, Hc, Hn. unfold Engine.differs. rewrite !Z.eqb_refl. reflexivity.
Qed.

Lemma word_value (v : Z) : v / 256 * 256 + v mod 256 = v.
Proof. pose proof (Z.div_mod v 256). lia. Qed.

(** X10.  The echo of a write-register request completes it: an engine
    made by the constructor ([_ascii] undefined) that has written the
    request of [writeFC6] and is handed the same seven bytes back calls the
    continuation once, without an error, with the address and the value
    written, and awaits nothing more. *)
Theorem write_register_echo (mem : nat -> Z) (m : Engine.ModbusRTU)
  (address dataAddress value : Z) (k : Engine.callback) :
  Engine._ascii m = None ->
  0 <= address <= 255 -> 0 <= dataAddress <= 65535 -> 0 <= value <= 65535 ->
  exists frame m1,
    Engine.writeFC6 mem address dataAddress value (Some k) m = (Ok frame, m1)
    /\ Engine.handle m1 frame =
       (Ok tt,
        {| Engine.modbus := cleared m1; Engine.data := frame;
           Engine.calls :=
             [Engine.CallResult k (Engine.RegisterValue dataAddress value)] |}).
Proof.
  intros Hm Ha Hd Hv.
  assert (Ht : Engine.ascii_is true m = false)
    by (unfold Engine.ascii_is; rewrite Hm; reflexivity).
  assert (Hf : Engine.ascii_is false m = false)
    by (unfold Engine.ascii_is; rewrite Hm; reflexivity).
  eexists _, _. split; [apply writeFC6_run; assumption |].
  change (core6 address 6 dataAddress value
          ++ [spec_lrc (core6 address 6 dataAddress value) 6])
    with (sealed (address :: 6 :: [dataAddress / 256; dataAddress mod 256;
                                   value / 256; value mod 256])).
  rewrite (handle_sealed _ address 6 _ (Some k)); [| exact Hf | repeat split].
  change (parse_by_code 6 (Some k) ?w) with (Engine.parse Engine._readFC6 (Some k) w).
  rewrite parse_unfold. cbn [Engine.data Engine.modbus Engine.calls].
  unfold Engine._readFC6.
  rewrite !readUInt16BE_ok by (unfold Buffer.len; simpl; lia).
  cbn [mbind res_bind]. unfold sealed.
  change (Z.to_nat 2) with 2%nat. change (Z.to_nat 4) with 4%nat.
  cbn [lookup list_lookup app default from_option id].
  rewrite !word_value. reflexivity.
Qed.

Lemma write_register_echo_witness :
  exists frame m1,
    Engine.writeFC6 (fun _ => 0) 1 7 5 (Some 0%nat) Engine.new_ModbusRTU
    = (Ok frame, m1)
    /\ Engine.handle m1 frame =
       (Ok tt,
        {| Engine.modbus := cleared m1; Engine.data := frame;
           Engine.calls :=
             [Engine.CallResult 0%nat (Engine.RegisterValue 7 5)] |}).
Proof.
  apply (write_register_echo (fun _ => 0) Engine.new_ModbusRTU 1 7 5 0%nat);
    [reflexivity | lia | lia | lia].
Defined.

(** X11.  The echo of a force-coil request completes it: the
    continuation is called once with the address and the state written. *)
Theorem force_coil_echo (mem : nat -> Z) (m : Engine.ModbusRTU)
  (address dataAddress : Z) (state : bool) (k : Engine.callback) :
  Engine._ascii m = None ->
  0 <= address <= 255 -> 0 <= dataAddress <= 65535 ->
  exists frame m1,
    Engine.writeFC5 mem address dataAddress state (Some k) m = (Ok frame, m1)
    /\ Engine.handle m1 frame =
       (Ok tt,
        {| Engine.modbus := cleared m1; Engine.data := frame;
           Engine.calls :=
             [Engine.CallResult k (Engine.CoilState dataAddress state)] |}).
Proof.
  intros Hm Ha Hd.
  assert (Ht : Engine.ascii_is true m = false)
    by (unfold Engine.ascii_is; rewrite Hm; reflexivity).
  assert (Hf : Engine.ascii_is false m = false)
    by (unfold Engine.ascii_is; rewrite Hm; reflexivity).
  eexists _, _. split; [apply writeFC5_run; assumption |].
  set (v := if state then 65280 else 0).
  assert (Hv : (v =? 65280) = state) by (destruct state; reflexivity).
  clearbody v.
  change (core6 address 5 dataAddress v ++ [spec_lrc (core6 address 5 dataAddress v) 6])
    with (sealed (address :: 5 :: [dataAddress / 256; dataAddress mod 256;
                                   v / 256; v mod 256])).
  rewrite (handle_sealed _ address 5 _ (Some k)); [| exact Hf | repeat split].
  change (parse_by_code 5 (Some k) ?w) with (Engine.parse Engine._readFC5 (Some k) w).
  rewrite parse_unfold. cbn [Engine.data Engine.modbus Engine.calls].
  unfold Engine._readFC5.
  rewrite !readUInt16BE_ok by (unfold Buffer.len; simpl; lia).
  cbn [mbind res_bind]. unfold sealed.
  change (Z.to_nat 2) with 2%nat. change (Z.to_nat 4) with 4%nat.
  cbn [lookup list_lookup app default from_option id].
  rewrite !word_value, Hv. reflexivity.
Qed.

Lemma force_coil_echo_witness :
  exists frame m1,
    Engine.writeFC5 (fun _ => 0) 1 1 true (Some 0%nat) Engine.new_ModbusRTU
    = (Ok frame, m1)
    /\ Engine.handle m1 frame =
       (Ok tt,
        {| Engine.modbus := cleared m1; Engine.data := frame;
           Engine.calls :=
             [Engine.CallResult 0%nat (Engine.CoilState 1 true)] |}).
Proof.
  apply (force_coil_echo (fun _ => 0) Engine.new_ModbusRTU 1 1 true 0%nat);
    [reflexivity | lia | lia].
Defined.

(** ** Registers read back *)

Lemma slice_middle (pre mid post : Buffer) :
  Buffer.slice (pre ++ mid ++ post) (Buffer.len pre) (Buffer.len pre + Buffer.len mid)
  = mid.
Proof.
  unfold Buffer.slice, Buffer.clamp, Buffer.len. cbv zeta.
  rewrite !length_app.
  destruct (Z.ltb_spec (Z.of_nat (length pre)) 0); [lia |].
  destruct (Z.ltb_spec (Z.of_nat (length pre) + Z.of_nat (length mid)) 0); [lia |].
  rewrite !Z.min_l, Z.max_r by lia.
  rewrite Nat2Z.id.
  replace (Z.to_nat (Z.of_nat (length pre) + Z.of_nat (length mid) - Z.of_nat (length pre)))
    with (length mid) by lia.
  rewrite drop_app_length, take_app_length. reflexivity.
Qed.

Lemma map_seq_lookup {A} (f : nat -> A) (l : list A) :
  (forall i x, l !! i = Some x -> f i = x) -> map f (seq 0 (length l)) = l.
Proof.
  induction l as [|x l IH] using rev_ind; intros H; [reflexivity |].
  rewrite length_app. cbn [length]. rewrite Nat.add_1_r, seq_S, map_app.
  cbn [map Nat.add]. f_equal.
  - apply IH. intros i y Hi. apply H. apply lookup_app_l_Some. exact Hi.
  - f_equal. apply H. apply list_lookup_middle. reflexivity.
Qed.

Lemma register_bytes_length (regs : list Z) :
  length (register_bytes regs) = (2 * length regs)%nat.
Proof. induction regs as [|r regs IH]; simpl; [reflexivity | rewrite IH; lia]. Qed.

Lemma register_bytes_lookup (regs : list Z) (k : nat) (r : Z) :
  regs !! k = Some r ->
  register_bytes regs !! (2 * k)%nat = Some (r / 256)
  /\ register_bytes regs !! S (2 * k) = Some (r mod 256).
Proof.
  revert k. induction regs as [|r0 regs IH]; intros [|k] H; try discriminate.
  - injection H as ->. split; reflexivity.
  - replace (2 * S k)%nat with (S (S (2 * k))) by lia. apply (IH k H).
Qed.

Lemma register_bytes_wf (regs : list Z) :
  Forall (fun r => 0 <= r <= 65535) regs -> Buffer.wf (register_bytes regs).
Proof.
  induction 1 as [|r regs Hr _ IH]; [constructor |].
  cbn [register_bytes flat_map app]. constructor; [| constructor; [| exact IH]].
  - split; [apply Z.div_pos; lia | apply Z.div_lt_upper_bound; lia].
  - apply Z.mod_pos_bound. lia.
Qed.

Lemma register_at_bytes (a c n : Z) (regs : list Z) (post : Buffer) (k : nat) (r : Z) :
  regs !! k = Some r ->
  register_at ([a; c; n] ++ register_bytes regs ++ post) k = r.
Proof.
  intros H. destruct (register_bytes_lookup regs k r H) as [Hhi Hlo].
  unfold register_at.
  replace (2 * k + 3)%nat with (S (S (S (2 * k)))) by lia.
  replace (2 * k + 4)%nat with (S (S (S (S (2 * k))))) by lia.
  assert (E : forall i, ([a; c; n] ++ register_bytes regs ++ post) !! S (S (S i))
                        = (register_bytes regs ++ post) !! i) by reflexivity.
  rewrite !E.
  rewrite (lookup_app_l_Some _ _ _ _ Hhi), (lookup_app_l_Some _ _ _ _ Hlo).
  cbn [default from_option id]. apply word_value.
Qed.

Lemma parse_by_code_registers code next w :
  code = 3 \/ code = 4 ->
  parse_by_code code next w = Engine.parse Engine._readFC4 next w.
Proof.
  intros [-> | ->]; unfold parse_by_code, when; cbn [Z.eqb Pos.eqb orb];
    unfold mbind, M_bind, skip, mret, M_ret;
    destruct (Engine.parse Engine._readFC4 next w) as [[[]|e] s]; reflexivity.
Qed.

Lemma parse_by_code_coils code next w :
  code = 1 \/ code = 2 ->
  parse_by_code code next w = Engine.parse Engine._readFC2 next w.
Proof.
  intros [-> | ->]; unfold parse_by_code, when; cbn [Z.eqb Pos.eqb orb];
    unfold mbind, M_bind, skip, mret, M_ret;
    destruct (Engine.parse Engine._readFC2 next w) as [[[]|e] s]; reflexivity.
Qed.

Lemma parse_by_code_none code next w :
  parsed_code code = false -> parse_by_code code next w = (Ok tt, w).
Proof.
  unfold parsed_code, parse_by_code. intros H.
  repeat (apply orb_false_iff in H as [H ?]).
  repeat match goal with E : (_ =? _) = false |- _ => rewrite E; clear E end.
  reflexivity.
Qed.

(** The handler on the answer to a read of registers that it awaits. *)
Lemma registers_answer (m1 : Engine.ModbusRTU) (address : Z) (regs : list Z)
  (k : Engine.callback) :
  Engine.ascii_is false m1 = false ->
  awaits m1 address 3 (3 + 2 * Buffer.len regs + 1) (Some k) ->
  Engine.handle m1
    (sealed ([address; 3; 2 * Buffer.len regs] ++ register_bytes regs)) =
  (Ok tt,
   {| Engine.modbus := cleared m1;
      Engine.data := sealed ([address; 3; 2 * Buffer.len regs] ++ register_bytes regs);
      Engine.calls :=
        [Engine.CallResult k (Engine.Registers regs (register_bytes regs))] |}).
Proof.
  intros Hf Haw.
  set (answer := sealed ([address; 3; 2 * Buffer.len regs] ++ register_bytes regs)).
  pose proof (len_nonneg regs) as Hlen.
  assert (Halen : Buffer.len answer = 3 + 2 * Buffer.len regs + 1).
  { unfold answer, sealed, Buffer.len.
    rewrite !length_app, register_bytes_length. cbn [length]. lia. }
  assert (Ea : answer = sealed (address :: 3 :: [2 * Buffer.len regs]
                                  ++ register_bytes regs)) by reflexivity.
  assert (Hshape : answer = [address; 3; 2 * Buffer.len regs] ++ register_bytes regs
                     ++ [spec_lrc ([address; 3; 2 * Buffer.len regs]
                                     ++ register_bytes regs)
                           (Buffer.len ([address; 3; 2 * Buffer.len regs]
                                          ++ register_bytes regs))])
    by (unfold answer, sealed; rewrite <- app_assoc; reflexivity).
  clearbody answer.
  rewrite Ea.
  rewrite (handle_sealed _ address 3 _ (Some k));
    [| exact Hf | rewrite <- Ea, Halen; exact Haw].
  rewrite <- Ea.
  rewrite parse_by_code_registers by auto.
  rewrite parse_unfold. cbn [Engine.data Engine.modbus Engine.calls].
  rewrite (_readFC4_registers answer (Some k) (2 * Buffer.len regs));
    [| rewrite Hshape; reflexivity | lia | lia].
  replace ((2 * Buffer.len regs + 1) / 2) with (Buffer.len regs)
    by (apply (Z.div_unique_pos _ _ _ 1); lia).
  replace (Z.to_nat (Buffer.len regs)) with (Datatypes.length regs)
    by (unfold Buffer.len; lia).
  rewrite map_seq_lookup
    by (intros i x Hi; rewrite Hshape; apply register_at_bytes; exact Hi).
  replace (Buffer.slice answer 3 (3 + 2 * Buffer.len regs)) with (register_bytes regs).
  - reflexivity.
  - rewrite Hshape. symmetry.
    replace (3 + 2 * Buffer.len regs)
      with (Buffer.len [address; 3; 2 * Buffer.len regs]
            + Buffer.len (register_bytes regs))
      by (unfold Buffer.len; rewrite register_bytes_length; cbn [length]; lia).
    apply (slice_middle [address; 3; 2 * Buffer.len regs]).
Qed.

(** X12.  Registers come back as they were sent: an engine made by the
    constructor that has asked for [n] holding registers with [writeFC3]
    and is handed the answer that carries [n] values, two bytes each, high
    byte first, after the byte count [2 n], calls the continuation once
    with these values and the bytes that carried them. *)
Theorem holding_registers_roundtrip (mem : nat -> Z) (m : Engine.ModbusRTU)
  (address dataAddress : Z) (regs : list Z) (k : Engine.callback) :
  Engine._ascii m = None ->
  0 <= address <= 255 -> 0 <= dataAddress <= 65535 ->
  Forall (fun r => 0 <= r <= 65535) regs -> (length regs <= 127)%nat ->
  let answer :=
    sealed ([address; 3; 2 * Buffer.len regs] ++ register_bytes regs) in
  exists request m1,
    Engine.writeFC3 mem address dataAddress (Buffer.len regs) (Some k) m
    = (Ok request, m1)
    /\ Engine.handle m1 answer =
       (Ok tt,
        {| Engine.modbus := cleared m1; Engine.data := answer;
           Engine.calls :=
             [Engine.CallResult k (Engine.Registers regs (register_bytes regs))] |}).
Proof.
  intros Hm Ha Hd Hregs Hn answer.
  assert (Ht : Engine.ascii_is true m = false)
    by (unfold Engine.ascii_is; rewrite Hm; reflexivity).
  assert (Hf : Engine.ascii_is false m = false)
    by (unfold Engine.ascii_is; rewrite Hm; reflexivity).
  assert (Hlen : 0 <= Buffer.len regs <= 127) by (unfold Buffer.len; lia).
  eexists _, _. split.
  { unfold Engine.writeFC3. apply writeFC4_run; try assumption.
    - change (code_or 4 (Some 3)) with 3. lia.
    - lia. }
  change (code_or 4 (Some 3)) with 3.
  apply registers_answer; [exact Hf | repeat split].
Qed.

Lemma holding_registers_roundtrip_witness :
  let answer := sealed ([1; 3; 2 * Buffer.len [10; 11]] ++ register_bytes [10; 11]) in
  exists request m1,
    Engine.writeFC3 (fun _ => 0) 1 0 (Buffer.len [10; 11]) (Some 0%nat)
      Engine.new_ModbusRTU
    = (Ok request, m1)
    /\ Engine.handle m1 answer =
       (Ok tt,
        {| Engine.modbus := cleared m1; Engine.data := answer;
           Engine.calls :=
             [Engine.CallResult 0%nat
                (Engine.Registers [10; 11] (register_bytes [10; 11]))] |}).
Proof.
  apply (holding_registers_roundtrip (fun _ => 0) Engine.new_ModbusRTU 1 0
           [10; 11] 0%nat).
  - reflexivity.
  - lia.
  - lia.
  - repeat constructor; lia.
  - simpl. lia.
Defined.

(** ** Answers that are dropped, and answers that throw *)

(** X13.  An answer for a function code that the handler has no parser
    for (any code but 1, 2, 3, 4, 5, 6 and 16, which [writeFC2] and
    [writeFC4] accept as an argument) is dropped without a word: it passes
    the checks, the engine forgets the transaction, and the continuation
    is never called, neither with a result nor with an error. *)
Theorem unparsed_code_is_dropped (m : Engine.ModbusRTU)
  (address code : Z) (rest : Buffer) (next : option Engine.callback) :
  Engine.ascii_is false m = false ->
  awaits m address code (Buffer.len (sealed (address :: code :: rest))) next ->
  parsed_code code = false ->
  Engine.handle m (sealed (address :: code :: rest)) =
  (Ok tt,
   {| Engine.modbus := cleared m; Engine.data := sealed (address :: code :: rest);
      Engine.calls := [] |}).
Proof.
  intros Hasc Haw Hcode.
  rewrite (handle_sealed m address code rest next Hasc Haw).
  apply parse_by_code_none. exact Hcode.
Qed.

Lemma unparsed_code_is_dropped_witness :
  Engine.handle
    (snd (Engine.writeFC4 (fun _ => 0) 1 0 1 (Some 0%nat) (Some 7)
            Engine.new_ModbusRTU))
    (sealed (1 :: 7 :: [2; 0; 10])) =
  (Ok tt,
   {| Engine.modbus :=
        cleared (snd (Engine.writeFC4 (fun _ => 0) 1 0 1 (Some 0%nat) (Some 7)
                        Engine.new_ModbusRTU));
      Engine.data := sealed (1 :: 7 :: [2; 0; 10]);
      Engine.calls := [] |}).
Proof.
  apply (unparsed_code_is_dropped
           (snd (Engine.writeFC4 (fun _ => 0) 1 0 1 (Some 0%nat) (Some 7)
                   Engine.new_ModbusRTU))
           1 7 [2; 0; 10] (Some 0%nat)).
  - reflexivity.
  - repeat split; reflexivity.
  - reflexivity.
Defined.

Lemma readUInt16BE_out buf offset :
  Buffer.len buf < offset + 2 -> Buffer.readUInt16BE buf offset = Throw RangeError.
Proof.
  intros H. unfold Buffer.readUInt16BE, Buffer.checkOffset.
  destruct (Z.ltb_spec offset 0); [reflexivity |].
  destruct (Z.gtb_spec (offset + 2) (Buffer.len buf)); [reflexivity | lia].
Qed.

(** The loop of [_readFC4] throws when it is to read more registers than
    the buffer holds. *)
Lemma read_registers_short (data : Buffer) (n : nat) :
  Buffer.len data < 2 * Z.of_nat n + 3 -> (0 < n)%nat ->
  fold_left (Engine.read_register data) (seq 0 n) (Ok []) = Throw RangeError.
Proof.
  induction n as [|n IH]; intros Hlen Hn; [lia |].
  rewrite seq_S, fold_left_app. cbn [fold_left Nat.add].
  destruct (Z_le_gt_dec (2 * Z.of_nat n + 3) (Buffer.len data)) as [Hfit | Hshort].
  - rewrite read_registers by exact Hfit.
    unfold Engine.read_register. cbn [mbind res_bind].
    rewrite readUInt16BE_out by lia. reflexivity.
  - destruct n as [|n']; [unfold Buffer.len in Hshort; simpl in Hshort |].
    + unfold Engine.read_register. cbn [fold_left seq mbind res_bind].
      rewrite readUInt16BE_out by (unfold Buffer.len in *; lia). reflexivity.
    + rewrite IH by lia. reflexivity.
Qed.

(** X14.  An answer to a read of registers whose byte count announces
    more than the answer holds makes the handler throw: the RangeError of
    the read past the end escapes the event handler after the engine has
    forgotten the transaction, and the continuation is never called. *)
Theorem short_register_answer_throws (m : Engine.ModbusRTU)
  (address code count : Z) (payload : Buffer) (next : option Engine.callback) :
  Engine.ascii_is false m = false ->
  awaits m address code
    (Buffer.len (sealed (address :: code :: count :: payload))) next ->
  code = 3 \/ code = 4 ->
  0 < count -> Buffer.len payload + 1 < 2 * ((count + 1) / 2) ->
  Engine.handle m (sealed (address :: code :: count :: payload)) =
  (Throw RangeError,
   {| Engine.modbus := cleared m;
      Engine.data := sealed (address :: code :: count :: payload);
      Engine.calls := [] |}).
Proof.
  intros Hasc Haw Hcode Hcount Hshort.
  rewrite (handle_sealed m address code (count :: payload) next Hasc Haw).
  rewrite parse_by_code_registers by exact Hcode.
  rewrite parse_unfold. cbn [Engine.data Engine.modbus Engine.calls].
  assert (Hlen : Buffer.len (sealed (address :: code :: count :: payload))
                 = Buffer.len payload + 4)
    by (unfold sealed, Buffer.len; rewrite length_app; cbn [length]; lia).
  pose proof (len_nonneg payload) as Hpos.
  unfold Engine._readFC4.
  rewrite (readUInt8_ok _ 2) by lia.
  change (sealed (address :: code :: count :: payload) !! Z.to_nat 2) with (Some count).
  cbn [default from_option id mbind res_bind].
  assert (Hn : 1 <= (count + 1) / 2) by (apply Z.div_le_lower_bound; lia).
  rewrite read_registers_short; [reflexivity | lia | lia].
Qed.

Lemma short_register_answer_throws_witness :
  Engine.handle
    (snd (Engine.writeFC3 (fun _ => 0) 1 0 1 (Some 0%nat) Engine.new_ModbusRTU))
    (sealed (1 :: 3 :: 4 :: [0; 10])) =
  (Throw RangeError,
   {| Engine.modbus :=
        cleared (snd (Engine.writeFC3 (fun _ => 0) 1 0 1 (Some 0%nat)
                        Engine.new_ModbusRTU));
      Engine.data := sealed (1 :: 3 :: 4 :: [0; 10]);
      Engine.calls := [] |}).
Proof.
  apply (short_register_answer_throws
           (snd (Engine.writeFC3 (fun _ => 0) 1 0 1 (Some 0%nat)
                   Engine.new_ModbusRTU))
           1 3 4 [0; 10] (Some 0%nat)).
  - reflexivity.
  - repeat split; reflexivity.
  - left. reflexivity.
  - lia.
  - vm_compute. reflexivity.
Defined.

(** ** One call at most *)

Lemma answers_to_none next : answers_to next [].
Proof. left. reflexivity. Qed.

Lemma answers_to_error next e : answers_to next (Engine.next_error next e).
Proof.
  destruct next as [k|]; [| left; reflexivity].
  right. exists k. split; [reflexivity |]. left. eexists. reflexivity.
Qed.

Lemma answers_to_result next r : answers_to next (Engine.next_result next r).
Proof.
  destruct next as [k|]; [| left; reflexivity].
  right. exists k. split; [reflexivity |]. right. eexists. reflexivity.
Qed.

Lemma Ok_inj {A} (x y : A) : @Ok A x = Ok y -> x = y.
Proof. intros H. congruence. Qed.

(** Every parser answers with one result or throws. *)
Lemma parsers_answer (f : Buffer -> option Engine.callback -> res (list Engine.call))
  (data : Buffer) (next : option Engine.callback) (cs : list Engine.call) :
  f = Engine._readFC2 \/ f = Engine._readFC4 \/ f = Engine._readFC5
  \/ f = Engine._readFC6 \/ f = Engine._readFC16 ->
  f data next = Ok cs -> answers_to next cs.
Proof.
  intros [-> | [-> | [-> | [-> | ->]]]] H.
  - unfold Engine._readFC2 in H. res_inv H. apply Ok_inj in H. rewrite <- H.
    apply answers_to_result.
  - unfold Engine._readFC4 in H. res_inv H. res_inv H. apply Ok_inj in H. rewrite <- H.
    apply answers_to_result.
  - unfold Engine._readFC5 in H. res_inv H. res_inv H. apply Ok_inj in H. rewrite <- H.
    apply answers_to_result.
  - unfold Engine._readFC6 in H. res_inv H. res_inv H. apply Ok_inj in H. rewrite <- H.
    apply answers_to_result.
  - unfold Engine._readFC16 in H. res_inv H. res_inv H. apply Ok_inj in H. rewrite <- H.
    apply answers_to_result.
Qed.

Lemma parse_answers f next w :
  f = Engine._readFC2 \/ f = Engine._readFC4 \/ f = Engine._readFC5
  \/ f = Engine._readFC6 \/ f = Engine._readFC16 ->
  Engine.calls w = [] ->
  answers_to next (Engine.calls (snd (Engine.parse f next w))).
Proof.
  intros Hf Hw. rewrite parse_unfold.
  destruct (f (Engine.data w) next) as [cs|e] eqn:E; cbn [snd Engine.calls].
  - rewrite Hw. apply (parsers_answer f _ _ _ Hf E).
  - rewrite Hw. apply answers_to_none.
Qed.

Lemma parse_by_code_one code next w f :
  (code = 5 /\ f = Engine._readFC5) \/ (code = 6 /\ f = Engine._readFC6)
  \/ (code = 16 /\ f = Engine._readFC16) ->
  parse_by_code code next w = Engine.parse f next w.
Proof.
  intros [[-> ->] | [[-> ->] | [-> ->]]];
    unfold parse_by_code, when; cbn [Z.eqb Pos.eqb orb];
    unfold mbind, M_bind, skip, mret, M_ret;
    match goal with
    | |- context [Engine.parse ?f next w] =>
        destruct (Engine.parse f next w) as [[[]|e] s]; reflexivity
    end.
Qed.

Lemma parse_by_code_answers code next w :
  Engine.calls w = [] ->
  answers_to next (Engine.calls (snd (parse_by_code code next w))).
Proof.
  intros Hw. destruct (parsed_code code) eqn:Hcode.
  - unfold parsed_code in Hcode.
    repeat (apply orb_true_iff in Hcode as [Hcode | Hcode]);
      apply Z.eqb_eq in Hcode.
    + rewrite parse_by_code_coils by auto. apply parse_answers; auto.
    + rewrite parse_by_code_coils by auto. apply parse_answers; auto.
    + rewrite parse_by_code_registers by auto. apply parse_answers; auto.
    + rewrite parse_by_code_registers by auto. apply parse_answers; auto.
    + rewrite (parse_by_code_one code next w Engine._readFC5) by auto.
      apply parse_answers; auto.
    + rewrite (parse_by_code_one code next w Engine._readFC6) by auto.
      apply parse_answers; auto.
    + rewrite (parse_by_code_one code next w Engine._readFC16) by auto 6.
      apply parse_answers; auto 6.
  - rewrite parse_by_code_none by exact Hcode. cbn [snd]. rewrite Hw.
    apply answers_to_none.
Qed.

Lemma validate_and_parse_answers code length next w :
  Engine.calls w = [] ->
  answers_to next (Engine.calls (snd (validate_and_parse code length next w))).
Proof.
  intros Hw. unfold validate_and_parse.
  fold (parse_by_code code next).
  unfold mbind at 1, M_bind at 1.
  destruct (Engine.check_checksum length next w) as [[ok|e] w1] eqn:Hck.
  - assert (Hw1 : (ok = true /\ Engine.calls w1 = [])
                  \/ (ok = false
                      /\ Engine.calls w1 = Engine.next_error next Engine.CRCError)
                  \/ (ok = false
                      /\ Engine.calls w1 = Engine.next_error next Engine.LRCError)).
    { unfold Engine.check_checksum, mbind, M_bind, get in Hck.
      destruct (Engine.ascii_is false (Engine.modbus w)).
      - rewrite check_crc_unfold in Hck.
        destruct (Buffer.readUInt16LE _ _); [| discriminate].
        destruct (Engine._CRC16 _ _) as [[d crc]|]; [| discriminate].
        destruct (_ =? _); injection Hck as <- <-; cbn [Engine.calls];
          rewrite Hw; auto.
      - rewrite check_lrc_unfold in Hck.
        destruct (Buffer.readUInt8 _ _); [| discriminate].
        destruct (Engine._LRC _ _) as [[d lrc]|]; [| discriminate].
        destruct (_ =? _); injection Hck as <- <-; cbn [Engine.calls];
          rewrite Hw; auto. }
    destruct Hw1 as [[-> Hc] | [[-> Hc] | [-> Hc]]]; cbn [negb].
    + apply parse_by_code_answers. exact Hc.
    + cbn [snd skip]. unfold skip, mret, M_ret. cbn [snd]. rewrite Hc.
      apply answers_to_error.
    + unfold skip, mret, M_ret. cbn [snd]. rewrite Hc. apply answers_to_error.
  - assert (Hw1 : Engine.calls w1 = []).
    { unfold Engine.check_checksum, mbind, M_bind, get in Hck.
      destruct (Engine.ascii_is false (Engine.modbus w)).
      - rewrite check_crc_unfold in Hck.
        destruct (Buffer.readUInt16LE _ _);
          [| injection Hck as <- <-; exact Hw].
        destruct (Engine._CRC16 _ _) as [[d crc]|];
          [| injection Hck as <- <-; exact Hw].
        destruct (_ =? _); discriminate.
      - rewrite check_lrc_unfold in Hck.
        destruct (Buffer.readUInt8 _ _);
          [| injection Hck as <- <-; exact Hw].
        destruct (Engine._LRC _ _) as [[d lrc]|];
          [| injection Hck as <- <-; exact Hw].
        destruct (_ =? _); discriminate. }
    cbn [snd]. rewrite Hw1. apply answers_to_none.
Qed.

(** X15.  One 'data' event makes one call at most, and only of the
    continuation that the engine holds: whatever the engine awaits and
    whatever the chunk, the handler calls nothing, or calls the pending
    continuation once, with an error or with a result, also when it ends
    with an exception.  With no pending continuation it calls nothing. *)
Theorem handler_calls_at_most_once (m : Engine.ModbusRTU) (chunk : Buffer) :
  answers_to (Engine._next m) (Engine.calls (snd (Engine.handle m chunk))).
Proof.
  unfold Engine.handle. rewrite on_data_unfold.
  cbn [Engine.modbus Engine.data Engine.calls app]. cbv zeta.
  destruct (negb _); [apply answers_to_error |].
  destruct (Buffer.readUInt8 chunk 0) as [address|e]; [| apply answers_to_none].
  destruct (Buffer.readUInt8 chunk 1) as [code|e]; [| apply answers_to_none].
  destruct (_ || _); [apply answers_to_error |].
  apply validate_and_parse_answers. reflexivity.
Qed.

(** ** Requests that are refused *)





(** ** Presetting registers *)

Lemma insert_last {A} (l : list A) (x v : A) :
  <[length l := v]> (l ++ [x]) = l ++ [v].
Proof. induction l as [|a l IH]; simpl; [reflexivity | f_equal; exact IH]. Qed.

Lemma register_bytes_app (l1 l2 : list Z) :
  register_bytes (l1 ++ l2) = register_bytes l1 ++ register_bytes l2.
Proof. apply flat_map_app. Qed.

(** The loop of [writeFC16] after [k] turns: the registers written so far
    follow the seven bytes of the header. *)
Lemma write_registers_run (array : list Z) (buf : Buffer) (k : nat) :
  Forall (fun r => 0 <= r <= 65535) array ->
  (k <= length array)%nat -> (7 + 2 * length array <= length buf)%nat ->
  fold_left (Engine.write_register array) (seq 0 k) (Ok buf)
  = Ok (take 7 buf ++ register_bytes (take k array) ++ drop (7 + 2 * k) buf).
Proof.
  intros Hregs. induction k as [|k IH]; intros Hk Hlen.
  - cbn [seq fold_left]. rewrite take_0.
    change (register_bytes []) with (@nil Z). rewrite app_nil_l.
    replace (7 + 2 * 0)%nat with 7%nat by lia.
    rewrite take_drop. reflexivity.
  - rewrite seq_S, fold_left_app, IH by lia.
    cbn [fold_left]. rewrite Nat.add_0_l.
    unfold Engine.write_register. cbn [mbind res_bind].
    destruct (array !! k) as [r|] eqn:Hr; [| apply lookup_ge_None in Hr; lia].
    assert (Hreg : 0 <= r <= 65535) by (apply (Forall_lookup_1 _ _ _ _ Hregs Hr)).
    cbn [default from_option id].
    set (head := take 7 buf ++ register_bytes (take k array)).
    assert (Hhead : length head = (7 + 2 * k)%nat).
    { unfold head. rewrite length_app, register_bytes_length, !length_take. lia. }
    rewrite (app_assoc (take 7 buf)). fold head.
    assert (Hb : length (head ++ drop (7 + 2 * k) buf) = length buf)
      by (rewrite length_app, length_drop; lia).
    rewrite writeUInt16BE_eq by (unfold Buffer.len; rewrite ?Hb; lia).
    replace (Z.to_nat (7 + 2 * Z.of_nat k + 1)) with (S (7 + 2 * k)) by lia.
    replace (Z.to_nat (7 + 2 * Z.of_nat k)) with (7 + 2 * k)%nat by lia.
    rewrite insert2_as_app by lia.
    rewrite (take_app_length' head) by (symmetry; exact Hhead).
    replace (S (S (7 + 2 * k))) with (length head + 2)%nat by lia.
    rewrite drop_app_add, drop_drop.
    rewrite (take_S_r _ _ _ Hr), register_bytes_app.
    cbn [register_bytes flat_map app].
    unfold head. rewrite <- !app_assoc. cbn [app].
    replace (7 + 2 * k + 2)%nat with (7 + 2 * S k)%nat by lia. reflexivity.
Qed.

(** The header of the request of [writeFC16]. *)
Lemma alloc_header (mem : nat -> Z) (n : nat) :
  exists b0 b1 b2 b3 b4 b5 b6 tail,
    Buffer.alloc mem (7 + 2 * Z.of_nat n + 1)
    = b0 :: b1 :: b2 :: b3 :: b4 :: b5 :: b6 :: tail
    /\ length tail = (2 * n + 1)%nat.
Proof.
  unfold Buffer.alloc.
  replace (Z.to_nat (7 + 2 * Z.of_nat n + 1)) with (7 + (2 * n + 1))%nat by lia.
  rewrite seq_app, map_app. cbn [seq map app Nat.add].
  eexists _, _, _, _, _, _, _, _. split; [reflexivity |].
  rewrite length_map, length_seq. reflexivity.
Qed.

Lemma writeFC16_run mem m address dataAddress array next :
  Engine.ascii_is true m = false ->
  0 <= address <= 255 -> 0 <= dataAddress <= 65535 ->
  Forall (fun r => 0 <= r <= 65535) array -> (length array <= 127)%nat ->
  Engine.writeFC16 mem address dataAddress array next m =
  (Ok (sealed ([address; 16; dataAddress / 256; dataAddress mod 256;
                Buffer.len array / 256; Buffer.len array mod 256;
                Buffer.len array * 2] ++ register_bytes array)),
   Engine.set_next next
     (Engine.set_nextLength 7
        (Engine.set_nextCode (Some 16)
           (Engine.set_nextAddress (Some address) m)))).
Proof.
  intros Hasc Ha Hd Hregs Hn.
  unfold Engine.writeFC16.
  cbv beta iota zeta delta [mbind M_bind modify get lift when skip mret M_ret].
  unfold Engine.add_checksum. fold_ascii m. rewrite Hasc.
  unfold Engine.new_request_buffer. cbv zeta. unfold Buffer.len.
  destruct (alloc_header mem (length array))
    as (b0 & b1 & b2 & b3 & b4 & b5 & b6 & tail & -> & Htail).
  assert (Hl : 0 <= Z.of_nat (length array) <= 127) by lia.
  rewrite writeUInt8_eq by (unfold Buffer.len; cbn [length]; lia).
  change (Z.to_nat 0) with 0%nat. cbn [insert list_insert].
  rewrite writeUInt8_eq by (unfold Buffer.len; cbn [length]; lia).
  change (Z.to_nat 1) with 1%nat. cbn [insert list_insert].
  rewrite writeUInt16BE_eq by (unfold Buffer.len; cbn [length]; lia).
  change (Z.to_nat 2) with 2%nat. change (Z.to_nat (2 + 1)) with 3%nat.
  cbn [insert list_insert].
  rewrite writeUInt16BE_eq by (unfold Buffer.len; cbn [length]; lia).
  change (Z.to_nat 4) with 4%nat. change (Z.to_nat (4 + 1)) with 5%nat.
  cbn [insert list_insert].
  rewrite writeUInt8_eq by (unfold Buffer.len; cbn [length]; lia).
  change (Z.to_nat 6) with 6%nat. cbn [insert list_insert].
  rewrite write_registers_run by (assumption || cbn [length]; lia).
  rewrite firstn_all.
  cbn [take drop Nat.add].
  destruct (drop (2 * length array) tail) as [|x [|y rest]] eqn:Hdrop;
    [ apply (f_equal length) in Hdrop; rewrite length_drop in Hdrop;
      cbn [length] in Hdrop; lia
    | | apply (f_equal length) in Hdrop; rewrite length_drop in Hdrop;
        cbn [length] in Hdrop; lia ].
  rewrite take_0, app_assoc.
  set (core := [address; 16; dataAddress / 256; dataAddress mod 256;
                Z.of_nat (length array) / 256; Z.of_nat (length array) mod 256;
                Z.of_nat (length array) * 2] ++ register_bytes array).
  assert (Hcore : Buffer.len core = 7 + 2 * Z.of_nat (length array)).
  { unfold core, Buffer.len. rewrite length_app, register_bytes_length.
    cbn [length]. lia. }
  rewrite <- Hcore.
  rewrite _LRC_ok
    by (pose proof (len_nonneg core); unfold Buffer.len in *;
        rewrite length_app; cbn [length]; lia).
  cbn [mbind res_bind]. rewrite spec_lrc_body.
  unfold Buffer.len at 1. rewrite Nat2Z.id, insert_last.
  destruct (Engine.ascii_is false m); reflexivity.
Qed.

(** X17.  [writeFC16] writes the unit address, the code 16, the first
    register address and the number of registers, two bytes each with the
    high byte first, the byte count, the values, two bytes each with the
    high byte first, and the LRC of all that; handed the answer that
    repeats the first six bytes, the engine calls the continuation once
    with the register address and the number of registers. *)
Theorem preset_registers_roundtrip (mem : nat -> Z) (m : Engine.ModbusRTU)
  (address dataAddress : Z) (array : list Z) (k : Engine.callback) :
  Engine._ascii m = None ->
  0 <= address <= 255 -> 0 <= dataAddress <= 65535 ->
  Forall (fun r => 0 <= r <= 65535) array -> (length array <= 127)%nat ->
  let n := Buffer.len array in
  let answer :=
    sealed [address; 16; dataAddress / 256; dataAddress mod 256;
            n / 256; n mod 256] in
  exists m1,
    Engine.writeFC16 mem address dataAddress array (Some k) m
    = (Ok (sealed ([address; 16; dataAddress / 256; dataAddress mod 256;
                    n / 256; n mod 256; n * 2] ++ register_bytes array)), m1)
    /\ Engine.handle m1 answer =
       (Ok tt,
        {| Engine.modbus := cleared m1; Engine.data := answer;
           Engine.calls :=
             [Engine.CallResult k (Engine.RegistersWritten dataAddress n)] |}).
Proof.
  intros Hm Ha Hd Hregs Hn n answer.
  assert (Ht : Engine.ascii_is true m = false)
    by (unfold Engine.ascii_is; rewrite Hm; reflexivity).
  assert (Hf : Engine.ascii_is false m = false)
    by (unfold Engine.ascii_is; rewrite Hm; reflexivity).
  eexists. split; [apply writeFC16_run; assumption |].
  unfold answer.
  rewrite (handle_sealed _ address 16 _ (Some k)); [| exact Hf | repeat split].
  rewrite (parse_by_code_one 16 _ _ Engine._readFC16) by auto.
  rewrite parse_unfold. cbn [Engine.data Engine.modbus Engine.calls].
  unfold Engine._readFC16.
  rewrite !readUInt16BE_ok by (unfold Buffer.len; simpl; lia).
  cbn [mbind res_bind]. unfold sealed.
  change (Z.to_nat 2) with 2%nat. change (Z.to_nat 4) with 4%nat.
  cbn [lookup list_lookup app default from_option id].
  rewrite !word_value. reflexivity.
Qed.

Lemma preset_registers_roundtrip_witness :
  let n := Buffer.len [10; 258] in
  let answer := sealed [1; 16; 7 / 256; 7 mod 256; n / 256; n mod 256] in
  exists m1,
    Engine.writeFC16 (fun _ => 0) 1 7 [10; 258] (Some 0%nat) Engine.new_ModbusRTU
    = (Ok (sealed ([1; 16; 7 / 256; 7 mod 256; n / 256; n mod 256; n * 2]
                     ++ register_bytes [10; 258])), m1)
    /\ Engine.handle m1 answer =
       (Ok tt,
        {| Engine.modbus := cleared m1; Engine.data := answer;
           Engine.calls :=
             [Engine.CallResult 0%nat (Engine.RegistersWritten 7 n)] |}).
Proof.
  apply (preset_registers_roundtrip (fun _ => 0) Engine.new_ModbusRTU 1 7
           [10; 258] 0%nat).
  - reflexivity.
  - lia.
  - lia.
  - repeat constructor; lia.
  - simpl. lia.
Defined.



(** ** The port's handler never throws *)

Lemma writeHex1_length (buf : Buffer) (s : string) (i : nat) :
  length (Buffer.writeHex1 buf s i) = length buf.
Proof.
  unfold Buffer.writeHex1.
  repeat case_match; try reflexivity. apply length_insert.
Qed.

Lemma decode_pair_total (bufAscii decoded : Buffer) (i : nat) :
  2 * Z.of_nat i + 2 < Buffer.len bufAscii ->
  exists decoded',
    AsciiPort.decode_pair bufAscii (Ok decoded) i = Ok decoded'
    /\ length decoded' = length decoded.
Proof.
  intros Hi. unfold AsciiPort.decode_pair. cbn [mbind res_bind].
  rewrite (readUInt8_ok _ (Z.of_nat i * 2 + 1)) by lia. cbn [mbind res_bind].
  rewrite (readUInt8_ok _ (Z.of_nat i * 2 + 2)) by lia. cbn [mbind res_bind].
  eexists. split; [reflexivity | apply writeHex1_length].
Qed.

Lemma decode_turns_total (bufAscii decoded : Buffer) (k : nat) :
  k = 0%nat \/ 2 * Z.of_nat k < Buffer.len bufAscii ->
  exists decoded',
    fold_left (AsciiPort.decode_pair bufAscii) (seq 0 k) (Ok decoded) = Ok decoded'
    /\ length decoded' = length decoded.
Proof.
  induction k as [|k IH]; intros Hk; [exists decoded; auto |].
  destruct IH as (d1 & Hd1 & Hl1); [lia |].
  rewrite seq_S, fold_left_app, Hd1. cbn [fold_left]. rewrite Nat.add_0_l.
  destruct (decode_pair_total bufAscii d1 k) as (d2 & Hd2 & Hl2); [lia |].
  exists d2. split; [exact Hd2 | congruence].
Qed.

(** [asciiDecodeResponseBuffer] returns on every buffer, with a buffer
    of [(length - 3) / 2] bytes, rounded down. *)
Lemma asciiDecodeResponseBuffer_total (mem : nat -> Z) (bufAscii : Buffer) :
  exists decoded,
    AsciiPort.asciiDecodeResponseBuffer mem bufAscii = Ok decoded
    /\ Buffer.len decoded = Z.max 0 ((Buffer.len bufAscii - 3) / 2).
Proof.
  unfold AsciiPort.asciiDecodeResponseBuffer. cbv zeta.
  rewrite halves_floor, halves_ceiling.
  pose proof (len_nonneg bufAscii) as Hpos.
  set (L := Buffer.len bufAscii) in *.
  pose proof (Z.div_mod (L - 3 + 1) 2). pose proof (Z.mod_pos_bound (L - 3 + 1) 2).
  pose proof (Z.div_mod (L - 3) 2). pose proof (Z.mod_pos_bound (L - 3) 2).
  destruct (decode_turns_total bufAscii (Buffer.alloc mem ((L - 3) / 2))
              (Z.to_nat ((L - 3 + 1) / 2))) as (d & Hd & Hl).
  { fold L. lia. }
  exists d. split; [exact Hd |].
  unfold Buffer.len at 1. rewrite Hl, alloc_length. lia.
Qed.

Lemma checkData_total (modbus : AsciiPort.AsciiBufferedPort) (buf : Buffer) :
  1 <= Buffer.len buf -> exists ok, AsciiPort.checkData modbus buf = Ok ok.
Proof.
  intros H. unfold AsciiPort.checkData.
  rewrite readUInt8_ok by lia. cbn [mbind res_bind]. eexists. reflexivity.
Qed.

(** One turn of the scan returns, and touches nothing of the port. *)
Lemma check_chunk_total mem length i w :
  AsciiPort._length (AsciiPort.port w) = length -> 6 <= length ->
  exists i' w',
    AsciiPort.check_chunk mem length i w = (Ok i', w')
    /\ AsciiPort.port w' = AsciiPort.port w.
Proof.
  intros Hl H6. unfold AsciiPort.check_chunk.
  unfold mbind at 1, M_bind at 1, get at 1. cbv zeta.
  destruct (Z.eqb_spec
              (Buffer.len (Buffer.slice (AsciiPort._buffer (AsciiPort.port w))
                             i (i + length)))
              (AsciiPort._length (AsciiPort.port w))) as [E|E];
    [| eexists _, _; split; reflexivity].
  destruct (asciiDecodeResponseBuffer_total mem
              (Buffer.slice (AsciiPort._buffer (AsciiPort.port w)) i (i + length)))
    as (d & Hd & Hdl).
  unfold mbind at 1, M_bind at 1, lift at 1. rewrite Hd.
  destruct (checkData_total (AsciiPort.port w) d) as (ok & Hok).
  { rewrite Hdl, E, Hl.
    assert (1 <= (length - 3) / 2) by (apply Z.div_le_lower_bound; lia). lia. }
  unfold mbind at 1, M_bind at 1, lift at 1. rewrite Hok.
  destruct ok; eexists _, _; split; reflexivity.
Qed.

Lemma scan_total mem turns bufferLength length i w :
  AsciiPort._length (AsciiPort.port w) = length -> 6 <= length ->
  AsciiPort.scan mem turns bufferLength length i w = None
  \/ exists i' w',
       AsciiPort.scan mem turns bufferLength length i w = Some (Ok i', w')
       /\ AsciiPort.port w' = AsciiPort.port w.
Proof.
  intros Hl H6. revert i w Hl. induction turns as [|turns IH]; intros i w Hl.
  - cbn [AsciiPort.scan]. destruct (i <? bufferLength - length + 1); eauto.
  - cbn [AsciiPort.scan]. destruct (i <? bufferLength - length + 1); [| eauto].
    destruct (check_chunk_total mem length i w Hl H6) as (i' & w' & -> & Hp).
    destruct (IH (i' + 1) w') as [-> | (i2 & w2 & -> & Hp2)];
      [congruence | auto | right; eexists _, _; split; [reflexivity | congruence]].
Qed.

(** X19.  The port's handler of the serial 'data' event returns on every
    chunk, in every state of the port: its own code never throws (what a
    listener of the event it emits does is not part of it), its scan ends,
    and it leaves the unit, the command and the length that the port
    awaits as they are. *)
Theorem port_data_never_throws (mem : nat -> Z) (data : Buffer)
  (w : AsciiPort.World) :
  exists w',
    AsciiPort.on_data mem data w = Some (Ok tt, w')
    /\ AsciiPort._id (AsciiPort.port w') = AsciiPort._id (AsciiPort.port w)
    /\ AsciiPort._cmd (AsciiPort.port w') = AsciiPort._cmd (AsciiPort.port w)
    /\ AsciiPort._length (AsciiPort.port w') = AsciiPort._length (AsciiPort.port w).
Proof.
  pose proof (on_data_returns mem data w) as Hret.
  unfold AsciiPort.on_data in *. cbv zeta in *.
  cbn [AsciiPort.port AsciiPort.emitted] in *.
  destruct (_ || _) eqn:Hsmall; [eexists; split; [reflexivity | auto] |].
  apply orb_false_iff in Hsmall as [_ H6]. apply Z.ltb_ge in H6.
  match type of Hret with
  | context [AsciiPort.scan mem ?t ?b ?l 0 ?w0] =>
      destruct (scan_total mem t b l 0 w0 eq_refl H6) as [E | (i & w' & E & Hp)];
      rewrite E in *
  end; [congruence |].
  cbn [AsciiPort.port] in Hp.
  unfold when. destruct (negb (i =? 0)).
  - unfold AsciiPort.on_port, modify. eexists. split; [reflexivity |].
    cbn [AsciiPort.port]. rewrite Hp. auto.
  - unfold skip, mret, M_ret. eexists. split; [reflexivity |].
    rewrite Hp. auto.
Qed.

(** ** A response in chunks *)

Lemma slice_all (buf : Buffer) : Buffer.slice buf 0 (0 + Buffer.len buf) = buf.
Proof.
  unfold Buffer.slice, Buffer.clamp. cbv zeta.
  pose proof (len_nonneg buf) as H.
  change (0 <? 0) with false. cbn iota.
  destruct (Z.ltb_spec (0 + Buffer.len buf) 0); [lia |].
  rewrite !Z.min_l, Z.max_r by lia.
  change (Z.to_nat 0) with 0%nat. rewrite drop_0.
  replace (Z.to_nat (0 + Buffer.len buf - 0)) with (length buf)
    by (unfold Buffer.len; lia).
  apply firstn_all.
Qed.

Lemma slice_from_end (buf : Buffer) (i : Z) :
  Buffer.len buf <= i -> Buffer.slice_from buf i = [].
Proof.
  intros Hi. unfold Buffer.slice_from, Buffer.slice, Buffer.clamp. cbv zeta.
  pose proof (len_nonneg buf) as H.
  destruct (Z.ltb_spec i 0); [lia |].
  destruct (Z.ltb_spec (Buffer.len buf) 0); [lia |].
  rewrite !Z.min_r, Z.max_l by lia.
  rewrite Z.sub_diag. reflexivity.
Qed.

(** While fewer bytes are buffered than the port awaits, the handler
    buffers the chunk and emits nothing. *)
Lemma on_data_incomplete mem data w :
  Buffer.len (AsciiPort._buffer (AsciiPort.port w) ++ data)
  < AsciiPort._length (AsciiPort.port w) ->
  AsciiPort.on_data mem data w =
  Some (Ok tt,
        {| AsciiPort.port :=
             AsciiPort.set_buffer (AsciiPort._buffer (AsciiPort.port w) ++ data)
               (AsciiPort.port w);
           AsciiPort.emitted := AsciiPort.emitted w |}).
Proof.
  intros Hshort. unfold AsciiPort.on_data, Buffer.concat. cbv zeta.
  cbn [AsciiPort.port AsciiPort.emitted AsciiPort._length AsciiPort._buffer
       AsciiPort.set_buffer].
  destruct (_ || _); [reflexivity |].
  destruct (Z.to_nat _) as [|turns]; cbn [AsciiPort.scan];
    (destruct (Z.ltb_spec 0
                (Buffer.len (AsciiPort._buffer (AsciiPort.port w) ++ data)
                 - AsciiPort._length (AsciiPort.port w) + 1)); [lia |]);
    reflexivity.
Qed.

Lemma sealed_length (body : Buffer) : Buffer.len (sealed body) = Buffer.len body + 1.
Proof. unfold sealed, Buffer.len. rewrite length_app. cbn [length]. lia. Qed.

Lemma sealed_wf (body : Buffer) : Buffer.wf body -> Buffer.wf (sealed body).
Proof.
  intros Hwf. unfold sealed. apply Forall_app. split; [exact Hwf |].
  constructor; [| constructor]. rewrite spec_lrc_value.
  apply Z.mod_pos_bound. lia.
Qed.

Lemma checkData_sealed (p : AsciiPort.AsciiBufferedPort) (body : Buffer) :
  port_expects p (sealed body) -> AsciiPort.checkData p (sealed body) = Ok true.
Proof.
  intros (Hid & Hcmd & _). unfold AsciiPort.checkData.
  pose proof (len_nonneg body) as Hpos.
  rewrite readUInt8_ok by (rewrite sealed_length; lia).
  cbn [mbind res_bind]. rewrite Hid, Hcmd. unfold AsciiPort.same.
  rewrite !Z.eqb_refl. cbn [andb].
  change (AsciiPort.calculateLrc (sealed body))
    with (AsciiPort.calculateLrc (body ++ [spec_lrc body (Buffer.len body)])).
  rewrite calculateLrc_frame.
  rewrite sealed_length. replace (Buffer.len body + 1 - 1) with (Buffer.len body) by lia.
  unfold sealed, Buffer.len. rewrite Nat2Z.id, list_lookup_middle by reflexivity.
  cbn [default from_option id]. rewrite Z.eqb_refl. reflexivity.
Qed.

(** When the bytes buffered are the response that the port awaits, the
    handler emits it and empties the buffer. *)
Lemma on_data_complete mem data w body :
  Buffer.wf body -> 2 <= Buffer.len body ->
  port_expects (AsciiPort.port w) (sealed body) ->
  AsciiPort._buffer (AsciiPort.port w) ++ data = wire_of (sealed body) ->
  AsciiPort.on_data mem data w =
  Some (Ok tt,
        {| AsciiPort.port := AsciiPort.set_buffer [] (AsciiPort.port w);
           AsciiPort.emitted := AsciiPort.emitted w ++ [sealed body] |}).
Proof.
  intros Hwf Hlen Hexp Hwire.
  pose proof (sealed_wf body Hwf) as Hswf.
  pose proof (sealed_length body) as Hslen.
  pose proof (wire_length (sealed body)) as Hwlen.
  destruct Hexp as (Hid & Hcmd & HL).
  unfold AsciiPort.on_data, Buffer.concat. cbv zeta.
  cbn [AsciiPort.port AsciiPort.emitted AsciiPort._length AsciiPort._buffer
       AsciiPort.set_buffer].
  rewrite Hwire, HL, Hwlen.
  set (L := 2 * Buffer.len (sealed body) + 3) in *.
  destruct (Z.ltb_spec L 6); [lia |]. cbn [orb].
  destruct (Z.to_nat L) as [|turns] eqn:Hturns; [lia |].
  cbn [AsciiPort.scan].
  replace (L - L + 1) with 1 by lia. change (0 <? 1) with true. cbn iota.
  unfold AsciiPort.check_chunk.
  unfold mbind at 1, M_bind at 1, get at 1. cbv zeta.
  cbn [AsciiPort.port AsciiPort._buffer AsciiPort._length AsciiPort.set_buffer].
  replace (Buffer.slice (wire_of (sealed body)) 0 (0 + L))
    with (wire_of (sealed body)) by (rewrite <- Hwlen; symmetry; apply slice_all).
  rewrite Hwlen, HL, Z.eqb_refl.
  unfold mbind at 1, M_bind at 1, lift at 1.
  rewrite (asciiDecodeResponseBuffer_wire mem _ Hswf).
  unfold mbind at 1, M_bind at 1, lift at 1.
  rewrite checkData_sealed by (repeat split; assumption).
  unfold mbind, M_bind, AsciiPort.emit, modify, mret, M_ret.
  cbn [AsciiPort.port AsciiPort.emitted].
  destruct (Z.ltb_spec (0 + L + 1) 1); [lia |].
  assert (Hscan : forall w0,
             AsciiPort.scan mem turns L L (0 + L + 1) w0 = Some (Ok (0 + L + 1), w0)).
  { intros w0. destruct turns; cbn [AsciiPort.scan];
      destruct (Z.ltb_spec (0 + L + 1) (L - L + 1)); (lia || reflexivity). }
  rewrite Hscan.
  destruct (Z.eqb_spec (0 + L + 1) 0); [lia |]. cbn [negb].
  unfold when, AsciiPort.on_port, modify.
  cbn [AsciiPort.port AsciiPort.emitted AsciiPort._buffer AsciiPort.set_buffer
       AsciiPort._id AsciiPort._cmd AsciiPort._length].
  rewrite slice_from_end by lia. reflexivity.
Qed.

Lemma feed_nothing mem chunks p e :
  concat chunks = [] ->
  feed mem chunks
    {| AsciiPort.port := AsciiPort.set_buffer [] p; AsciiPort.emitted := e |}
  = Some (Ok tt,
          {| AsciiPort.port := AsciiPort.set_buffer [] p; AsciiPort.emitted := e |}).
Proof.
  induction chunks as [|c cs IH]; intros Hc; [reflexivity |].
  cbn [concat] in Hc. apply app_eq_nil in Hc as [-> Hcs].
  cbn [feed]. rewrite on_data_waits by (left; vm_compute; reflexivity).
  apply IH. exact Hcs.
Qed.

Lemma feed_chunks mem body chunks w :
  Buffer.wf body -> 2 <= Buffer.len body ->
  port_expects (AsciiPort.port w) (sealed body) ->
  Buffer.len (AsciiPort._buffer (AsciiPort.port w))
  < AsciiPort._length (AsciiPort.port w) ->
  AsciiPort._buffer (AsciiPort.port w) ++ concat chunks = wire_of (sealed body) ->
  feed mem chunks w =
  Some (Ok tt,
        {| AsciiPort.port := AsciiPort.set_buffer [] (AsciiPort.port w);
           AsciiPort.emitted := AsciiPort.emitted w ++ [sealed body] |}).
Proof.
  intros Hwf Hlen. revert w.
  induction chunks as [|c cs IH]; intros w Hexp Hshort Hwire.
  - exfalso. cbn [concat] in Hwire. rewrite app_nil_r in Hwire.
    rewrite Hwire, wire_length in Hshort. destruct Hexp as (_ & _ & HL). lia.
  - cbn [concat] in Hwire. rewrite app_assoc in Hwire.
    assert (HL : AsciiPort._length (AsciiPort.port w)
                 = Buffer.len (AsciiPort._buffer (AsciiPort.port w) ++ c)
                   + Buffer.len (concat cs)).
    { destruct Hexp as (_ & _ & ->). rewrite <- wire_length, <- Hwire.
      unfold Buffer.len. rewrite !length_app. lia. }
    cbn [feed].
    destruct (Z_lt_le_dec (Buffer.len (AsciiPort._buffer (AsciiPort.port w) ++ c))
                (AsciiPort._length (AsciiPort.port w))) as [Hless | Hfull].
    + rewrite on_data_incomplete by exact Hless.
      rewrite IH; [reflexivity | exact Hexp | exact Hless | exact Hwire].
    + assert (Hnil : concat cs = []).
      { apply length_zero_iff_nil. pose proof (len_nonneg (concat cs)).
        unfold Buffer.len in *. lia. }
      rewrite Hnil, app_nil_r in Hwire.
      rewrite (on_data_complete mem c w body Hwf Hlen Hexp Hwire).
      apply feed_nothing. exact Hnil.
Qed.

(** The chunks of a response, one after the other. *)
Lemma response_chunks (mem : nat -> Z)
  (p : AsciiPort.AsciiBufferedPort) (e : list Buffer) (body : Buffer)
  (chunks : list Buffer) :
  Buffer.wf body -> 2 <= Buffer.len body ->
  AsciiPort._buffer p = [] -> port_expects p (sealed body) ->
  concat chunks = wire_of (sealed body) ->
  feed mem chunks {| AsciiPort.port := p; AsciiPort.emitted := e |}
  = Some (Ok tt,
          {| AsciiPort.port := p; AsciiPort.emitted := e ++ [sealed body] |}).
Proof.
  intros Hwf Hlen Hbuf Hexp Hchunks.
  rewrite (feed_chunks mem body chunks
             {| AsciiPort.port := p; AsciiPort.emitted := e |} Hwf Hlen Hexp).
  - cbn [AsciiPort.port AsciiPort.emitted]. destruct p as [b i c l].
    cbn [AsciiPort._buffer] in Hbuf. subst b. reflexivity.
  - cbn [AsciiPort.port]. rewrite Hbuf. destruct Hexp as (_ & _ & ->).
    pose proof (len_nonneg (sealed body)). unfold Buffer.len at 1. cbn [length]. lia.
  - cbn [AsciiPort.port]. rewrite Hbuf. exact Hchunks.
Qed.

(** Until the bytes buffered are as many as the port awaits, the chunks
    are buffered and nothing is emitted. *)
Lemma feed_partial mem chunks w :
  Buffer.len (AsciiPort._buffer (AsciiPort.port w) ++ concat chunks)
  < AsciiPort._length (AsciiPort.port w) ->
  feed mem chunks w =
  Some (Ok tt,
        {| AsciiPort.port :=
             AsciiPort.set_buffer
               (AsciiPort._buffer (AsciiPort.port w) ++ concat chunks)
               (AsciiPort.port w);
           AsciiPort.emitted := AsciiPort.emitted w |}).
Proof.
  revert w. induction chunks as [|c cs IH]; intros w Hshort.
  - cbn [feed concat]. rewrite app_nil_r. destruct w as [[b i c l] e]. reflexivity.
  - cbn [feed concat] in *. rewrite app_assoc in Hshort.
    assert (Hc : Buffer.len (AsciiPort._buffer (AsciiPort.port w) ++ c)
                 < AsciiPort._length (AsciiPort.port w)).
    { unfold Buffer.len in *. rewrite length_app in Hshort. lia. }
    rewrite on_data_incomplete by exact Hc.
    rewrite IH by exact Hshort.
    cbn [AsciiPort.port AsciiPort.emitted AsciiPort._buffer AsciiPort.set_buffer
         AsciiPort._id AsciiPort._cmd AsciiPort._length].
    rewrite app_assoc. reflexivity.
Qed.

(** X20.  A response is delivered once, however the serial driver cuts
    it: when the port, its buffer empty, awaits a response (unit, command
    and LRC right, two bytes or more before the LRC) and receives its
    form on the wire in any number of chunks of any sizes, it emits the
    decoded response in one 'data' event, once, and its buffer is empty
    again; as long as a part of the response is still to come, it emits
    nothing and buffers what has come. *)
Theorem response_is_delivered_once (mem : nat -> Z)
  (p : AsciiPort.AsciiBufferedPort) (e : list Buffer) (body : Buffer) :
  Buffer.wf body -> 2 <= Buffer.len body ->
  AsciiPort._buffer p = [] -> port_expects p (sealed body) ->
  (forall chunks,
      concat chunks = wire_of (sealed body) ->
      feed mem chunks {| AsciiPort.port := p; AsciiPort.emitted := e |}
      = Some (Ok tt,
              {| AsciiPort.port := p; AsciiPort.emitted := e ++ [sealed body] |}))
  /\ (forall chunks rest,
         concat chunks ++ rest = wire_of (sealed body) -> rest <> [] ->
         feed mem chunks {| AsciiPort.port := p; AsciiPort.emitted := e |}
         = Some (Ok tt,
                 {| AsciiPort.port := AsciiPort.set_buffer (concat chunks) p;
                    AsciiPort.emitted := e |})).
Proof.
  intros Hwf Hlen Hbuf Hexp. split.
  - intros chunks Hchunks. apply response_chunks; assumption.
  - intros chunks rest Hwire Hrest.
    rewrite feed_partial; cbn [AsciiPort.port AsciiPort.emitted]; rewrite Hbuf.
    + reflexivity.
    + destruct Hexp as (_ & _ & ->). rewrite <- wire_length, <- Hwire.
      destruct rest as [|x rest]; [contradiction |].
      unfold Buffer.len. cbn [app]. rewrite length_app. cbn [length]. lia.
Qed.

Lemma response_is_delivered_once_witness :
  (forall chunks,
      concat chunks = wire_of (sealed [1; 5; 0; 1; 255; 0]) ->
      feed (fun _ => 0) chunks
        {| AsciiPort.port := port_awaiting_echo; AsciiPort.emitted := [] |}
      = Some (Ok tt,
              {| AsciiPort.port := port_awaiting_echo;
                 AsciiPort.emitted := [] ++ [sealed [1; 5; 0; 1; 255; 0]] |}))
  /\ (forall chunks rest,
         concat chunks ++ rest = wire_of (sealed [1; 5; 0; 1; 255; 0]) ->
         rest <> [] ->
         feed (fun _ => 0) chunks
           {| AsciiPort.port := port_awaiting_echo; AsciiPort.emitted := [] |}
         = Some (Ok tt,
                 {| AsciiPort.port :=
                      AsciiPort.set_buffer (concat chunks) port_awaiting_echo;
                    AsciiPort.emitted := [] |})).
Proof.
  apply (response_is_delivered_once (fun _ => 0) port_awaiting_echo []
           [1; 5; 0; 1; 255; 0]).
  - repeat constructor; unfold Buffer.byte; lia.
  - unfold Buffer.len. simpl. lia.
  - reflexivity.
  - repeat split; vm_compute; reflexivity.
Defined.

(** ** Through the port and back *)

Lemma core6_wf (address code p1 p2 : Z) :
  0 <= address <= 255 -> 0 <= code <= 255 -> 0 <= p1 <= 65535 -> 0 <= p2 <= 65535 ->
  Buffer.wf (core6 address code p1 p2).
Proof.
  intros Ha Hc H1 H2. unfold core6, Buffer.wf, Buffer.byte.
  repeat constructor;
    try lia;
    try (apply Z.div_pos; lia);
    try (apply Z.div_lt_upper_bound; lia);
    apply Z.mod_pos_bound; lia.
Qed.

(** The port's [write] on a request of seven bytes or more for function
    code 5, 6 or 16. *)
Lemma port_write_fixed mem port address code rest :
  code = 5 \/ code = 6 \/ code = 16 -> 3 <= Buffer.len rest ->
  AsciiPort.write mem (address :: code :: rest) port =
  (Ok (Some (AsciiPort.asciiEncodeRequestBuffer mem (address :: code :: rest))),
   AsciiPort.set_length 17 (AsciiPort.set_cmd code (AsciiPort.set_id address port))).
Proof.
  intros Hcode Hrest. unfold AsciiPort.write.
  destruct (Z.ltb_spec (Buffer.len (address :: code :: rest)) 5);
    [rewrite !len_cons in *; lia |].
  cbv beta iota zeta delta [mbind M_bind modify get lift mret M_ret].
  cbn [AsciiPort._cmd AsciiPort.set_cmd AsciiPort.set_id lookup
       list_lookup default from_option id].
  destruct Hcode as [-> | [-> | ->]]; reflexivity.
Qed.

(** The port's [write] on a request for registers. *)
Lemma port_write_registers mem port address code dataAddress n lrc :
  code = 3 \/ code = 4 ->
  AsciiPort.write mem (core6 address code dataAddress n ++ [lrc]) port =
  (Ok (Some (AsciiPort.asciiEncodeRequestBuffer mem
               (core6 address code dataAddress n ++ [lrc]))),
   AsciiPort.set_length ((3 + 2 * n + 2) * 2 + 1)
     (AsciiPort.set_cmd code (AsciiPort.set_id address port))).
Proof.
  intros Hcode. unfold AsciiPort.write.
  change (Buffer.len (core6 address code dataAddress n ++ [lrc]) <? 5) with false.
  cbv beta iota zeta delta [mbind M_bind modify get lift mret M_ret].
  cbn [AsciiPort._cmd AsciiPort.set_cmd AsciiPort.set_id core6 app lookup
       list_lookup default from_option id].
  assert (Hc : (code =? 1) || (code =? 2) = false)
    by (destruct Hcode as [-> | ->]; reflexivity).
  assert (Hc' : (code =? 3) || (code =? 4) = true)
    by (destruct Hcode as [-> | ->]; reflexivity).
  rewrite Hc, Hc'.
  rewrite readUInt16BE_ok by (unfold Buffer.len; simpl; lia).
  change (Z.to_nat 4) with 4%nat.
  cbn [lookup list_lookup default from_option id].
  rewrite word_value. reflexivity.
Qed.

(** X21.  A register is written over the ASCII port and back: the
    request of [writeFC6], handed to the port's [write], goes out as a
    colon, its bytes as upper-case hexadecimal digits, CR and LF; when the
    device echoes that, in any number of chunks, the port emits the seven
    bytes of the request, once, and the engine handed them calls the
    continuation once with the address and the value written. *)
Theorem write_register_through_port (mem : nat -> Z) (m : Engine.ModbusRTU)
  (p : AsciiPort.AsciiBufferedPort) (address dataAddress value : Z)
  (k : Engine.callback) :
  Engine._ascii m = None -> AsciiPort._buffer p = [] ->
  0 <= address <= 255 -> 0 <= dataAddress <= 65535 -> 0 <= value <= 65535 ->
  exists frame m1 p1,
    Engine.writeFC6 mem address dataAddress value (Some k) m = (Ok frame, m1)
    /\ AsciiPort.write mem frame p = (Ok (Some (wire_of frame)), p1)
    /\ (forall chunks emitted,
           concat chunks = wire_of frame ->
           feed mem chunks {| AsciiPort.port := p1; AsciiPort.emitted := emitted |}
           = Some (Ok tt, {| AsciiPort.port := p1;
                             AsciiPort.emitted := emitted ++ [frame] |}))
    /\ Engine.handle m1 frame =
       (Ok tt,
        {| Engine.modbus := cleared m1; Engine.data := frame;
           Engine.calls :=
             [Engine.CallResult k (Engine.RegisterValue dataAddress value)] |}).
Proof.
  intros Hm Hbuf Ha Hd Hv.
  assert (Ht : Engine.ascii_is true m = false)
    by (unfold Engine.ascii_is; rewrite Hm; reflexivity).
  assert (Hf : Engine.ascii_is false m = false)
    by (unfold Engine.ascii_is; rewrite Hm; reflexivity).
  assert (Hwf : Buffer.wf (core6 address 6 dataAddress value))
    by (apply core6_wf; lia).
  eexists _, _, _. split; [apply writeFC6_run; assumption |].
  change (core6 address 6 dataAddress value
          ++ [spec_lrc (core6 address 6 dataAddress value) 6])
    with (sealed (core6 address 6 dataAddress value)).
  split; [| split].
  - rewrite <- (asciiEncodeRequestBuffer_wire mem) by (apply sealed_wf, Hwf).
    apply (port_write_fixed mem p address 6); [auto | unfold Buffer.len; simpl; lia].
  - intros chunks emitted Hchunks.
    apply response_chunks; try assumption.
    + unfold Buffer.len. simpl. lia.
    + repeat split.
  - change (sealed (core6 address 6 dataAddress value))
      with (sealed (address :: 6 :: [dataAddress / 256; dataAddress mod 256;
                                     value / 256; value mod 256])).
    rewrite (handle_sealed _ address 6 _ (Some k)); [| exact Hf | repeat split].
    rewrite (parse_by_code_one 6 _ _ Engine._readFC6) by auto.
    rewrite parse_unfold. cbn [Engine.data Engine.modbus Engine.calls].
    unfold Engine._readFC6.
    rewrite !readUInt16BE_ok by (unfold Buffer.len; simpl; lia).
    cbn [mbind res_bind]. unfold sealed.
    change (Z.to_nat 2) with 2%nat. change (Z.to_nat 4) with 4%nat.
    cbn [lookup list_lookup app default from_option id].
    rewrite !word_value. reflexivity.
Qed.

Lemma write_register_through_port_witness :
  exists frame m1 p1,
    Engine.writeFC6 (fun _ => 0) 1 7 5 (Some 0%nat) Engine.new_ModbusRTU
    = (Ok frame, m1)
    /\ AsciiPort.write (fun _ => 0) frame AsciiPort.new_AsciiBufferedPort
       = (Ok (Some (wire_of frame)), p1)
    /\ (forall chunks emitted,
           concat chunks = wire_of frame ->
           feed (fun _ => 0) chunks
             {| AsciiPort.port := p1; AsciiPort.emitted := emitted |}
           = Some (Ok tt, {| AsciiPort.port := p1;
                             AsciiPort.emitted := emitted ++ [frame] |}))
    /\ Engine.handle m1 frame =
       (Ok tt,
        {| Engine.modbus := cleared m1; Engine.data := frame;
           Engine.calls :=
             [Engine.CallResult 0%nat (Engine.RegisterValue 7 5)] |}).
Proof.
  apply (write_register_through_port (fun _ => 0) Engine.new_ModbusRTU
           AsciiPort.new_AsciiBufferedPort 1 7 5 0%nat);
    [reflexivity | reflexivity | lia | lia | lia].
Defined.

(** X22.  Registers are read over the ASCII port: the port handed the
    request of [writeFC3] for [n] registers awaits what the engine awaits,
    twice the [3 + 2 n + 1] bytes of the answer and three delimiters on
    the wire; when the answer with [n] values arrives on the wire, in any
    number of chunks, the port emits it once, and the engine handed it
    calls the continuation once with the [n] values. *)
Theorem read_registers_through_port (mem : nat -> Z) (m : Engine.ModbusRTU)
  (p : AsciiPort.AsciiBufferedPort) (address dataAddress : Z) (regs : list Z)
  (k : Engine.callback) :
  Engine._ascii m = None -> AsciiPort._buffer p = [] ->
  0 <= address <= 255 -> 0 <= dataAddress <= 65535 ->
  Forall (fun r => 0 <= r <= 65535) regs -> (length regs <= 127)%nat ->
  let answer :=
    sealed ([address; 3; 2 * Buffer.len regs] ++ register_bytes regs) in
  exists request m1 p1,
    Engine.writeFC3 mem address dataAddress (Buffer.len regs) (Some k) m
    = (Ok request, m1)
    /\ AsciiPort.write mem request p = (Ok (Some (wire_of request)), p1)
    /\ AsciiPort._length p1 = 2 * Engine._nextLength m1 + 3
    /\ (forall chunks emitted,
           concat chunks = wire_of answer ->
           feed mem chunks {| AsciiPort.port := p1; AsciiPort.emitted := emitted |}
           = Some (Ok tt, {| AsciiPort.port := p1;
                             AsciiPort.emitted := emitted ++ [answer] |}))
    /\ Engine.handle m1 answer =
       (Ok tt,
        {| Engine.modbus := cleared m1; Engine.data := answer;
           Engine.calls :=
             [Engine.CallResult k (Engine.Registers regs (register_bytes regs))] |}).
Proof.
  intros Hm Hbuf Ha Hd Hregs Hn answer.
  assert (Ht : Engine.ascii_is true m = false)
    by (unfold Engine.ascii_is; rewrite Hm; reflexivity).
  assert (Hlen : 0 <= Buffer.len regs <= 127) by (unfold Buffer.len; lia).
  assert (Hwf : Buffer.wf (core6 address 3 dataAddress (Buffer.len regs)))
    by (apply core6_wf; lia).
  assert (Hbody : Buffer.wf ([address; 3; 2 * Buffer.len regs] ++ register_bytes regs)).
  { apply Forall_app. split; [| apply register_bytes_wf, Hregs].
    repeat constructor; unfold Buffer.byte; lia. }
  eexists _, _, _. split.
  { unfold Engine.writeFC3. apply writeFC4_run; try assumption.
    - change (code_or 4 (Some 3)) with 3. lia.
    - lia. }
  change (code_or 4 (Some 3)) with 3.
  split; [| split; [| split]].
  - rewrite <- (asciiEncodeRequestBuffer_wire mem)
      by (apply (sealed_wf (core6 address 3 dataAddress (Buffer.len regs))), Hwf).
    apply port_write_registers. auto.
  - cbn [AsciiPort._length AsciiPort.set_length Engine._nextLength
         Engine.set_next Engine.set_nextLength]. lia.
  - intros chunks emitted Hchunks.
    apply response_chunks; try assumption.
    + unfold Buffer.len. rewrite length_app. cbn [length]. lia.
    + repeat split.
      cbn [AsciiPort._length AsciiPort.set_length].
      rewrite sealed_length. unfold Buffer.len.
      rewrite length_app, register_bytes_length. cbn [length]. lia.
  - apply registers_answer; [| repeat split].
    unfold Engine.ascii_is. cbn [Engine._ascii Engine.set_next Engine.set_nextLength
      Engine.set_nextCode Engine.set_nextAddress]. rewrite Hm. reflexivity.
Qed.

Lemma read_registers_through_port_witness :
  let answer := sealed ([1; 3; 2 * Buffer.len [10; 11]] ++ register_bytes [10; 11]) in
  exists request m1 p1,
    Engine.writeFC3 (fun _ => 0) 1 0 (Buffer.len [10; 11]) (Some 0%nat)
      Engine.new_ModbusRTU
    = (Ok request, m1)
    /\ AsciiPort.write (fun _ => 0) request AsciiPort.new_AsciiBufferedPort
       = (Ok (Some (wire_of request)), p1)
    /\ AsciiPort._length p1 = 2 * Engine._nextLength m1 + 3
    /\ (forall chunks emitted,
           concat chunks = wire_of answer ->
           feed (fun _ => 0) chunks
             {| AsciiPort.port := p1; AsciiPort.emitted := emitted |}
           = Some (Ok tt, {| AsciiPort.port := p1;
                             AsciiPort.emitted := emitted ++ [answer] |}))
    /\ Engine.handle m1 answer =
       (Ok tt,
        {| Engine.modbus := cleared m1; Engine.data := answer;
           Engine.calls :=
             [Engine.CallResult 0%nat
                (Engine.Registers [10; 11] (register_bytes [10; 11]))] |}).
Proof.
  apply (read_registers_through_port (fun _ => 0) Engine.new_ModbusRTU
           AsciiPort.new_AsciiBufferedPort 1 0 [10; 11] 0%nat).
  - reflexivity.
  - reflexivity.
  - lia.
  - lia.
  - repeat constructor; lia.
  - simpl. lia.
Defined.

(** ** What is ignored *)

(** X23.  A port that awaits fewer than 6 bytes emits nothing: as long
    as no request has been written (the constructor sets the length to 0)
    and after a request for a function code that [write] does not know
    (it sets the length to 0), every chunk is appended to the buffer,
    which is never trimmed, and no 'data' event is emitted. *)
Theorem idle_port_only_buffers (mem : nat -> Z) (chunks : list Buffer)
  (p : AsciiPort.AsciiBufferedPort) (e : list Buffer) :
  AsciiPort._length p < 6 ->
  feed mem chunks {| AsciiPort.port := p; AsciiPort.emitted := e |}
  = Some (Ok tt,
          {| AsciiPort.port :=
               AsciiPort.set_buffer (AsciiPort._buffer p ++ concat chunks) p;
             AsciiPort.emitted := e |}).
Proof.
  intros Hidle. revert p Hidle.
  induction chunks as [|c cs IH]; intros p Hidle.
  - cbn [feed concat]. rewrite app_nil_r. destruct p. reflexivity.
  - cbn [feed concat]. rewrite on_data_waits by (right; exact Hidle).
    cbn [AsciiPort.port AsciiPort.emitted].
    rewrite IH by exact Hidle.
    cbn [AsciiPort._buffer AsciiPort.set_buffer AsciiPort._id AsciiPort._cmd
         AsciiPort._length].
    rewrite app_assoc. reflexivity.
Qed.

Lemma idle_port_only_buffers_witness :
  feed (fun _ => 0) [coil_echo_wire; coil_echo_wire]
    {| AsciiPort.port := AsciiPort.new_AsciiBufferedPort; AsciiPort.emitted := [] |}
  = Some (Ok tt,
          {| AsciiPort.port :=
               AsciiPort.set_buffer
                 (AsciiPort._buffer AsciiPort.new_AsciiBufferedPort
                  ++ concat [coil_echo_wire; coil_echo_wire])
                 AsciiPort.new_AsciiBufferedPort;
             AsciiPort.emitted := [] |}).
Proof.
  apply (idle_port_only_buffers (fun _ => 0) [coil_echo_wire; coil_echo_wire]
           AsciiPort.new_AsciiBufferedPort []).
  simpl. lia.
Defined.

(** X24.  An engine that has completed a transaction ignores what comes
    next: once the handler has cleared the transaction (and the length it
    awaited was 2 or more, as after every request), any further chunk,
    whatever its length and content, makes no call, throws nothing and
    leaves the engine as it is. *)
Theorem cleared_engine_ignores_data (m : Engine.ModbusRTU) (chunk : Buffer) :
  2 <= Engine._nextLength m ->
  Engine.handle (cleared m) chunk =
  (Ok tt,
   {| Engine.modbus := cleared m; Engine.data := chunk; Engine.calls := [] |}).
Proof.
  intros Hlen.
  destruct (Z.eq_dec (Buffer.len chunk) (Engine._nextLength (cleared m))) as [E | E].
  - destruct chunk as [|address [|code rest]];
      try (unfold Buffer.len in E; cbn [length cleared Engine._nextLength
             Engine.set_next Engine.set_nextCode Engine.set_nextAddress] in E; lia).
    rewrite handle_identity_mismatch; [reflexivity | exact E | reflexivity].
  - rewrite handle_length_mismatch by exact E. reflexivity.
Qed.

Lemma cleared_engine_ignores_data_witness :
  Engine.handle
    (cleared (snd (Engine.writeFC6 (fun _ => 0) 1 7 5 (Some 0%nat)
                     Engine.new_ModbusRTU)))
    [1; 6; 0; 7; 0; 5; 237] =
  (Ok tt,
   {| Engine.modbus :=
        cleared (snd (Engine.writeFC6 (fun _ => 0) 1 7 5 (Some 0%nat)
                        Engine.new_ModbusRTU));
      Engine.data := [1; 6; 0; 7; 0; 5; 237]; Engine.calls := [] |}).
Proof.
  apply (cleared_engine_ignores_data
           (snd (Engine.writeFC6 (fun _ => 0) 1 7 5 (Some 0%nat)
                   Engine.new_ModbusRTU))
           [1; 6; 0; 7; 0; 5; 237]).
  simpl. lia.
Defined.
